(** * labelpc: the geometry core of [labelpc/app.py]

    A shallow embedding of the coordinate mapping, slice paging, rack
    splitting/merging, shape rotation and new-shape dispatch performed by
    [MainWindow] in [src/labelpc/app.py], with the properties the
    specification states about them.

    Numbers.  Every coordinate of the program is an IEEE binary64 value
    (Python [float], numpy [float64], Qt [qreal]).  The statements about
    which branch is taken, which corner is moved and which formula is
    applied idealise them as real numbers: [+ - * /], [abs] and the
    comparisons are the exact operations of [R].  The statement about the
    tolerance of the coordinate round trip is about rounding itself: there
    every operation is followed by rounding to nearest ([Binary64]), and
    concrete runs are evaluated on binary64 numbers ([Float64]).

    Objects.  Python shapes are mutable objects that several containers
    reference at once (the label list, the canvas, local variables).  They
    live in a store, [heap], and are named by their address; the
    containers hold addresses. *)

From Stdlib Require Import Reals Lra Lia ZArith String Ascii.
From Stdlib Require PrimFloat.
From stdpp Require Import base list.

Local Open Scope R_scope.

(** ** Numeric helpers *)

(** The Python comparison [a < b] on numbers, as a boolean. *)
Definition Rltb (a b : R) : bool := if Rlt_dec a b then true else false.

(** ['sub' in s] on Python strings. *)
Definition str_in (sub s : string) : bool :=
  match String.index 0 sub s with
  | Some _ => true
  | None => false
  end.

(** ** Data model *)

(** [QtCore.QPointF]: a point of the raster, in pixel coordinates. *)
Module QPointF.
Record t : Type := mk { x : R; y : R }.
Definition setX (p : t) (v : R) : t := mk v (y p).
Definition setY (p : t) (v : R) : t := mk (x p) v.
End QPointF.

(** A world point: the 2-tuple (or length-2 array) the code passes to and
    receives from the point cloud. *)
Definition Point2 : Type := (R * R)%type.

(** A 2x2 array [[x0, y0], [x1, y1]]: [fst] is [box[0]], [snd] is [box[1]]. *)
Definition Box : Type := (Point2 * Point2)%type.

(** [labelpc.shape.Shape], the fields [app.py] reads and writes. *)
Record Shape : Type := mkShape {
  label : string;
  points : list QPointF.t;
  shape_type : string;
  group_id : option Z;
  flags : list (string * bool)
}.

Definition set_points (s : Shape) (ps : list QPointF.t) : Shape :=
  mkShape (label s) ps (shape_type s) (group_id s) (flags s).

Definition set_label (s : Shape) (l : string) (fl : list (string * bool)) : Shape :=
  mkShape l (points s) (shape_type s) (group_id s) fl.

Definition set_group_id (s : Shape) (g : option Z) : Shape :=
  mkShape (label s) (points s) (shape_type s) g (flags s).

(** [labelpc.pointcloud.PointCloud.PointCloud] is not part of [app.py]; the
    window only calls it.  Its methods are taken as an interface. *)
Record PointCloud : Type := mkPointCloud {
  snap_to_center : Point2 -> R -> Point2;
  snap_to_corner : Point2 -> R -> Point2;
  in_box_2d : Box -> list bool;
  tighten_to_rack : Box -> Box;
  viewer_is_ready : bool
}.

(** The state of [MainWindow] that the modelled methods touch.

    - [heap]: the shape objects, by address.
    - [itemsToShapes]: [self.labelList.itemsToShapes], the shape of every
      list item in order; an item is identified with its position.
    - [selectedItems]: the shapes of [self.labelList.selectedItems()].
    - [canvas_shapes]: [self.canvas.shapes].
    - [imageData]: [None] after [resetState], a list of encoded images
      after [buildImageData]. *)
Record MainWindow : Type := mkMainWindow {
  scale : R;
  offset : QPointF.t;
  pixmap_height : Z;
  prevPoint : QPointF.t;
  heap : list Shape;
  itemsToShapes : list nat;
  selectedItems : list nat;
  canvas_shapes : list nat;
  sliceIdx : Z;
  imageData : option (list (list Byte.byte));
  image : option (list Byte.byte);
  _config : string -> option R;
  pointcloud : PointCloud
}.

Definition with_heap (h : list Shape) (w : MainWindow) : MainWindow :=
  mkMainWindow (scale w) (offset w) (pixmap_height w) (prevPoint w) h
    (itemsToShapes w) (selectedItems w) (canvas_shapes w) (sliceIdx w)
    (imageData w) (image w) (_config w) (pointcloud w).

Definition with_itemsToShapes (l : list nat) (w : MainWindow) : MainWindow :=
  mkMainWindow (scale w) (offset w) (pixmap_height w) (prevPoint w) (heap w)
    l (selectedItems w) (canvas_shapes w) (sliceIdx w)
    (imageData w) (image w) (_config w) (pointcloud w).

Definition with_selectedItems (l : list nat) (w : MainWindow) : MainWindow :=
  mkMainWindow (scale w) (offset w) (pixmap_height w) (prevPoint w) (heap w)
    (itemsToShapes w) l (canvas_shapes w) (sliceIdx w)
    (imageData w) (image w) (_config w) (pointcloud w).

Definition with_canvas_shapes (l : list nat) (w : MainWindow) : MainWindow :=
  mkMainWindow (scale w) (offset w) (pixmap_height w) (prevPoint w) (heap w)
    (itemsToShapes w) (selectedItems w) l (sliceIdx w)
    (imageData w) (image w) (_config w) (pointcloud w).

Definition with_sliceIdx (i : Z) (w : MainWindow) : MainWindow :=
  mkMainWindow (scale w) (offset w) (pixmap_height w) (prevPoint w) (heap w)
    (itemsToShapes w) (selectedItems w) (canvas_shapes w) i
    (imageData w) (image w) (_config w) (pointcloud w).

Definition with_image (i : option (list Byte.byte)) (w : MainWindow) : MainWindow :=
  mkMainWindow (scale w) (offset w) (pixmap_height w) (prevPoint w) (heap w)
    (itemsToShapes w) (selectedItems w) (canvas_shapes w) (sliceIdx w)
    (imageData w) i (_config w) (pointcloud w).

(** ** Coordinate mapping (app.py, 1737-1744) *)

(** [qpointToPointcloud]: pixel coordinates to world coordinates. *)
Definition qpointToPointcloud (self : MainWindow) (p : QPointF.t) : Point2 :=
  (QPointF.x p * scale self + QPointF.x (offset self),
   (IZR (pixmap_height self) - QPointF.y p) * scale self + QPointF.y (offset self)).

(** [pointcloudToQpoint]: world coordinates to pixel coordinates. *)
Definition pointcloudToQpoint (self : MainWindow) (p : Point2) : QPointF.t :=
  let x := (fst p - QPointF.x (offset self)) / scale self in
  let y := IZR (pixmap_height self) - ((snd p - QPointF.y (offset self)) / scale self) in
  QPointF.mk x y.

(** ** Control: state and exceptions

    A method runs on the window state and either returns, or raises a
    Python exception leaving the state as it was when the exception
    occurred.  [Undefined] is not a behaviour of the program: it marks a
    run of the model that used up its loop budget or followed an address
    that is not in the store. *)

Inductive exn : Type := ValueError | IndexError | KeyError.

Inductive outcome (A : Type) : Type :=
| Ok (a : A) (w : MainWindow)
| Raise (e : exn) (w : MainWindow)
| Undefined.

Arguments Ok {A} a w.
Arguments Raise {A} e w.
Arguments Undefined {A}.

Definition M (A : Type) : Type := MainWindow -> outcome A.

Definition ret {A : Type} (a : A) : M A := fun w => Ok a w.

Definition bind {A B : Type} (m : M A) (k : A -> M B) : M B :=
  fun w =>
    match m w with
    | Ok a w' => k a w'
    | Raise e w' => Raise e w'
    | Undefined => Undefined
    end.

Definition raise {A : Type} (e : exn) : M A := fun w => Raise e w.

Definition get : M MainWindow := fun w => Ok w w.

Definition modify (f : MainWindow -> MainWindow) : M unit := fun w => Ok tt (f w).

Declare Scope py_scope.
Delimit Scope py_scope with py.
Notation "x <- m ;; k" := (bind m (fun x => k))
  (at level 100, m at next level, right associativity) : py_scope.
Notation "m ;; k" := (bind m (fun _ => k))
  (at level 100, right associativity) : py_scope.
Local Open Scope py_scope.

(** [for v in l: body(v)] over a list that the body does not change. *)
Fixpoint for_each {A : Type} (l : list A) (body : A -> M unit) : M unit :=
  match l with
  | [] => ret tt
  | v :: l' => body v ;; for_each l' body
  end.

(** [l[i]] for a non-negative [i]: [IndexError] out of range. *)
Definition index {A : Type} (l : list A) (i : nat) : M A :=
  match l !! i with
  | Some v => ret v
  | None => raise IndexError
  end.

(** The shape object at an address. *)
Definition shape_at (a : nat) : M Shape :=
  fun w =>
    match heap w !! a with
    | Some s => Ok s w
    | None => Undefined
    end.

(** [shape.points[i]] of the shape at [a]. *)
Definition point_at (a i : nat) : M QPointF.t :=
  s <- shape_at a ;; index (points s) i.

(** [shape.points[i] = q], and the in-place setters [shape.points[i].setX(v)],
    [shape.points[i].setY(v)], on the shape at [a].  A point object belongs
    to one shape only, so replacing it and changing it in place are the same
    update of the store. *)
Definition set_point (a i : nat) (q : QPointF.t) : M unit :=
  s <- shape_at a ;;
  _ <- index (points s) i ;;
  modify (fun w => with_heap (<[a := set_points s (<[i := q]> (points s))]> (heap w)) w).

Definition point_setX (a i : nat) (v : R) : M unit :=
  p <- point_at a i ;; set_point a i (QPointF.setX p v).

Definition point_setY (a i : nat) (v : R) : M unit :=
  p <- point_at a i ;; set_point a i (QPointF.setY p v).

(** Modelled from the spec: [Shape.copy] belongs to [labelpc.shape], which
    [app.py] only imports.  The specification has a split yield two
    independent racks, so [shape.copy()] is a new object with the same field
    values and its own points. *)
Definition copy (a : nat) : M nat :=
  s <- shape_at a ;;
  w <- get ;;
  modify (with_heap (heap w ++ [s])) ;;
  ret (length (heap w)).

(** A reference to a [QPointF] object: one that no shape holds (for
    instance [self.canvas.prevPoint]), or the object [points[i]] of the
    shape at address [a]. *)
Inductive QPointRef : Type :=
| Free (p : QPointF.t)
| Held (a i : nat).

Definition deref (r : QPointRef) : M QPointF.t :=
  match r with
  | Free p => ret p
  | Held a i => point_at a i
  end.

(** ** Slice paging (app.py, 1487-1496 and 1758-1764) *)

(** [updatePixmap]. [not self.imageData] holds for [None] and for the empty
    list.  [self.canvas.loadShapes(self.labelList.shapes)] makes the canvas
    show the shapes of the label list. *)
Definition updatePixmap (self : MainWindow) : MainWindow :=
  match imageData self with
  | None | Some [] => self
  | Some imgs =>
      let n := Z.of_nat (length imgs) in
      let self := if (sliceIdx self >=? n)%Z then with_sliceIdx 0%Z self else self in
      let self := if (sliceIdx self <? 0)%Z then with_sliceIdx (n - 1)%Z self else self in
      let self := with_image (imgs !! Z.to_nat (sliceIdx self)) self in
      with_canvas_shapes (itemsToShapes self) self
  end.

Definition showNextSlice (self : MainWindow) : MainWindow :=
  updatePixmap (with_sliceIdx (sliceIdx self + 1)%Z self).

Definition showLastSlice (self : MainWindow) : MainWindow :=
  updatePixmap (with_sliceIdx (sliceIdx self - 1)%Z self).

(** [addLabel(shape)], without the widget bookkeeping: the shape joins
    [self.labelList.itemsToShapes] at the end. *)
Definition addLabel (a : nat) : M unit :=
  modify (fun w => with_itemsToShapes (itemsToShapes w ++ [a]) w).

(** ** Two-rack detection and split (app.py, 1676-1689) *)

(** [self._config[type]]: [KeyError] when the kind has no configured size. *)
Definition config (type : string) : M R :=
  fun w =>
    match _config w type with
    | Some c => Ok c w
    | None => Raise KeyError w
    end.

(** [np.abs(bounds[1] - bounds[0])]. *)
Definition box_dims (bounds : Box) : Point2 :=
  (Rabs (fst (snd bounds) - fst (fst bounds)), Rabs (snd (snd bounds) - snd (fst bounds))).

(** [isTwoRacks]: [(dims / 1.9 > self._config[type]).all()]. *)
Definition isTwoRacks (type : string) (bounds : Box) : M bool :=
  let dims := box_dims bounds in
  c <- config type ;;
  ret (Rltb c (fst dims / 1.9) && Rltb c (snd dims / 1.9)).

(** [splitTwoRacks].  [bounds] is updated in place and returned together with
    the updated copy [bounds2]; both are arrays local to the caller, so they
    are values here. *)
Definition splitTwoRacks (type : string) (bounds : Box) : M (Box * Box) :=
  let dims := box_dims bounds in
  let bounds2 := bounds in
  c <- config type ;;
  if Rltb (Rabs (fst dims - c * 2.0)) (Rabs (snd dims - c * 2.0)) then
    let bounds' := (fst bounds, ((fst (fst bounds) + fst (snd bounds)) / 2.0 - 0.05, snd (snd bounds))) in
    let bounds2' := (((fst (fst bounds2) + fst (snd bounds2)) / 2.0 + 0.05, snd (fst bounds2)), snd bounds2) in
    ret (bounds', bounds2')
  else
    let bounds' := (fst bounds, (fst (snd bounds), (snd (fst bounds) + snd (snd bounds)) / 2.0 - 0.05)) in
    let bounds2' := ((fst (fst bounds2), (snd (fst bounds2) + snd (snd bounds2)) / 2.0 + 0.05), snd bounds2) in
    ret (bounds', bounds2').

(** ** Rack editing (app.py, 1608-1674) *)

Section Window.

(** [Shape.containsPoint] belongs to [labelpc.shape], which [app.py] only
    imports; the containment test is a parameter of the window. *)
Variable containsPoint : Shape -> QPointF.t -> bool.

(** The shapes of [l] whose label contains ['rack'], in order. *)
Fixpoint racks_in (l : list nat) : M (list nat) :=
  match l with
  | [] => ret []
  | a :: l' =>
      s <- shape_at a ;;
      rest <- racks_in l' ;;
      ret (if str_in "rack" (label s) then a :: rest else rest)
  end.

(** The first shape of [l] that is a rack and contains [pos]
    ([for ... : if 'rack' in shape.label and shape.containsPoint(pos): ... break]). *)
Fixpoint find_rack (pos : QPointF.t) (l : list nat) : M (option nat) :=
  match l with
  | [] => ret None
  | a :: l' =>
      s <- shape_at a ;;
      if str_in "rack" (label s) && containsPoint s pos then ret (Some a)
      else find_rack pos l'
  end.

(** [splitRack(pos, rack)].  The two halves are cut in pixel coordinates:
    the setters act on the [QPointF]s of the shapes.  [self.setDirty()]
    only records that the file has unsaved changes. *)
Definition splitRack (pos : option QPointRef) (rack : option nat) : M unit :=
  w <- get ;;
  let pos := match pos with Some r => r | None => Free (prevPoint w) end in
  rack <- match rack with
          | Some r => ret (Some r)
          | None => p <- deref pos ;; find_rack p (itemsToShapes w)
          end ;;
  match rack with
  | None => ret tt
  | Some rack =>
      newRack <- copy rack ;;
      p0 <- point_at rack 0 ;;
      p1 <- point_at rack 1 ;;
      self <- get ;;
      let dims := (fst (qpointToPointcloud self p0) - fst (qpointToPointcloud self p1),
                   snd (qpointToPointcloud self p0) - snd (qpointToPointcloud self p1)) in
      (if Rltb (Rabs (snd dims)) (Rabs (fst dims)) then
         (p <- deref pos ;; point_setX rack 1 (QPointF.x p - 0.2)) ;;
         (p <- deref pos ;; point_setX newRack 0 (QPointF.x p + 0.2))
       else
         (p <- deref pos ;; point_setY rack 1 (QPointF.y p - 0.2)) ;;
         (p <- deref pos ;; point_setY newRack 0 (QPointF.y p + 0.2))) ;;
      addLabel newRack ;;
      modify updatePixmap
  end.

(** The body of the inner loop of [splitRacks] for the list entry [a]:
    [pos = shape.points[0]] is the beam's own point object, moved by
    [pos.setY(y_c)] (or [pos.setX(x_c)]) before it is handed to [splitRack]. *)
Definition splitRacks_beam (rack : nat) (x_dim y_dim x_c y_c : R) (a : nat) : M unit :=
  shape <- shape_at a ;;
  if String.eqb (label shape) "beam" then
    r0 <- point_at rack 0 ;;
    b <- point_at a 0 ;;
    r1 <- point_at rack 1 ;;
    if Rltb (QPointF.x r0) (QPointF.x b) && Rltb (QPointF.x b) (QPointF.x r1) then
      if Rltb (Rabs (y_c - QPointF.y b)) (y_dim / 2.0 + 2.0) then
        point_setY a 0 y_c ;;
        splitRack (Some (Held a 0)) (Some rack)
      else ret tt
    else if Rltb (QPointF.y r0) (QPointF.y b) && Rltb (QPointF.y b) (QPointF.y r1) then
      if Rltb (Rabs (x_c - QPointF.x b)) (x_dim / 2.0 + 2.0) then
        point_setX a 0 x_c ;;
        splitRack (Some (Held a 0)) (Some rack)
      else ret tt
    else ret tt
  else ret tt.

(** [for _, shape in self.labelList.itemsToShapes: ...] from position [i] on.
    The list grows while it is traversed ([splitRack] appends the new rack), and
    a Python list iterator visits the entries added behind it; [fuel] bounds
    the number of entries visited. *)
Fixpoint splitRacks_beams (fuel : nat) (rack : nat) (x_dim y_dim x_c y_c : R) (i : nat)
  : M unit :=
  match fuel with
  | O => fun _ => Undefined
  | S fuel' =>
      w <- get ;;
      match itemsToShapes w !! i with
      | None => ret tt
      | Some a =>
          splitRacks_beam rack x_dim y_dim x_c y_c a ;;
          splitRacks_beams fuel' rack x_dim y_dim x_c y_c (S i)
      end
  end.

(** One round of the outer loop of [splitRacks]. *)
Definition splitRacks_rack (fuel : nat) (rack : nat) : M unit :=
  p0 <- point_at rack 0 ;;
  p1 <- point_at rack 1 ;;
  let x_dim := Rabs (QPointF.x p0 - QPointF.x p1) in
  let y_dim := Rabs (QPointF.y p0 - QPointF.y p1) in
  let x_c := (QPointF.x p0 + QPointF.x p1) / 2.0 in
  let y_c := (QPointF.y p0 + QPointF.y p1) / 2.0 in
  splitRacks_beams fuel rack x_dim y_dim x_c y_c 0.

(** [splitRacks(selected)]. *)
Definition splitRacks (fuel : nat) (selected : bool) : M unit :=
  w <- get ;;
  racks <- racks_in (if selected then selectedItems w else itemsToShapes w) ;;
  for_each racks (splitRacks_rack fuel).

(** [np.min(points, axis=0)] and [np.max(points, axis=0)] of a list of
    pairs: [ValueError] on the empty list. *)
Definition np_min (pts : list Point2) : M Point2 :=
  match pts with
  | [] => raise ValueError
  | p :: ps => ret (fold_left (fun a q => (Rmin (fst a) (fst q), Rmin (snd a) (snd q))) ps p)
  end.

Definition np_max (pts : list Point2) : M Point2 :=
  match pts with
  | [] => raise ValueError
  | p :: ps => ret (fold_left (fun a q => (Rmax (fst a) (fst q), Rmax (snd a) (snd q))) ps p)
  end.

(** The world coordinates of both corners of every rack of [racks]. *)
Fixpoint rack_corners (racks : list nat) : M (list Point2) :=
  match racks with
  | [] => ret []
  | rack :: racks' =>
      p0 <- point_at rack 0 ;;
      p1 <- point_at rack 1 ;;
      self <- get ;;
      rest <- rack_corners racks' ;;
      ret (qpointToPointcloud self p0 :: qpointToPointcloud self p1 :: rest)
  end.

(** [unsplitRacks].  [removeItemWidget] takes the label widget off a list
    item; the item and its shape stay in the list (see the Todo in the
    source), so the loop over [racks[1:]] changes no modelled state. *)
Definition unsplitRacks : M unit :=
  w <- get ;;
  racks <- racks_in (selectedItems w) ;;
  points <- rack_corners racks ;;
  lo <- np_min points ;;
  r0 <- index racks 0 ;;
  self <- get ;;
  set_point r0 0 (pointcloudToQpoint self lo) ;;
  hi <- np_max points ;;
  r0 <- index racks 0 ;;
  self <- get ;;
  set_point r0 1 (pointcloudToQpoint self hi) ;;
  modify updatePixmap.

(** ** Rotation of the annotation (app.py, 1721-1729) *)

(** [np.dot(v, m)] of a length-2 vector and a 2x2 matrix: the row vector
    [v] times [m]. *)
Definition np_dot (v : Point2) (m : Point2 * Point2) : Point2 :=
  (fst v * fst (fst m) + snd v * fst (snd m),
   fst v * snd (fst m) + snd v * snd (snd m)).

(** [np.radians]. *)
Definition radians (angle : R) : R := angle * PI / 180.

(** The matrix [rot] that [rotateShapes] builds. *)
Definition rot_matrix (angle : R) : Point2 * Point2 :=
  let theta := radians angle in
  let c := cos theta in
  let s := sin theta in
  ((c, - s), (s, c)).

(** What one vertex becomes: to world coordinates, times [rot], back to
    pixel coordinates. *)
Definition rotate_vertex (self : MainWindow) (rot : Point2 * Point2) (point : QPointF.t)
  : QPointF.t :=
  let trans := qpointToPointcloud self point in
  let trans := np_dot trans rot in
  pointcloudToQpoint self trans.

(** [rotateShapes(angle)]: every point of every shape of the canvas is
    replaced in place. *)
Definition rotateShapes (angle : R) : M unit :=
  let rot := rot_matrix angle in
  w <- get ;;
  for_each (canvas_shapes w) (fun a =>
    shape <- shape_at a ;;
    modify (fun self =>
      with_heap (<[a := set_points shape (map (rotate_vertex self rot) (points shape))]> (heap self)) self)).

(** ** New shapes (app.py, 1297-1351 and 1587-1602) *)

(** The world positions of the first point of every ['beam'] of [l]. *)
Fixpoint beam_positions (l : list nat) : M (list Point2) :=
  match l with
  | [] => ret []
  | a :: l' =>
      s <- shape_at a ;;
      if String.eqb (label s) "beam" then
        p <- index (points s) 0 ;;
        self <- get ;;
        rest <- beam_positions l' ;;
        ret (qpointToPointcloud self p :: rest)
      else beam_positions l'
  end.

(** [nearestCrosshairIntersection(point, threshold)]. *)
Definition nearestCrosshairIntersection (point : QPointF.t) (threshold : R)
  : M (Point2 * bool) :=
  w <- get ;;
  beams <- beam_positions (itemsToShapes w) ;;
  self <- get ;;
  let pxy := qpointToPointcloud self point in
  ret (fold_left
         (fun (acc : Point2 * bool) (b : Point2) =>
            let acc := if Rltb (Rabs (fst b - fst pxy)) threshold
                       then ((fst b, snd (fst acc)), true) else acc in
            if Rltb (Rabs (snd b - snd pxy)) threshold
            then ((fst (fst acc), snd b), true) else acc)
         beams (pxy, false)).

(** [np.sum(mask)] of a boolean mask. *)
Definition np_sum (mask : list bool) : nat := length (List.filter (fun b => b) mask).

(** Modelled from the spec: [Canvas.setLastLabel] belongs to
    [labelpc.widgets], which [app.py] only imports, and the specification
    leaves the canvas to the presentation layer.
    [self.canvas.setLastLabel(text, flags)] is taken to label the shape the
    user has just drawn, the last one of the canvas, and to return it. *)
Definition setLastLabel (text : string) (fl : list (string * bool)) : M nat :=
  w <- get ;;
  match last (canvas_shapes w) with
  | None => raise IndexError
  | Some a =>
      s <- shape_at a ;;
      modify (fun w => with_heap (<[a := set_label s text fl]> (heap w)) w) ;;
      ret a
  end.

(** The snapping of a new shape by its label.  The result tells whether
    [newShape] goes on to [addLabel]: [false] is the early [return] of the
    rack branch.  Calls to the 3D viewer change no modelled state. *)
Definition snap_new_shape (text : string) (shape : nat) : M bool :=
  (if String.eqb text "beam" then
     p <- point_at shape 0 ;;
     hit <- nearestCrosshairIntersection p 0.3 ;;
     if snd hit then
       self <- get ;;
       set_point shape 0 (pointcloudToQpoint self (fst hit))
     else
       p <- point_at shape 0 ;;
       self <- get ;;
       let transformed := qpointToPointcloud self p in
       let snapped := snap_to_center (pointcloud self) transformed 0.5 in
       set_point shape 0 (pointcloudToQpoint self snapped)
   else ret tt) ;;
  if String.eqb text "pole" then
    p <- point_at shape 0 ;;
    self <- get ;;
    let transformed := qpointToPointcloud self p in
    let snapped := snap_to_center (pointcloud self) transformed 0.5 in
    set_point shape 0 (pointcloudToQpoint self snapped) ;;
    ret true
  else if String.eqb text "wall" || String.eqb text "walls" then
    s <- shape_at shape ;;
    modify (fun self =>
      with_heap (<[shape := set_points s
                    (map (fun p => pointcloudToQpoint self
                                     (snap_to_corner (pointcloud self) (qpointToPointcloud self p) 0.5))
                         (points s))]> (heap self)) self) ;;
    ret true
  else if str_in "rack" text then
    p0 <- point_at shape 0 ;;
    p1 <- point_at shape 1 ;;
    self <- get ;;
    let pc := pointcloud self in
    let box := (qpointToPointcloud self p0, qpointToPointcloud self p1) in
    let inbox := in_box_2d pc box in
    if Nat.eqb (np_sum inbox) 0 then ret false
    else
      let box := tighten_to_rack pc box in
      two <- isTwoRacks text box ;;
      box <- (if two then
                bb <- splitTwoRacks text box ;;
                let box := tighten_to_rack pc (fst bb) in
                let box2 := tighten_to_rack pc (snd bb) in
                shape2 <- copy shape ;;
                set_point shape2 0 (pointcloudToQpoint self (fst box2)) ;;
                set_point shape2 1 (pointcloudToQpoint self (snd box2)) ;;
                addLabel shape2 ;;
                ret box
              else ret box) ;;
      set_point shape 0 (pointcloudToQpoint self (fst box)) ;;
      set_point shape 1 (pointcloudToQpoint self (snd box)) ;;
      ret true
  else ret true.

(** [newShape], from the point where the label dialog has answered with
    [text], [flags] and [group_id] ([text] is empty when the dialog was
    cancelled or the label refused).  [Canvas.undoLastLine], not part of
    [app.py], is taken to remove the unlabelled shape from the canvas. *)
Definition newShape (text : string) (fl : list (string * bool)) (gid : option Z) : M unit :=
  if String.eqb text "" then
    modify (fun w => with_canvas_shapes (removelast (canvas_shapes w)) w)
  else
    modify (with_selectedItems []) ;;
    shape <- setLastLabel text fl ;;
    s <- shape_at shape ;;
    modify (fun w => with_heap (<[shape := set_group_id s gid]> (heap w)) w) ;;
    go_on <- snap_new_shape text shape ;;
    if go_on then
      addLabel shape ;;
      modify updatePixmap
    else ret tt.

End Window.

(** ** Aligning the room (app.py, 1691-1719) *)

Section AlignRoom.

(** What [alignRoom] calls outside [app.py]: the estimator
    [align_room_by_walls_polygon] of [labelpc.pointcloud.Proprietary]; the
    rotation and rewriting of the point cloud ([self.pointcloud.rotate],
    [self.pointcloud.write]); and [self.saveFile()] followed by
    [self.loadFile(self.filename)]. *)
Variable align_room_by_walls_polygon : list (R * R) -> R.
Variable rotate_and_write : R -> M unit.
Variable save_and_reload : M unit.

(** The loop of [alignRoom] over [self.labelList.shapes]: the angle of the
    first shape with [s.label[:4] == 'walls'] and the shape type
    ['polygon'], [None] when the loop ends without a [break]. *)
Fixpoint walls_angle (l : list nat) : M (option R) :=
  match l with
  | [] => ret None
  | a :: l' =>
      s <- shape_at a ;;
      if String.eqb (substring 0 4 (label s)) "walls" && String.eqb (shape_type s) "polygon"
      then ret (Some (- align_room_by_walls_polygon
                          (map (fun p => (QPointF.x p, QPointF.y p)) (points s))))
      else walls_angle l'
  end.

(** [alignRoom].  [dirty] is [self.dirty] and [apply] tells whether the
    user answered the question with Apply.  The result is the returned
    value: [Some true] for [True], [None] for [None]. *)
Definition alignRoom (dirty apply : bool) : M (option bool) :=
  if negb dirty then ret (Some true)
  else if negb apply then ret None
  else
    w <- get ;;
    angle <- walls_angle (itemsToShapes w) ;;
    match angle with
    | None => ret None
    | Some angle =>
        rotate_and_write angle ;;
        rotateShapes angle ;;
        save_and_reload ;;
        ret None
    end.

End AlignRoom.

(** ** Saving and loading the annotation (app.py, 1131-1167 and 1177-1190) *)

(** The dictionary that [format_shape] builds for a shape, and that
    [loadLabels] reads back: points are in world coordinates. *)
Record ShapeDict : Type := mkShapeDict {
  d_label : string;
  d_points : list Point2;
  d_group_id : option Z;
  d_shape_type : string;
  d_flags : list (string * bool)
}.

(** [format_shape(s)] of [saveLabels]. *)
Definition format_shape (self : MainWindow) (s : Shape) : ShapeDict :=
  mkShapeDict (label s) (map (qpointToPointcloud self) (points s))
    (group_id s) (shape_type s) (flags s).

(** [[format_shape(shape) for shape in self.labelList.shapes]]: what
    [saveLabels] hands to the label file. *)
Fixpoint saved_shapes (l : list nat) : M (list ShapeDict) :=
  match l with
  | [] => ret []
  | a :: l' =>
      s <- shape_at a ;;
      self <- get ;;
      rest <- saved_shapes l' ;;
      ret (format_shape self s :: rest)
  end.

(** A Python [dict] with string keys as an association list in insertion
    order: [d[k] = v] keeps the place of a key that is present and appends a
    new one; [d.update(other)] assigns the entries of [other] in order. *)
Fixpoint dict_set (k : string) (v : bool) (d : list (string * bool)) : list (string * bool) :=
  match d with
  | [] => [(k, v)]
  | (k', v') :: d' =>
      if String.eqb k' k then (k', v) :: d' else (k', v') :: dict_set k v d'
  end.

Definition dict_update (d other : list (string * bool)) : list (string * bool) :=
  fold_left (fun d kv => dict_set (fst kv) (snd kv) d) other d.

(** A new shape object in the store. *)
Definition new_shape (s : Shape) : M nat :=
  w <- get ;;
  modify (with_heap (heap w ++ [s])) ;;
  ret (length (heap w)).

(** [loadShapes(shapes, replace)].  [Canvas.loadShapes], not part of
    [app.py], is taken to replace the shapes of the canvas, or to extend
    them when [replace] is false. *)
Definition loadShapes (shapes : list nat) (replace : bool) : M unit :=
  for_each shapes addLabel ;;
  modify (with_selectedItems []) ;;
  modify (fun w => with_canvas_shapes
                     (if replace then shapes else canvas_shapes w ++ shapes) w).

Section LoadLabels.

(** [re.match(pattern, label)], and [self._config['label_flags']]: [None],
    or the keys to preset for the labels that match a pattern.
    [Shape.addPoint] belongs to [labelpc.shape], which [app.py] only
    imports: it is a parameter, the points of a shape after the call from
    those before it and the point handed over.  [Shape.close] touches none
    of the fields kept here. *)
Variable re_match : string -> string -> bool.
Variable label_flags : option (list (string * list string)).
Variable addPoint : list QPointF.t -> QPointF.t -> list QPointF.t.

(** The flags [loadLabels] presets for a label. *)
Definition default_flags (lbl : string) : list (string * bool) :=
  match label_flags with
  | None | Some [] => []
  | Some patterns =>
      fold_left
        (fun d (pk : string * list string) =>
           if re_match (fst pk) lbl
           then fold_left (fun d key => dict_set key false d) (snd pk) d
           else d)
        patterns []
  end.

(** The [Shape] that one round of the loop of [loadLabels] builds from a
    dictionary: its points are brought to pixel coordinates and added one by
    one, and the saved flags are laid over the preset ones. *)
Definition shape_of_dict (self : MainWindow) (d : ShapeDict) : Shape :=
  mkShape (d_label d)
    (fold_left addPoint (map (pointcloudToQpoint self) (d_points d)) [])
    (d_shape_type d) (d_group_id d)
    (dict_update (default_flags (d_label d)) (d_flags d)).

(** The loop of [loadLabels]: one new [Shape] for each dictionary. *)
Fixpoint load_each (shapes : list ShapeDict) : M (list nat) :=
  match shapes with
  | [] => ret []
  | d :: shapes' =>
      self <- get ;;
      a <- new_shape (shape_of_dict self d) ;;
      rest <- load_each shapes' ;;
      ret (a :: rest)
  end.

(** [loadLabels(shapes)]. *)
Definition loadLabels (shapes : list ShapeDict) : M unit :=
  s <- load_each shapes ;;
  loadShapes s true.

End LoadLabels.

(** ** Small methods (app.py, 846-851 and 954-964) *)

(** The outcome of a method that touches no window state. *)
Inductive result (A : Type) : Type :=
| Return (a : A)
| Throw (e : exn).

Arguments Return {A} a.
Arguments Throw {A} e.

(** [l.remove(x)] where [x] is in [l]: the first occurrence goes. *)
Fixpoint list_remove (x : string) (l : list string) : list string :=
  match l with
  | [] => []
  | y :: l' => if String.eqb y x then l' else y :: list_remove x l'
  end.

(** [addRecentFile(filename)] on [self.recentFiles], with [self.maxRecent].
    [l.pop()] raises [IndexError] on the empty list. *)
Definition addRecentFile (maxRecent : nat) (recentFiles : list string) (filename : string)
  : result (list string) :=
  if existsb (String.eqb filename) recentFiles then
    Return (filename :: list_remove filename recentFiles)
  else if (maxRecent <=? length recentFiles)%nat then
    match recentFiles with
    | [] => Throw IndexError
    | _ => Return (filename :: removelast recentFiles)
    end
  else Return (filename :: recentFiles).

(** [validateLabel(label)]: [validate_label] is
    [self._config['validate_label']] and [uniq] lists the labels of
    [self.uniqLabelList]. *)
Definition validateLabel (validate_label : option string) (uniq : list string)
    (lbl : string) : bool :=
  match validate_label with
  | None => true
  | Some mode =>
      existsb (fun label_i => String.eqb mode "exact" && String.eqb label_i lbl) uniq
  end.

(** ** The coordinate mapping in binary64 (app.py, 1737-1744) *)

(** The same two methods with the rounding of the program: every
    operation on floats returns the exact result rounded to the nearest
    binary64 number, [rnd].  The raster height is a Python [int], converted
    to a float where it meets one. *)
Module Binary64.

(** The unit roundoff of binary64, half the smallest positive subnormal
    number, and the largest finite number. *)
Definition u : R := / 2 ^ 53.

Definition eta : R := / 2 ^ 1075.

Definition max_float : R := (2 - / 2 ^ 52) * 2 ^ 1023.

(** What the statements use of rounding to nearest: a real number within
    the finite range is rounded with a relative error of at most [u], or,
    near zero, an absolute error of at most [eta]. *)
Definition rounds_to_nearest (rnd : R -> R) : Prop :=
  forall x : R, Rabs x <= max_float -> Rabs (rnd x - x) <= u * Rabs x + eta.

Section Rounded.

Variable rnd : R -> R.

Definition qpointToPointcloud (self : MainWindow) (p : QPointF.t) : Point2 :=
  let height := rnd (IZR (pixmap_height self)) in
  (rnd (rnd (QPointF.x p * scale self) + QPointF.x (offset self)),
   rnd (rnd (rnd (height - QPointF.y p) * scale self) + QPointF.y (offset self))).

Definition pointcloudToQpoint (self : MainWindow) (p : Point2) : QPointF.t :=
  let height := rnd (IZR (pixmap_height self)) in
  let x := rnd (rnd (fst p - QPointF.x (offset self)) / scale self) in
  let y := rnd (height - rnd (rnd (snd p - QPointF.y (offset self)) / scale self)) in
  QPointF.mk x y.

End Rounded.

End Binary64.

(** The two methods on binary64 numbers themselves, for concrete runs.
    [Geometry] holds what they read of the window: [self.scale],
    [self.offset] and the raster height as a float. *)
Module Float64.

Import PrimFloat.

Record Geometry : Type := mkGeometry {
  scale : float;
  offset_x : float;
  offset_y : float;
  pixmap_height : float
}.

Definition qpointToPointcloud (self : Geometry) (p : float * float) : float * float :=
  ((fst p * scale self + offset_x self)%float,
   ((pixmap_height self - snd p) * scale self + offset_y self)%float).

Definition pointcloudToQpoint (self : Geometry) (p : float * float) : float * float :=
  (((fst p - offset_x self) / scale self)%float,
   (pixmap_height self - (snd p - offset_y self) / scale self)%float).

(** A raster of height 480 with cell size 0.05 and origin (0.1, 0.1), a
    world point far from the origin, and the tolerance of the round trip.
    A decimal literal stands for the nearest binary64 number, as in
    Python. *)
#[local] Set Warnings "-inexact-float".

Definition raster_480 : Geometry := mkGeometry 0.05%float 0.1%float 0.1%float 480%float.

Definition far_point : float * float := (123456789012.3%float, 4%float).

Definition tolerance : float := 0.000001%float.

End Float64.

(** ** Vocabulary of the statements *)

(** [a <= b] on numbers, as a boolean. *)
Definition Rleb (a b : R) : bool := if Rle_dec a b then true else false.

(** The rotation as the specification words it: [(x, y)] goes to
    [(x cos t - y sin t, x sin t + y cos t)], counter-clockwise for a
    positive angle. *)
Definition spec_rotation (angle : R) (v : Point2) : Point2 :=
  let theta := radians angle in
  (fst v * cos theta - snd v * sin theta, fst v * sin theta + snd v * cos theta).

(** What the code computes for a world point: the row vector times [rot]. *)
Definition code_rotation (angle : R) (v : Point2) : Point2 :=
  let theta := radians angle in
  (fst v * cos theta + snd v * sin theta, - (fst v * sin theta) + snd v * cos theta).

(** A shape of the store that is not a rack, and one that is not a beam. *)
Definition not_a_rack (w : MainWindow) (a : nat) : Prop :=
  exists s, heap w !! a = Some s /\ str_in "rack" (label s) = false.

Definition not_a_beam (w : MainWindow) (a : nat) : Prop :=
  exists s, heap w !! a = Some s /\ label s <> "beam"%string.

(** The shape at [a] is not a rack that contains [pos]. *)
Definition no_rack_contains (containsPoint : Shape -> QPointF.t -> bool) (w : MainWindow)
    (pos : QPointF.t) (a : nat) : Prop :=
  exists s, heap w !! a = Some s /\ str_in "rack" (label s) && containsPoint s pos = false.

(** The object a reference designates in a state. *)
Definition points_to (w : MainWindow) (pos : QPointRef) (p : QPointF.t) : Prop :=
  match pos with
  | Free q => q = p
  | Held a i => exists s, heap w !! a = Some s /\ points s !! i = Some p
  end.

(** The reference is not into the shape at [r]. *)
Definition ref_avoids (pos : QPointRef) (r : nat) : Prop :=
  match pos with
  | Free _ => True
  | Held a _ => a <> r
  end.

(** The test that picks the cut axis of [splitRack]: the world extent of the
    rack along x is greater than its extent along y. *)
Definition wider_than_tall (self : MainWindow) (p0 p1 : QPointF.t) : bool :=
  Rltb (Rabs (snd (qpointToPointcloud self p0) - snd (qpointToPointcloud self p1)))
       (Rabs (fst (qpointToPointcloud self p0) - fst (qpointToPointcloud self p1))).

(** The moved corners of the two halves, for a cut at [pos]. *)
Definition first_half_end (wide : bool) (pos p1 : QPointF.t) : QPointF.t :=
  if wide then QPointF.setX p1 (QPointF.x pos - 0.2)
  else QPointF.setY p1 (QPointF.y pos - 0.2).

Definition second_half_start (wide : bool) (pos p0 : QPointF.t) : QPointF.t :=
  if wide then QPointF.setX p0 (QPointF.x pos + 0.2)
  else QPointF.setY p0 (QPointF.y pos + 0.2).

(** The state after [splitRack] has cut the rack [rk] at address [rack] at
    the position [p]. *)
Definition split_state (w : MainWindow) (rack : nat) (rk : Shape) (r0 r1 : QPointF.t)
    (rs : list QPointF.t) (p : QPointF.t) : MainWindow :=
  let wide := wider_than_tall w r0 r1 in
  updatePixmap
    (with_itemsToShapes (itemsToShapes w ++ [length (heap w)])
       (with_heap
          (<[rack := set_points rk (r0 :: first_half_end wide p r1 :: rs)]> (heap w)
           ++ [set_points rk (second_half_start wide p r0 :: r1 :: rs)])
          w)).

(** The state after the beam [bm] at address [a] has had its first point
    replaced by [b']. *)
Definition beam_moved (w : MainWindow) (a : nat) (bm : Shape) (b' : QPointF.t)
    (bs : list QPointF.t) : MainWindow :=
  with_heap (<[a := set_points bm (b' :: bs)]> (heap w)) w.

(** The two halves of the test of [splitRacks] on a rack with the corners
    [r0], [r1] and a beam at [b]: the beam lies within the span of the rack
    on one axis, and within half the span plus 2.0 of the centre line on the
    other. *)
Definition within_x (r0 r1 b : QPointF.t) : bool :=
  Rltb (QPointF.x r0) (QPointF.x b) && Rltb (QPointF.x b) (QPointF.x r1).

Definition within_y (r0 r1 b : QPointF.t) : bool :=
  Rltb (QPointF.y r0) (QPointF.y b) && Rltb (QPointF.y b) (QPointF.y r1).

Definition near_line (c v dim : R) : bool :=
  Rltb (Rabs (c - v)) (dim / 2.0 + 2.0).

(** The drawn shape [s] once [newShape] has given it its label, flags and
    group id, and the window at that point, the selection cleared. *)
Definition labelled (text : string) (fl : list (string * bool)) (gid : option Z)
    (s : Shape) : Shape :=
  set_group_id (set_label s text fl) gid.

Definition after_label (text : string) (fl : list (string * bool)) (gid : option Z)
    (a : nat) (s : Shape) (self : MainWindow) : MainWindow :=
  with_heap (<[a := labelled text fl gid s]> (heap self)) (with_selectedItems [] self).

(** A pixel point snapped through the point cloud: to world coordinates,
    [snap_to_center] (or [snap_to_corner]) with radius 0.5, back to pixel
    coordinates. *)
Definition center_snapped (self : MainWindow) (p : QPointF.t) : QPointF.t :=
  pointcloudToQpoint self
    (snap_to_center (pointcloud self) (qpointToPointcloud self p) 0.5).

Definition corner_snapped (self : MainWindow) (p : QPointF.t) : QPointF.t :=
  pointcloudToQpoint self
    (snap_to_corner (pointcloud self) (qpointToPointcloud self p) 0.5).

(** The state in which [newShape] ends once the drawn shape [a] has been
    snapped in the state [w]: the shape joins the label list and the canvas
    is refreshed. *)
Definition shape_listed (a : nat) (w : MainWindow) : MainWindow :=
  updatePixmap (with_itemsToShapes (itemsToShapes w ++ [a]) w).

(** The loop of [nearestCrosshairIntersection] over the world positions
    [beams] of the listed beams, started at the world position [pxy] of the
    point. *)
Definition crosshair_of (pxy : Point2) (thr : R) (beams : list Point2) (acc : Point2 * bool)
  : Point2 * bool :=
  fold_left
    (fun (acc : Point2 * bool) (b : Point2) =>
       let acc := if Rltb (Rabs (fst b - fst pxy)) thr
                  then ((fst b, snd (fst acc)), true) else acc in
       if Rltb (Rabs (snd b - snd pxy)) thr
       then ((fst (fst acc), snd b), true) else acc)
    beams acc.

(** The shape at [a] has at least two points, and [c] is the world
    position of one of the first two points of a shape of [racks]. *)
Definition has_two_corners (w : MainWindow) (a : nat) : Prop :=
  exists s p0 p1 rest, heap w !! a = Some s /\ points s = p0 :: p1 :: rest.

Definition rack_corner (w : MainWindow) (racks : list nat) (c : Point2) : Prop :=
  exists a s p0 p1 rest,
    a ∈ racks /\ heap w !! a = Some s /\ points s = p0 :: p1 :: rest /\
    (c = qpointToPointcloud w p0 \/ c = qpointToPointcloud w p1).

(** The world point [v] lies in the closed box from [lo] to [hi]. *)
Definition in_world_box (lo hi v : Point2) : Prop :=
  fst lo <= fst v <= fst hi /\ snd lo <= snd v <= snd hi.

(** The shape at [a] has its first corner right of (or level with) and
    below (or level with) its second corner on the screen: a rectangle drawn
    towards the upper left. *)
Definition reversed_rack (w : MainWindow) (a : nat) : Prop :=
  exists s p0 p1 rest,
    heap w !! a = Some s /\ points s = p0 :: p1 :: rest /\
    QPointF.x p1 <= QPointF.x p0 /\ QPointF.y p1 <= QPointF.y p0.

(** The shape at [a] exists and, when it is a beam, has a point. *)
Definition beam_has_point (w : MainWindow) (a : nat) : Prop :=
  exists s, heap w !! a = Some s /\ (label s = "beam"%string -> points s <> []).

(** [d.get(k)] on a dictionary kept as an association list. *)
Fixpoint dict_get (k : string) (d : list (string * bool)) : option bool :=
  match d with
  | [] => None
  | (k', v) :: d' => if String.eqb k' k then Some v else dict_get k d'
  end.

(** A shape saved from the window [self] and loaded into the window [w]:
    every point has been taken to world coordinates by [self] and back to
    pixel coordinates by [w]; the other fields are as they were. *)
Definition reloaded (self w : MainWindow) (s : Shape) : Shape :=
  set_points s (map (fun p => pointcloudToQpoint w (qpointToPointcloud self p)) (points s)).

(** [c] is the world position of the first point of a ['beam'] of the
    list [l]. *)
Definition listed_beam (w : MainWindow) (l : list nat) (c : Point2) : Prop :=
  exists a s q qs,
    a ∈ l /\ heap w !! a = Some s /\ label s = "beam"%string /\
    points s = q :: qs /\ c = qpointToPointcloud w q.

(** The world point [c] is within [thr] of [pxy] on the x axis, on the
    y axis. *)
Definition close_x (thr : R) (pxy c : Point2) : Prop := Rabs (fst c - fst pxy) < thr.

Definition close_y (thr : R) (pxy c : Point2) : Prop := Rabs (snd c - snd pxy) < thr.

(** The proximity test of [splitRacks] for a rack with the corners [r0],
    [r1] and a beam at [q], given the span and the centre lines of the rack;
    and the same test with the span and the centre lines computed from
    those corners, as they are when the round of the rack begins. *)
Definition proximity_test (x_dim y_dim x_c y_c : R) (r0 r1 q : QPointF.t) : bool :=
  if within_x r0 r1 q then near_line y_c (QPointF.y q) y_dim
  else within_y r0 r1 q && near_line x_c (QPointF.x q) x_dim.

Definition rack_takes_beam (r0 r1 q : QPointF.t) : bool :=
  let x_dim := Rabs (QPointF.x r0 - QPointF.x r1) in
  let y_dim := Rabs (QPointF.y r0 - QPointF.y r1) in
  let x_c := (QPointF.x r0 + QPointF.x r1) / 2.0 in
  let y_c := (QPointF.y r0 + QPointF.y r1) / 2.0 in
  proximity_test x_dim y_dim x_c y_c r0 r1 q.

(** The address [a] holds a shape, and that shape is a ['beam']. *)
Definition stored (w : MainWindow) (a : nat) : Prop := is_Some (heap w !! a).

Definition is_beam (w : MainWindow) (a : nat) : bool :=
  match heap w !! a with
  | Some s => String.eqb (label s) "beam"
  | None => false
  end.

(** The beams of the list [l], in the order of the list. *)
Fixpoint beams_of (w : MainWindow) (l : list nat) : list nat :=
  match l with
  | [] => []
  | a :: l' => if is_beam w a then a :: beams_of w l' else beams_of w l'
  end.

(** The shape at [b] has the first point [q]. *)
Definition has_first_point (w : MainWindow) (b : nat) (q : QPointF.t) : Prop :=
  exists bm qs, heap w !! b = Some bm /\ points bm = q :: qs.

(** From [w] to [w'] the shape at [b] has had its first point replaced by
    [q'], and the shape at [r] its second point by [r1']; nothing else of
    the shape has changed. *)
Definition first_point_moved (w w' : MainWindow) (b : nat) (q' : QPointF.t) : Prop :=
  exists bm, heap w !! b = Some bm /\
             heap w' !! b = Some (set_points bm (q' :: tail (points bm))).

Definition second_corner_moved (w w' : MainWindow) (r : nat) (r1' : QPointF.t) : Prop :=
  exists rk p0 p1 rs,
    heap w !! r = Some rk /\ points rk = p0 :: p1 :: rs /\
    heap w' !! r = Some (set_points rk (p0 :: r1' :: rs)).

(** One visit of the inner loop of [splitRacks].  The rack has the corners
    [r0], [r1] at the time of the visit; its span [x_dim], [y_dim] and its
    centre lines [x_c], [y_c] were computed when its round began; the beam
    stands at [q]; [wide] is the test that picks the cut axis of
    [splitRack].  The result is the second corner of the rack and the first
    point of the beam after the visit: when the test holds the beam is moved
    onto the centre line and the rack is cut at the moved point, otherwise
    both are as they were. *)
Definition beam_visit (wide : QPointF.t -> QPointF.t -> bool) (x_dim y_dim x_c y_c : R)
    (r0 r1 q : QPointF.t) : QPointF.t * QPointF.t :=
  if within_x r0 r1 q then
    if near_line y_c (QPointF.y q) y_dim then
      (first_half_end (wide r0 r1) (QPointF.setY q y_c) r1, QPointF.setY q y_c)
    else (r1, q)
  else if within_y r0 r1 q then
    if near_line x_c (QPointF.x q) x_dim then
      (first_half_end (wide r0 r1) (QPointF.setX q x_c) r1, QPointF.setX q x_c)
    else (r1, q)
  else (r1, q).

(** A round of the outer loop: the visits of the beams at [qs], in order,
    each seeing the second corner that the cuts before it have left.  The
    result is the second corner of the rack and the points of the beams at
    the end of the round. *)
Fixpoint rack_round_from (wide : QPointF.t -> QPointF.t -> bool) (x_dim y_dim x_c y_c : R)
    (r0 r1 : QPointF.t) (qs : list QPointF.t) : QPointF.t * list QPointF.t :=
  match qs with
  | [] => (r1, [])
  | q :: qs' =>
      let v := beam_visit wide x_dim y_dim x_c y_c r0 r1 q in
      let res := rack_round_from wide x_dim y_dim x_c y_c r0 (fst v) qs' in
      (fst res, snd v :: snd res)
  end.

Definition rack_round (wide : QPointF.t -> QPointF.t -> bool) (c : QPointF.t * QPointF.t)
    (qs : list QPointF.t) : QPointF.t * list QPointF.t :=
  let r0 := fst c in
  let r1 := snd c in
  rack_round_from wide (Rabs (QPointF.x r0 - QPointF.x r1)) (Rabs (QPointF.y r0 - QPointF.y r1))
    ((QPointF.x r0 + QPointF.x r1) / 2.0) ((QPointF.y r0 + QPointF.y r1) / 2.0) r0 r1 qs.

(** The rounds of the racks with the corners [cs], in order, each seeing
    the beams where the rounds before it have left them: the second corners
    of the racks and the points of the beams at the end. *)
Fixpoint rack_rounds (wide : QPointF.t -> QPointF.t -> bool)
    (cs : list (QPointF.t * QPointF.t)) (qs : list QPointF.t)
  : list QPointF.t * list QPointF.t :=
  match cs with
  | [] => ([], qs)
  | c :: cs' =>
      let res := rack_round wide c qs in
      let rest := rack_rounds wide cs' (snd res) in
      (fst res :: fst rest, snd rest)
  end.

(** The state [w'] continues [w]: the label list has grown by the new
    shapes [ext], none of them a beam, the shapes of [w] are still stored
    under their labels, and the cut axis of a box is judged as before. *)
Definition grown (w w' : MainWindow) (ext : list nat) : Prop :=
  itemsToShapes w' = itemsToShapes w ++ ext /\
  NoDup ext /\
  (forall a, a ∈ ext -> (length (heap w) <= a)%nat /\ not_a_beam w' a) /\
  (forall a s, heap w !! a = Some s -> exists s', heap w' !! a = Some s' /\ label s' = label s) /\
  (forall p0 p1, wider_than_tall w' p0 p1 = wider_than_tall w p0 p1).

(** The shape at [r] has the corners [c]. *)
Definition has_corners (w : MainWindow) (r : nat) (c : QPointF.t * QPointF.t) : Prop :=
  exists rk rs, heap w !! r = Some rk /\ points rk = fst c :: snd c :: rs.

(** ** Example states *)

(** A point cloud that holds no point: snapping finds no neighbour and
    gives its argument back, no box contains a point, tightening leaves a
    box as it is, and no viewer is attached. *)
Definition empty_cloud : PointCloud :=
  mkPointCloud (fun p _ => p) (fun p _ => p) (fun _ => []) (fun b => b) false.

(** A cloud of four points that all lie away from the raster. *)
Definition cloud_elsewhere : PointCloud :=
  mkPointCloud (fun p _ => p) (fun p _ => p) (fun _ => [false; false; false; false])
    (fun b => b) false.

(** The configuration: the canonical size 5.0 for ['select_rack']. *)
Definition config5 (type : string) : option R :=
  if String.eqb type "select_rack" then Some 5.0 else None.

(** A containment test for rectangles: the point lies in the closed box
    spanned by the first two points of the shape. *)
Definition box_contains (s : Shape) (p : QPointF.t) : bool :=
  match points s with
  | p0 :: p1 :: _ =>
      Rleb (Rmin (QPointF.x p0) (QPointF.x p1)) (QPointF.x p) &&
      Rleb (QPointF.x p) (Rmax (QPointF.x p0) (QPointF.x p1)) &&
      Rleb (Rmin (QPointF.y p0) (QPointF.y p1)) (QPointF.y p) &&
      Rleb (QPointF.y p) (Rmax (QPointF.y p0) (QPointF.y p1))
  | _ => false
  end.

(** A beam and a rack, by their pixel coordinates. *)
Definition beam_shape (px py : R) : Shape :=
  mkShape "beam" [QPointF.mk px py] "point" None [].

Definition rack_shape (x0 y0 x1 y1 : R) : Shape :=
  mkShape "select_rack" [QPointF.mk x0 y0; QPointF.mk x1 y1] "rectangle" None [].

(** A window with cell size [sc], origin (0, 0) and a raster of height [h]:
    without any shape, and with the shapes [shapes], all of them in the label
    list and on the canvas, those of [sel] selected. *)
Definition blank_window (sc : R) (h : Z) : MainWindow :=
  mkMainWindow sc (QPointF.mk 0 0) h (QPointF.mk 0 0) [] [] [] [] 0%Z None None
    config5 empty_cloud.

Definition window_of (sc : R) (h : Z) (shapes : list Shape) (sel : list nat) : MainWindow :=
  mkMainWindow sc (QPointF.mk 0 0) h (QPointF.mk 0 0) shapes
    (seq 0 (length shapes)) sel (seq 0 (length shapes)) 0%Z None None
    config5 empty_cloud.

(** Three slices, the last one shown. *)
Definition three_slices : MainWindow :=
  mkMainWindow 1 (QPointF.mk 0 0) 0 (QPointF.mk 0 0) [] [] [] [] 2%Z
    (Some [[]; []; []]) None config5 empty_cloud.

(** A raster of height 10 with cell size 1 showing one beam at the world
    point (1, 1), which is selected in the label list. *)
Definition one_beam_selected : MainWindow :=
  window_of 1 10 [beam_shape 1 9] [0%nat].

(** A raster of height 0 with cell size 1, where pixel (x, y) is the world
    point (x, -y), showing one wall polygon with the single vertex (1, 0). *)
Definition one_vertex : MainWindow :=
  window_of 1 0 [mkShape "walls" [QPointF.mk 1 0] "polygon" None []] [].

(** The rack of the specification's scenario, spanning the world box
    (0,0)-(10,5): on a raster of height 5 with cell size 1, and on a raster
    of height 10 with cell size 0.5. *)
Definition rack_unit_cells : MainWindow :=
  window_of 1 5 [rack_shape 0 5 10 0] [].

Definition rack_half_cells : MainWindow :=
  window_of 0.5 10 [rack_shape 0 10 20 0] [].

(** A raster of height 10 with cell size 1: the label list holds a beam at
    the world point (1, 1), and the user has just drawn a point at the world
    point (1.1, 5), on the canvas but not yet labelled. *)
Definition beam_drawn_near_beam : MainWindow :=
  mkMainWindow 1 (QPointF.mk 0 0) 10 (QPointF.mk 0 0)
    [beam_shape 1 9; mkShape "" [QPointF.mk 1.1 5] "point" None []]
    [0%nat] [] [0%nat; 1%nat] 0%Z None None config5 empty_cloud.

(** The same raster with an empty label list and a rectangle just drawn
    over the world box (0,0)-(10,5), on a cloud whose points all lie
    elsewhere. *)
Definition rack_drawn : MainWindow :=
  mkMainWindow 1 (QPointF.mk 0 0) 10 (QPointF.mk 0 0)
    [mkShape "" [QPointF.mk 0 10; QPointF.mk 10 5] "rectangle" None []]
    [] [] [0%nat] 0%Z None None config5 cloud_elsewhere.

(** A rack spanning the pixel box (0,0)-(10,4) with a beam at the pixel
    (5, 1), one unit off the centre line y = 2 of the rack, and a pole. *)
Definition rack_and_beam : MainWindow :=
  window_of 1 4 [rack_shape 0 0 10 4; beam_shape 5 1;
                 mkShape "pole" [QPointF.mk 7 7] "point" None []] [].

(** Two racks, spanning the world boxes (0,0)-(4,5) and (6,1)-(10,4) on a
    raster of height 5 with cell size 1, both selected. *)
Definition two_racks_selected : MainWindow :=
  window_of 1 5 [rack_shape 0 5 4 0; rack_shape 6 4 10 1] [0%nat; 1%nat].

(** The rack of [rack_and_beam] with its corners exchanged, and a beam on
    its centre line. *)
Definition reversed_rack_and_beam : MainWindow :=
  window_of 1 4 [rack_shape 10 4 0 0; beam_shape 5 2] [].

(** A cloud of one point that lies in every box, and the drawn rectangle
    of [rack_drawn] over that cloud. *)
Definition cloud_inside : PointCloud :=
  mkPointCloud (fun p _ => p) (fun p _ => p) (fun _ => [true]) (fun b => b) false.

Definition rack_drawn_on_points : MainWindow :=
  mkMainWindow 1 (QPointF.mk 0 0) 10 (QPointF.mk 0 0)
    [mkShape "" [QPointF.mk 0 10; QPointF.mk 10 5] "rectangle" None []]
    [] [] [0%nat] 0%Z None None config5 cloud_inside.

(** A rack taller than wide, spanning the world box (0,0)-(5,10) on a raster
    of height 10 with cell size 1, stored world lower corner first. *)
Definition tall_rack_unit_cells : MainWindow :=
  window_of 1 10 [rack_shape 0 10 5 0] [].

(** A rounding function within the error of rounding to nearest. *)
Definition rounding_up (x : R) : R := x * (1 + 1e-16).

(** Two racks, at the pixels (0,0)-(10,3) and (0,3.2)-(10,6.2), and a beam
    at the pixel (5, 1), within reach of both. *)
Definition two_racks_one_beam : MainWindow :=
  window_of 1 7 [rack_shape 0 0 10 3; rack_shape 0 3.2 10 6.2; beam_shape 5 1] [].

(** * Properties *)

(** ** Numeric helpers *)

Lemma Rltb_true (a b : R) : a < b -> Rltb a b = true.
Proof. intros H. unfold Rltb. destruct (Rlt_dec a b); [reflexivity | contradiction]. Qed.

Lemma Rltb_false (a b : R) : ~ a < b -> Rltb a b = false.
Proof. intros H. unfold Rltb. destruct (Rlt_dec a b); [contradiction | reflexivity]. Qed.

Lemma Rltb_lt (a b : R) : Rltb a b = true <-> a < b.
Proof. unfold Rltb. destruct (Rlt_dec a b); split; auto; discriminate. Qed.

Lemma Rltb_nlt (a b : R) : Rltb a b = false <-> ~ a < b.
Proof.
  unfold Rltb. destruct (Rlt_dec a b); split; auto; try discriminate; contradiction.
Qed.

(** Decides a comparison between closed real expressions. *)
Ltac real_cmp :=
  unfold Rabs; repeat (destruct (Rcase_abs _)); lra.

(** ['rack' in label] on the labels of the application. *)
Example str_in_labels :
  str_in "rack" "select_rack" = true /\ str_in "rack" "drive_in_rack" = true /\
  str_in "rack" "rack" = true /\ str_in "rack" "beam" = false /\
  str_in "rack" "walls" = false /\ str_in "rack" "" = false.
Proof. repeat split; reflexivity. Qed.

(** ** Coordinate mapping *)

(** In exact arithmetic the mapping is invertible: for every world point
    [p] and every window state whose cell size [scale] is not zero, mapping
    [p] to pixel coordinates with [pointcloudToQpoint]
    (pixel_x = (world_x - offset_x)/scale,
    pixel_y = raster_height - (world_y - offset_y)/scale) and back with
    [qpointToPointcloud] returns [p]. *)
Theorem roundtrip_world_pixel_world (self : MainWindow) (p : Point2) :
  scale self <> 0 ->
  pointcloudToQpoint self p =
    QPointF.mk ((fst p - QPointF.x (offset self)) / scale self)
               (IZR (pixmap_height self) - (snd p - QPointF.y (offset self)) / scale self) /\
  qpointToPointcloud self (pointcloudToQpoint self p) = p /\
  Rabs (fst (qpointToPointcloud self (pointcloudToQpoint self p)) - fst p) <= 0.000001 /\
  Rabs (snd (qpointToPointcloud self (pointcloudToQpoint self p)) - snd p) <= 0.000001.
Proof.
  intros Hs.
  assert (E : qpointToPointcloud self (pointcloudToQpoint self p) = p).
  { destruct p as [wx wy]. unfold qpointToPointcloud, pointcloudToQpoint. simpl.
    f_equal; field; exact Hs. }
  split; [reflexivity |]. split; [exact E |].
  rewrite E. replace (fst p - fst p) with 0 by ring.
  replace (snd p - snd p) with 0 by ring.
  rewrite Rabs_R0. split; lra.
Qed.

Lemma roundtrip_world_pixel_world_witness :
  scale (blank_window 0.05 480) <> 0 /\
  qpointToPointcloud (blank_window 0.05 480)
    (pointcloudToQpoint (blank_window 0.05 480) (3, 4)) = (3, 4).
Proof.
  assert (H : scale (blank_window 0.05 480) <> 0) by (simpl; lra).
  split; [exact H |].
  exact (proj1 (proj2 (roundtrip_world_pixel_world (blank_window 0.05 480) (3, 4) H))).
Defined.

(** Rounding to nearest, in the two forms the error analysis uses. *)
Lemma Rabs_bound (a b : R) : Rabs a <= b -> - b <= a <= b.
Proof. unfold Rabs. destruct (Rcase_abs a); lra. Qed.

Lemma max_float_large : 1e300 <= Binary64.max_float.
Proof. unfold Binary64.max_float. lra. Qed.

Lemma rnd_error (rnd : R -> R) (v V : R) :
  Binary64.rounds_to_nearest rnd ->
  - V <= v <= V -> 1 <= V <= 1e300 ->
  - (1.3e-16 * V) <= rnd v - v <= 1.3e-16 * V.
Proof.
  intros Hr Hv HV.
  assert (Ha : Rabs v <= V) by (apply Rabs_le; lra).
  pose proof max_float_large.
  assert (H1 : Rabs (rnd v - v) <= Binary64.u * Rabs v + Binary64.eta) by (apply Hr; lra).
  assert (Hu : Binary64.u * Rabs v <= 1.2e-16 * V).
  { pose proof (Rabs_pos v).
    assert (0 < Binary64.u <= 1.2e-16) by (unfold Binary64.u; lra).
    apply Rmult_le_compat; lra. }
  assert (He : Binary64.eta <= 1e-300) by (unfold Binary64.eta; lra).
  apply Rabs_bound in H1. lra.
Qed.

(** The same for a pixel quantity [v], measured in world units: [s] is the
    cell size. *)
Lemma rnd_error_scaled (rnd : R -> R) (v s Vs : R) :
  Binary64.rounds_to_nearest rnd ->
  1e-100 <= Rabs s <= 1e100 ->
  - Vs <= v * s <= Vs -> 1 <= Vs <= 1e190 ->
  - (1.3e-16 * Vs) <= rnd v * s - v * s <= 1.3e-16 * Vs.
Proof.
  intros Hr Hs Hv HV.
  assert (Hvs : Rabs v * Rabs s <= Vs) by (rewrite <- Rabs_mult; apply Rabs_le; lra).
  pose proof (Rabs_pos v) as Hv0. pose proof (Rabs_pos s) as Hs0.
  assert (Hva : Rabs v * 1e-100 <= Vs).
  { apply Rle_trans with (Rabs v * Rabs s); [apply Rmult_le_compat_l; lra | exact Hvs]. }
  pose proof max_float_large.
  assert (H1 : Rabs (rnd v - v) <= Binary64.u * Rabs v + Binary64.eta) by (apply Hr; lra).
  assert (Hu : 0 < Binary64.u <= 1.2e-16) by (unfold Binary64.u; lra).
  assert (He : 0 < Binary64.eta <= 1e-300) by (unfold Binary64.eta; lra).
  assert (H2 : Rabs (rnd v * s - v * s) <= 1.3e-16 * Vs).
  { replace (rnd v * s - v * s) with ((rnd v - v) * s) by ring.
    rewrite Rabs_mult.
    apply Rle_trans with ((Binary64.u * Rabs v + Binary64.eta) * Rabs s).
    - apply Rmult_le_compat_r; [exact Hs0 | exact H1].
    - replace ((Binary64.u * Rabs v + Binary64.eta) * Rabs s)
        with (Binary64.u * (Rabs v * Rabs s) + Binary64.eta * Rabs s) by ring.
      assert (Binary64.u * (Rabs v * Rabs s) <= 1.2e-16 * Vs).
      { apply Rmult_le_compat; try lra. apply Rmult_le_pos; assumption. }
      assert (Binary64.eta * Rabs s <= 1e-300 * 1e100) by (apply Rmult_le_compat; lra).
      lra. }
  apply Rabs_bound in H2. lra.
Qed.

(** The round trip of one x coordinate, operation by operation. *)
Lemma roundtrip_x_error (rnd : R -> R) (s ox x : R) :
  Binary64.rounds_to_nearest rnd ->
  1e-100 <= Rabs s <= 1e100 ->
  Rabs x <= 1e8 -> Rabs ox <= 1e8 ->
  Rabs (rnd (rnd (rnd (rnd (x - ox) / s) * s) + ox) - x) <= 1e-6.
Proof.
  intros Hr Hs Hx Hox. apply Rabs_bound in Hx, Hox.
  assert (Hs0 : s <> 0).
  { intros ->. rewrite Rabs_R0 in Hs. lra. }
  set (a := rnd (x - ox)).
  assert (Ea : - (1.3e-16 * 2e8) <= a - (x - ox) <= 1.3e-16 * 2e8).
  { apply rnd_error; [exact Hr | lra | lra]. }
  set (b := rnd (a / s)).
  assert (Eb : - (1.3e-16 * 2.1e8) <= b * s - a / s * s <= 1.3e-16 * 2.1e8).
  { apply rnd_error_scaled; [exact Hr | exact Hs | | lra].
    replace (a / s * s) with a by (field; exact Hs0). lra. }
  replace (a / s * s) with a in Eb by (field; exact Hs0).
  set (c := rnd (b * s)).
  assert (Ec : - (1.3e-16 * 2.2e8) <= c - b * s <= 1.3e-16 * 2.2e8).
  { apply rnd_error; [exact Hr | lra | lra]. }
  assert (Ed : - (1.3e-16 * 1.1e8) <= rnd (c + ox) - (c + ox) <= 1.3e-16 * 1.1e8).
  { apply rnd_error; [exact Hr | lra | lra]. }
  apply Rabs_le. lra.
Qed.

(** The round trip of one y coordinate: the raster height [h] enters twice
    and cancels up to rounding. *)
Lemma roundtrip_y_error (rnd : R -> R) (s oy y : R) (H : Z) :
  Binary64.rounds_to_nearest rnd ->
  1e-100 <= Rabs s <= 1e100 ->
  Rabs y <= 1e8 -> Rabs oy <= 1e8 ->
  (0 <= H)%Z -> IZR H * Rabs s <= 1e8 ->
  let h := rnd (IZR H) in
  Rabs (rnd (rnd (rnd (h - rnd (h - rnd (rnd (y - oy) / s))) * s) + oy) - y) <= 1e-6.
Proof.
  intros Hr Hs Hy Hoy HH HHs h. apply Rabs_bound in Hy, Hoy.
  assert (Hs0 : s <> 0).
  { intros ->. rewrite Rabs_R0 in Hs. lra. }
  assert (HH0 : 0 <= IZR H) by (apply IZR_le in HH; exact HH).
  assert (Hhs : Rabs (IZR H * s) <= 1e8).
  { rewrite Rabs_mult, (Rabs_pos_eq _ HH0). exact HHs. }
  apply Rabs_bound in Hhs.
  assert (Eh : - (1.3e-16 * 1e8) <= h * s - IZR H * s <= 1.3e-16 * 1e8).
  { apply rnd_error_scaled; [exact Hr | exact Hs | lra | lra]. }
  set (a := rnd (y - oy)).
  assert (Ea : - (1.3e-16 * 2e8) <= a - (y - oy) <= 1.3e-16 * 2e8).
  { apply rnd_error; [exact Hr | lra | lra]. }
  set (b := rnd (a / s)).
  assert (Eb : - (1.3e-16 * 2.1e8) <= b * s - a / s * s <= 1.3e-16 * 2.1e8).
  { apply rnd_error_scaled; [exact Hr | exact Hs | | lra].
    replace (a / s * s) with a by (field; exact Hs0). lra. }
  replace (a / s * s) with a in Eb by (field; exact Hs0).
  set (d := rnd (h - b)).
  assert (Ed : - (1.3e-16 * 3.3e8) <= d * s - (h - b) * s <= 1.3e-16 * 3.3e8).
  { apply rnd_error_scaled; [exact Hr | exact Hs | | lra].
    replace ((h - b) * s) with (h * s - b * s) by ring. lra. }
  set (e := rnd (h - d)).
  assert (Ee : - (1.3e-16 * 2.3e8) <= e * s - (h - d) * s <= 1.3e-16 * 2.3e8).
  { apply rnd_error_scaled; [exact Hr | exact Hs | | lra].
    replace ((h - d) * s) with (b * s - (d * s - (h - b) * s)) by ring. lra. }
  replace ((h - d) * s) with (b * s - (d * s - (h - b) * s)) in Ee by ring.
  set (f := rnd (e * s)).
  assert (Ef : - (1.3e-16 * 2.4e8) <= f - e * s <= 1.3e-16 * 2.4e8).
  { apply rnd_error; [exact Hr | lra | lra]. }
  assert (Eg : - (1.3e-16 * 1.1e8) <= rnd (f + oy) - (f + oy) <= 1.3e-16 * 1.1e8).
  { apply rnd_error; [exact Hr | lra | lra]. }
  apply Rabs_le. lra.
Qed.

(** C1: in binary64 the round trip is within the tolerance on a bounded
    domain.  With every operation rounded to nearest, for a cell size whose
    magnitude lies between 1e-100 and 1e100, world coordinates and offsets
    of magnitude at most 1e8, and a raster whose height times the cell size
    is at most 1e8, mapping a world point [p] to pixel coordinates with
    [pointcloudToQpoint] and back with [qpointToPointcloud] returns a point
    within 1e-6 of [p] on each axis. *)
Theorem roundtrip_within_tolerance (rnd : R -> R) (self : MainWindow) (p : Point2) :
  Binary64.rounds_to_nearest rnd ->
  1e-100 <= Rabs (scale self) <= 1e100 ->
  Rabs (fst p) <= 1e8 -> Rabs (snd p) <= 1e8 ->
  Rabs (QPointF.x (offset self)) <= 1e8 -> Rabs (QPointF.y (offset self)) <= 1e8 ->
  (0 <= pixmap_height self)%Z ->
  IZR (pixmap_height self) * Rabs (scale self) <= 1e8 ->
  let p' := Binary64.qpointToPointcloud rnd self (Binary64.pointcloudToQpoint rnd self p) in
  Rabs (fst p' - fst p) <= 1e-6 /\ Rabs (snd p' - snd p) <= 1e-6.
Proof.
  intros Hr Hs Hx Hy Hox Hoy HH HHs p'. unfold p'.
  unfold Binary64.qpointToPointcloud, Binary64.pointcloudToQpoint.
  cbn [fst snd QPointF.x QPointF.y]. split.
  - apply roundtrip_x_error; assumption.
  - apply (roundtrip_y_error rnd (scale self) (QPointF.y (offset self)) (snd p)
             (pixmap_height self)); assumption.
Qed.

Lemma rounding_up_rounds_to_nearest : Binary64.rounds_to_nearest rounding_up.
Proof.
  intros x _. unfold rounding_up.
  replace (x * (1 + 1e-16) - x) with (x * 1e-16) by ring.
  rewrite Rabs_mult, (Rabs_pos_eq 1e-16) by lra.
  pose proof (Rabs_pos x). unfold Binary64.u, Binary64.eta. lra.
Qed.

Lemma roundtrip_within_tolerance_witness :
  let self := blank_window 0.05 480 in
  let p' := Binary64.qpointToPointcloud rounding_up self
              (Binary64.pointcloudToQpoint rounding_up self (3, 4)) in
  Rabs (fst p' - 3) <= 1e-6 /\ Rabs (snd p' - 4) <= 1e-6.
Proof.
  intros self.
  apply (roundtrip_within_tolerance rounding_up self (3, 4) rounding_up_rounds_to_nearest);
    cbn [fst snd scale offset pixmap_height self blank_window QPointF.x QPointF.y];
    try lia; try (unfold Rabs; destruct (Rcase_abs _); lra).
Defined.

(** C1, as the specification words it, fails for world points far from the
    origin.  In binary64, with cell size 0.05 and the origin (0.1, 0.1), the
    world point with x = 123456789012.3 comes back from pixel coordinates
    more than 1e-6 away (the two values are 2^-16 apart). *)
Lemma roundtrip_exceeds_tolerance :
  let p := Float64.far_point in
  let p' := Float64.qpointToPointcloud Float64.raster_480
              (Float64.pointcloudToQpoint Float64.raster_480 p) in
  PrimFloat.ltb Float64.tolerance (PrimFloat.abs (PrimFloat.sub (fst p') (fst p))) = true.
Proof. vm_compute. reflexivity. Qed.

(** The inverse direction: pixel to world and back, again for [scale <> 0]. *)
Lemma roundtrip_pixel_world_pixel (self : MainWindow) (q : QPointF.t) :
  scale self <> 0 ->
  pointcloudToQpoint self (qpointToPointcloud self q) = q.
Proof.
  intros Hs. destruct q as [qx qy].
  unfold qpointToPointcloud, pointcloudToQpoint. simpl.
  f_equal; field; exact Hs.
Qed.

(** ** Slice paging *)

(** C8: whenever at least one raster slice exists, the slice index lies in
    [0, number of slices) after [updatePixmap], after [showNextSlice] and
    after [showLastSlice], whatever it was before; the next slice after the
    last one is slice 0 and the slice before slice 0 is the last one. *)
Theorem slice_index_in_range (self : MainWindow) (imgs : list (list Byte.byte)) :
  imageData self = Some imgs ->
  (0 < length imgs)%nat ->
  let n := Z.of_nat (length imgs) in
  (0 <= sliceIdx (updatePixmap self) < n)%Z /\
  (0 <= sliceIdx (showNextSlice self) < n)%Z /\
  (0 <= sliceIdx (showLastSlice self) < n)%Z /\
  (sliceIdx self = (n - 1)%Z -> sliceIdx (showNextSlice self) = 0%Z) /\
  (sliceIdx self = 0%Z -> sliceIdx (showLastSlice self) = (n - 1)%Z) /\
  imageData (updatePixmap self) = Some imgs.
Proof.
  intros Hd Hn n.
  assert (U : forall w, imageData w = Some imgs ->
            (0 <= sliceIdx (updatePixmap w) < n)%Z /\
            imageData (updatePixmap w) = Some imgs /\
            ((sliceIdx w >= n)%Z -> sliceIdx (updatePixmap w) = 0%Z) /\
            ((sliceIdx w < 0)%Z -> sliceIdx (updatePixmap w) = (n - 1)%Z)).
  { intros w Hw. unfold updatePixmap. rewrite Hw.
    destruct imgs as [| i0 imgs']; [simpl in Hn; lia |].
    fold n.
    destruct (Z.geb_spec (sliceIdx w) n) as [Hge | Hlt]; simpl.
    - destruct (Z.ltb_spec 0 0); [lia |]. simpl. repeat split; try lia. exact Hw.
    - destruct (Z.ltb_spec (sliceIdx w) 0) as [Hneg | Hpos]; simpl;
        repeat split; try lia; exact Hw. }
  destruct (U self Hd) as (H1 & H2 & _ & _).
  destruct (U (with_sliceIdx (sliceIdx self + 1) self) Hd) as (N1 & _ & N3 & _).
  destruct (U (with_sliceIdx (sliceIdx self - 1) self) Hd) as (L1 & _ & _ & L4).
  unfold showNextSlice, showLastSlice.
  repeat split; try tauto; try lia.
  - intros E. apply N3. simpl. lia.
  - intros E. apply L4. simpl. lia.
Qed.

Lemma slice_index_in_range_witness :
  sliceIdx (showNextSlice three_slices) = 0%Z /\
  (0 <= sliceIdx (showLastSlice three_slices) < 3)%Z.
Proof.
  assert (Hd : imageData three_slices = Some [[]; []; []]) by reflexivity.
  assert (Hn : (0 < length ([[]; []; []] : list (list Byte.byte)))%nat) by (simpl; lia).
  pose proof (slice_index_in_range three_slices _ Hd Hn) as H.
  simpl in H. destruct H as (_ & _ & H3 & H4 & _).
  split; [apply H4; reflexivity | exact H3].
Defined.

(** ** Two-rack detection and split *)

Lemma config_ok (self : MainWindow) (kind : string) (c : R) :
  _config self kind = Some c -> config kind self = Ok c self.
Proof. intros H. unfold config. rewrite H. reflexivity. Qed.

(** C4: for every rack kind with a configured canonical size [c] and every
    2-point box, [isTwoRacks] returns true exactly when the span of the box
    exceeds 1.9 times [c] on both axes; a box that exceeds the threshold on
    one axis only yields false. *)
Theorem isTwoRacks_both_axes (self : MainWindow) (kind : string) (c : R) (box : Box) :
  _config self kind = Some c ->
  let span_x := Rabs (fst (snd box) - fst (fst box)) in
  let span_y := Rabs (snd (snd box) - snd (fst box)) in
  exists b : bool,
    isTwoRacks kind box self = Ok b self /\
    (b = true <-> 1.9 * c < span_x /\ 1.9 * c < span_y) /\
    (~ 1.9 * c < span_x \/ ~ 1.9 * c < span_y -> b = false).
Proof.
  intros Hc span_x span_y.
  unfold isTwoRacks, bind. rewrite (config_ok _ _ _ Hc).
  eexists. split; [reflexivity |].
  unfold box_dims. cbn [fst snd]. fold span_x span_y.
  assert (Hx : Rltb c (span_x / 1.9) = true <-> 1.9 * c < span_x).
  { rewrite Rltb_lt. split; intros; lra. }
  assert (Hy : Rltb c (span_y / 1.9) = true <-> 1.9 * c < span_y).
  { rewrite Rltb_lt. split; intros; lra. }
  split.
  - rewrite andb_true_iff. tauto.
  - intros H. apply andb_false_iff.
    destruct H as [H | H]; [left | right]; apply not_true_is_false; tauto.
Qed.

Lemma isTwoRacks_both_axes_witness :
  exists b : bool,
    isTwoRacks "select_rack" ((-1, -1), (11, 6)) (blank_window 1 0)
      = Ok b (blank_window 1 0) /\
    b = false.
Proof.
  assert (Hc : _config (blank_window 1 0) "select_rack" = Some 5.0) by reflexivity.
  destruct (isTwoRacks_both_axes (blank_window 1 0) "select_rack" 5.0
              ((-1, -1), (11, 6)) Hc) as (b & Hrun & _ & Hone).
  exists b. split; [exact Hrun |].
  apply Hone. right. cbn [fst snd]. real_cmp.
Defined.

(** C5: for every rack kind with a configured canonical size [c] and every
    2-point box [(x0, y0), (x1, y1)], [splitTwoRacks] returns two boxes cut at
    the midpoint of one axis, an axis whose span is at least as close to
    [2 * c] as the other's: on that axis the first box ends at midpoint - 0.05
    and the second begins at midpoint + 0.05, 0.1 apart; every other
    coordinate of both boxes is the input's. *)
Theorem splitTwoRacks_cuts_at_midpoint (self : MainWindow) (kind : string) (c : R)
    (x0 y0 x1 y1 : R) :
  _config self kind = Some c ->
  let span_x := Rabs (x1 - x0) in
  let span_y := Rabs (y1 - y0) in
  exists b1 b2 : Box,
    splitTwoRacks kind ((x0, y0), (x1, y1)) self = Ok (b1, b2) self /\
    ((Rabs (span_x - 2 * c) < Rabs (span_y - 2 * c) /\
      b1 = ((x0, y0), ((x0 + x1) / 2 - 0.05, y1)) /\
      b2 = (((x0 + x1) / 2 + 0.05, y0), (x1, y1)) /\
      fst (fst b2) - fst (snd b1) = 0.1)
     \/
     (Rabs (span_y - 2 * c) <= Rabs (span_x - 2 * c) /\
      b1 = ((x0, y0), (x1, (y0 + y1) / 2 - 0.05)) /\
      b2 = ((x0, (y0 + y1) / 2 + 0.05), (x1, y1)) /\
      snd (fst b2) - snd (snd b1) = 0.1)).
Proof.
  intros Hc span_x span_y.
  unfold splitTwoRacks, bind. rewrite (config_ok _ _ _ Hc).
  unfold box_dims. cbn [fst snd]. fold span_x span_y.
  replace (c * 2.0) with (2 * c) by lra.
  destruct (Rlt_dec (Rabs (span_x - 2 * c)) (Rabs (span_y - 2 * c))) as [Hlt | Hge].
  - rewrite (Rltb_true _ _ Hlt). unfold ret.
    eexists _, _. split; [reflexivity |]. left.
    split; [exact Hlt |]. cbn [fst snd].
    repeat split; try (repeat f_equal; lra).
  - rewrite (Rltb_false _ _ Hge). unfold ret.
    eexists _, _. split; [reflexivity |]. right.
    split; [lra |]. cbn [fst snd].
    repeat split; try (repeat f_equal; lra).
Qed.

Lemma splitTwoRacks_cuts_at_midpoint_witness :
  splitTwoRacks "select_rack" ((0, 0), (10, 20)) (blank_window 1 0)
    = Ok (((0, 0), (10 / 2 - 0.05, 20)), ((10 / 2 + 0.05, 0), (10, 20))) (blank_window 1 0).
Proof.
  assert (Hc : _config (blank_window 1 0) "select_rack" = Some 5.0) by reflexivity.
  destruct (splitTwoRacks_cuts_at_midpoint (blank_window 1 0) "select_rack" 5.0
              0 0 10 20 Hc) as (b1 & b2 & Hrun & [(_ & E1 & E2 & _) | (Hcmp & _)]).
  - rewrite Hrun, E1, E2. repeat f_equal; lra.
  - exfalso. revert Hcmp. real_cmp.
Defined.

(** ** The state-and-exception monad *)

Lemma bind_ok {A B : Type} (m : M A) (k : A -> M B) (w w' : MainWindow) (a : A) :
  m w = Ok a w' -> bind m k w = k a w'.
Proof. intros H. unfold bind. rewrite H. reflexivity. Qed.

Lemma bind_raise {A B : Type} (m : M A) (k : A -> M B) (w w' : MainWindow) (e : exn) :
  m w = Raise e w' -> bind m k w = Raise e w'.
Proof. intros H. unfold bind. rewrite H. reflexivity. Qed.

Lemma shape_at_ok (w : MainWindow) (a : nat) (s : Shape) :
  heap w !! a = Some s -> shape_at a w = Ok s w.
Proof. intros H. unfold shape_at. rewrite H. reflexivity. Qed.

Lemma index_ok {A : Type} (l : list A) (i : nat) (v : A) (w : MainWindow) :
  l !! i = Some v -> index l i w = Ok v w.
Proof. intros H. unfold index. rewrite H. reflexivity. Qed.

Lemma point_at_ok (w : MainWindow) (a i : nat) (s : Shape) (p : QPointF.t) :
  heap w !! a = Some s -> points s !! i = Some p -> point_at a i w = Ok p w.
Proof.
  intros Hs Hp. unfold point_at.
  rewrite (bind_ok _ _ _ _ _ (shape_at_ok _ _ _ Hs)).
  apply index_ok, Hp.
Qed.

Lemma set_point_ok (w : MainWindow) (a i : nat) (s : Shape) (p q : QPointF.t) :
  heap w !! a = Some s -> points s !! i = Some p ->
  set_point a i q w =
    Ok tt (with_heap (<[a := set_points s (<[i := q]> (points s))]> (heap w)) w).
Proof.
  intros Hs Hp. unfold set_point.
  rewrite (bind_ok _ _ _ _ _ (shape_at_ok _ _ _ Hs)).
  rewrite (bind_ok _ _ _ _ _ (index_ok _ _ _ _ Hp)).
  reflexivity.
Qed.

Lemma point_setX_ok (w : MainWindow) (a i : nat) (s : Shape) (p : QPointF.t) (v : R) :
  heap w !! a = Some s -> points s !! i = Some p ->
  point_setX a i v w =
    Ok tt (with_heap (<[a := set_points s (<[i := QPointF.setX p v]> (points s))]> (heap w)) w).
Proof.
  intros Hs Hp. unfold point_setX.
  rewrite (bind_ok _ _ _ _ _ (point_at_ok _ _ _ _ _ Hs Hp)).
  apply (set_point_ok _ _ _ _ p); assumption.
Qed.

Lemma point_setY_ok (w : MainWindow) (a i : nat) (s : Shape) (p : QPointF.t) (v : R) :
  heap w !! a = Some s -> points s !! i = Some p ->
  point_setY a i v w =
    Ok tt (with_heap (<[a := set_points s (<[i := QPointF.setY p v]> (points s))]> (heap w)) w).
Proof.
  intros Hs Hp. unfold point_setY.
  rewrite (bind_ok _ _ _ _ _ (point_at_ok _ _ _ _ _ Hs Hp)).
  apply (set_point_ok _ _ _ _ p); assumption.
Qed.

Lemma copy_ok (w : MainWindow) (a : nat) (s : Shape) :
  heap w !! a = Some s ->
  copy a w = Ok (length (heap w)) (with_heap (heap w ++ [s]) w).
Proof.
  intros Hs. unfold copy.
  rewrite (bind_ok _ _ _ _ _ (shape_at_ok _ _ _ Hs)).
  reflexivity.
Qed.

Lemma bind_inv {A B : Type} (m : M A) (k : A -> M B) (w w'' : MainWindow) (b : B) :
  bind m k w = Ok b w'' -> exists a w', m w = Ok a w' /\ k a w' = Ok b w''.
Proof.
  unfold bind. destruct (m w) as [a w' | e w' |]; try discriminate.
  intros H. exists a, w'. split; [reflexivity | exact H].
Qed.

Lemma shape_at_inv (a : nat) (w w' : MainWindow) (s : Shape) :
  shape_at a w = Ok s w' -> w' = w /\ heap w !! a = Some s.
Proof.
  unfold shape_at. destruct (heap w !! a); [| discriminate].
  intros H. injection H as -> ->. split; reflexivity.
Qed.

Lemma index_inv {A : Type} (l : list A) (i : nat) (w w' : MainWindow) (v : A) :
  index l i w = Ok v w' -> w' = w /\ l !! i = Some v.
Proof.
  unfold index. destruct (l !! i); [| discriminate].
  intros H. injection H as -> ->. split; reflexivity.
Qed.

(** ** Merging racks *)

Lemma racks_in_no_rack (w : MainWindow) (l : list nat) :
  Forall (not_a_rack w) l -> racks_in l w = Ok [] w.
Proof.
  induction 1 as [| a l (s & Hs & Hl) _ IH]; [reflexivity |].
  simpl.
  rewrite (bind_ok _ _ _ _ _ (shape_at_ok _ _ _ Hs)).
  rewrite (bind_ok _ _ _ _ _ IH).
  rewrite Hl. reflexivity.
Qed.

(** C2 (the code departs from it): when the selection holds no rack,
    [unsplitRacks] does not return.  It reaches [np.min(points, axis=0)]
    with an empty list and raises [ValueError]; no shape and no list has
    been changed at that point. *)
Theorem unsplitRacks_no_rack_raises (self : MainWindow) :
  Forall (not_a_rack self) (selectedItems self) ->
  unsplitRacks self = Raise ValueError self.
Proof.
  intros H. unfold unsplitRacks.
  rewrite (bind_ok _ _ self self self) by reflexivity.
  rewrite (bind_ok _ _ _ _ _ (racks_in_no_rack _ _ H)).
  reflexivity.
Qed.

Lemma unsplitRacks_no_rack_raises_witness :
  unsplitRacks one_beam_selected = Raise ValueError one_beam_selected /\
  unsplitRacks (blank_window 1 10) = Raise ValueError (blank_window 1 10).
Proof.
  split.
  - apply unsplitRacks_no_rack_raises.
    constructor; [| constructor].
    exists (beam_shape 1 9). split; reflexivity.
  - apply unsplitRacks_no_rack_raises. constructor.
Defined.

(** ** Rotation of the annotation *)

Lemma with_heap_eta (w : MainWindow) : with_heap (heap w) w = w.
Proof. destruct w. reflexivity. Qed.

Lemma rotate_vertex_with_heap (w : MainWindow) (h : list Shape) (rot : Point2 * Point2)
    (p : QPointF.t) :
  rotate_vertex (with_heap h w) rot p = rotate_vertex w rot p.
Proof. reflexivity. Qed.

(** In world coordinates a rotated vertex is the row vector times [rot]. *)
Lemma rotate_vertex_world (self : MainWindow) (angle : R) (p : QPointF.t) :
  scale self <> 0 ->
  qpointToPointcloud self (rotate_vertex self (rot_matrix angle) p)
    = code_rotation angle (qpointToPointcloud self p).
Proof.
  intros Hs. unfold rotate_vertex.
  set (v := qpointToPointcloud self p).
  assert (E : forall u, qpointToPointcloud self (pointcloudToQpoint self u) = u).
  { intros [ux uy]. unfold qpointToPointcloud, pointcloudToQpoint. simpl.
    f_equal; field; exact Hs. }
  rewrite E. unfold np_dot, rot_matrix, code_rotation. cbn [fst snd].
  f_equal; ring.
Qed.

(** The loop of [rotateShapes] over the shapes [l] of the canvas, started
    on the store [h]. *)
Lemma rotateShapes_loop (w0 : MainWindow) (rot : Point2 * Point2) (l : list nat) :
  forall h : list Shape,
  (forall a, a ∈ l -> is_Some (h !! a)) ->
  exists h' : list Shape,
    for_each l (fun a =>
      shape <- shape_at a ;;
      modify (fun self =>
        with_heap (<[a := set_points shape (map (rotate_vertex self rot) (points shape))]>
                     (heap self)) self)) (with_heap h w0)
      = Ok tt (with_heap h' w0) /\
    length h' = length h /\
    (forall a, a ∉ l -> h' !! a = h !! a) /\
    (NoDup l -> forall a s, a ∈ l -> h !! a = Some s ->
       h' !! a = Some (set_points s (map (rotate_vertex w0 rot) (points s)))).
Proof.
  induction l as [| a l IH]; intros h Hv.
  - exists h. repeat split; auto.
    intros _ a s Ha. inversion Ha.
  - destruct (Hv a) as [s Hs]; [left |].
    set (h1 := <[a := set_points s (map (rotate_vertex w0 rot) (points s))]> h).
    assert (Hlen : length h1 = length h) by apply length_insert.
    destruct (IH h1) as (h' & Hrun & Hl & Hout & Hin).
    { intros b Hb. apply lookup_lt_is_Some. rewrite Hlen.
      apply lookup_lt_is_Some, Hv. right. exact Hb. }
    exists h'. split; [| split; [| split]].
    + cbn [for_each]. unfold bind at 1. unfold bind at 1.
      unfold shape_at. cbn [heap with_heap]. rewrite Hs.
      unfold modify. cbn [heap with_heap]. exact Hrun.
    + congruence.
    + intros b Hb. rewrite Hout.
      * apply list_lookup_insert_ne. intros ->. apply Hb. left.
      * intros Hbl. apply Hb. right. exact Hbl.
    + intros Hnd b sb Hb Hsb.
      apply NoDup_cons in Hnd as [Hna Hnd].
      apply elem_of_cons in Hb as [-> | Hb].
      * rewrite (Hout a Hna). rewrite Hs in Hsb. injection Hsb as <-.
        apply list_lookup_insert_eq. apply lookup_lt_Some in Hs. exact Hs.
      * apply (Hin Hnd b sb Hb).
        unfold h1. rewrite list_lookup_insert_ne; [exact Hsb |].
        intros ->. contradiction.
Qed.

(** C6, as the code has it: [rotateShapes(angle)] replaces every vertex of
    every shape of the canvas, and in world coordinates the vertex [(x, y)]
    becomes [(x cos t + y sin t, - x sin t + y cos t)] with
    [t = radians(angle)]: the row vector times the matrix
    [((cos t, - sin t), (sin t, cos t))], which turns the plane by [- t]
    (clockwise for a positive angle).  Shapes that are not on the canvas are
    left alone. *)
Theorem rotateShapes_row_vector (self : MainWindow) (angle : R) :
  scale self <> 0 ->
  NoDup (canvas_shapes self) ->
  (forall a, a ∈ canvas_shapes self -> is_Some (heap self !! a)) ->
  exists self' : MainWindow,
    rotateShapes angle self = Ok tt self' /\
    (forall a s, a ∈ canvas_shapes self -> heap self !! a = Some s ->
       exists s', heap self' !! a = Some s' /\
         label s' = label s /\
         length (points s') = length (points s) /\
         forall i p, points s !! i = Some p ->
           exists p', points s' !! i = Some p' /\
             qpointToPointcloud self' p' = code_rotation angle (qpointToPointcloud self p)) /\
    (forall a, a ∉ canvas_shapes self -> heap self' !! a = heap self !! a).
Proof.
  intros Hs Hnd Hv.
  destruct (rotateShapes_loop self (rot_matrix angle) (canvas_shapes self) (heap self) Hv)
    as (h' & Hrun & Hlen & Hout & Hin).
  exists (with_heap h' self). split; [| split].
  - unfold rotateShapes. rewrite (bind_ok _ _ self self self) by reflexivity.
    rewrite with_heap_eta in Hrun. exact Hrun.
  - intros a s Ha Hlk.
    exists (set_points s (map (rotate_vertex self (rot_matrix angle)) (points s))).
    split; [apply (Hin Hnd a s Ha Hlk) |].
    split; [reflexivity |]. split; [apply length_map |].
    intros i p Hp. exists (rotate_vertex self (rot_matrix angle) p).
    split.
    + cbn [points set_points]. rewrite list_lookup_fmap, Hp. reflexivity.
    + apply (rotate_vertex_world self angle p Hs).
  - intros a Ha. cbn [heap with_heap]. apply Hout, Ha.
Qed.

Lemma cos_radians_90 : cos (radians 90) = 0.
Proof. unfold radians. replace (90 * PI / 180) with (PI / 2) by lra. apply cos_PI2. Qed.

Lemma sin_radians_90 : sin (radians 90) = 1.
Proof. unfold radians. replace (90 * PI / 180) with (PI / 2) by lra. apply sin_PI2. Qed.

Lemma rotateShapes_row_vector_witness :
  exists self' s',
    rotateShapes 90 one_vertex = Ok tt self' /\
    heap self' !! 0%nat = Some s' /\
    map (qpointToPointcloud self') (points s') = [(0, -1)].
Proof.
  assert (Hs : scale one_vertex <> 0) by (simpl; lra).
  assert (Hnd : NoDup (canvas_shapes one_vertex)).
  { simpl. apply NoDup_singleton. }
  assert (Hv : forall a, a ∈ canvas_shapes one_vertex -> is_Some (heap one_vertex !! a)).
  { intros a Ha. simpl in Ha. apply list_elem_of_singleton in Ha as ->. eexists. reflexivity. }
  destruct (rotateShapes_row_vector one_vertex 90 Hs Hnd Hv) as (self' & Hrun & Hin & _).
  destruct (Hin 0%nat _ (proj2 (list_elem_of_singleton _ _) eq_refl) eq_refl)
    as (s' & Hlk & _ & Hlen & Hpt).
  destruct (Hpt 0%nat _ eq_refl) as (p' & Hp' & Hw).
  exists self', s'. split; [exact Hrun |]. split; [exact Hlk |].
  destruct (points s') as [| q [| q' qs]]; simpl in Hlen; try discriminate.
  simpl in Hp'. injection Hp' as ->. simpl map. rewrite Hw.
  unfold code_rotation. rewrite cos_radians_90, sin_radians_90.
  unfold qpointToPointcloud. simpl. repeat f_equal; lra.
Defined.

(** C6, as the specification words it, fails: a quarter turn takes the
    world vertex (1, 0) to (0, -1), where the counter-clockwise rotation of
    the specification gives (0, 1). *)
Lemma rotateShapes_not_counter_clockwise :
  exists self' s',
    rotateShapes 90 one_vertex = Ok tt self' /\
    heap self' !! 0%nat = Some s' /\
    map (qpointToPointcloud self') (points s') = [(0, -1)] /\
    map (spec_rotation 90) [qpointToPointcloud one_vertex (QPointF.mk 1 0)] = [(0, 1)] /\
    map (qpointToPointcloud self') (points s')
      <> map (spec_rotation 90) [qpointToPointcloud one_vertex (QPointF.mk 1 0)].
Proof.
  assert (Hspec : map (spec_rotation 90) [qpointToPointcloud one_vertex (QPointF.mk 1 0)]
                  = [(0, 1)]).
  { unfold spec_rotation. simpl map. rewrite cos_radians_90, sin_radians_90.
    unfold qpointToPointcloud. simpl. repeat f_equal; lra. }
  eexists _, _. split; [reflexivity |]. split; [reflexivity |].
  assert (Hcode : map (qpointToPointcloud one_vertex)
            [rotate_vertex one_vertex (rot_matrix 90) (QPointF.mk 1 0)] = [(0, -1)]).
  { simpl map. rewrite rotate_vertex_world by (simpl; lra).
    unfold code_rotation. rewrite cos_radians_90, sin_radians_90.
    unfold qpointToPointcloud. simpl. repeat f_equal; lra. }
  split; [exact Hcode |]. split; [exact Hspec |].
  cbn [points set_points].
  change (map (qpointToPointcloud one_vertex)
            [rotate_vertex one_vertex (rot_matrix 90) (QPointF.mk 1 0)]
          <> map (spec_rotation 90) [qpointToPointcloud one_vertex (QPointF.mk 1 0)]).
  rewrite Hcode, Hspec. intros E. injection E as E. lra.
Qed.

(** ** Splitting a rack *)

Lemma heap_updatePixmap (w : MainWindow) : heap (updatePixmap w) = heap w.
Proof.
  unfold updatePixmap. destruct (imageData w) as [[| i l] |]; try reflexivity.
  destruct (sliceIdx w >=? _)%Z; cbn [sliceIdx with_sliceIdx];
    destruct (_ <? 0)%Z; reflexivity.
Qed.

Lemma itemsToShapes_updatePixmap (w : MainWindow) :
  itemsToShapes (updatePixmap w) = itemsToShapes w.
Proof.
  unfold updatePixmap. destruct (imageData w) as [[| i l] |]; try reflexivity.
  destruct (sliceIdx w >=? _)%Z; cbn [sliceIdx with_sliceIdx];
    destruct (_ <? 0)%Z; reflexivity.
Qed.

Lemma qpointToPointcloud_updatePixmap (w : MainWindow) (p : QPointF.t) :
  qpointToPointcloud (updatePixmap w) p = qpointToPointcloud w p.
Proof.
  unfold updatePixmap. destruct (imageData w) as [[| i l] |]; try reflexivity.
  destruct (sliceIdx w >=? _)%Z; cbn [sliceIdx with_sliceIdx];
    destruct (_ <? 0)%Z; reflexivity.
Qed.

Lemma deref_ok (w : MainWindow) (pos : QPointRef) (p : QPointF.t) :
  points_to w pos p -> deref pos w = Ok p w.
Proof.
  destruct pos as [q | a i]; simpl.
  - intros ->. reflexivity.
  - intros (s & Hs & Hp). apply (point_at_ok _ _ _ _ _ Hs Hp).
Qed.

Lemma points_to_app (w : MainWindow) (pos : QPointRef) (p : QPointF.t) (l : list Shape) :
  points_to w pos p -> points_to (with_heap (heap w ++ l) w) pos p.
Proof.
  destruct pos as [q | a i]; simpl; [auto |].
  intros (s & Hs & Hp). exists s. split; [| exact Hp].
  apply lookup_app_l_Some, Hs.
Qed.

Lemma points_to_insert (w : MainWindow) (pos : QPointRef) (p : QPointF.t) (r : nat)
    (s' : Shape) :
  ref_avoids pos r -> points_to w pos p ->
  points_to (with_heap (<[r := s']> (heap w)) w) pos p.
Proof.
  destruct pos as [q | a i]; simpl; [auto |].
  intros Hne (s & Hs & Hp). exists s. split; [| exact Hp].
  rewrite list_lookup_insert_ne; [exact Hs | congruence].
Qed.

(** What a run of [splitRack] on a given rack does: the rack keeps its
    first corner and ends 0.2 before [pos] on the cut axis; a copy that
    begins 0.2 after [pos] is added to the store and to the label list. *)
Lemma splitRack_run (containsPoint : Shape -> QPointF.t -> bool) (self : MainWindow)
    (pos : QPointRef) (p : QPointF.t) (r : nat) (rk : Shape) (p0 p1 : QPointF.t)
    (rest : list QPointF.t) :
  heap self !! r = Some rk ->
  points rk = p0 :: p1 :: rest ->
  points_to self pos p ->
  ref_avoids pos r ->
  let wide := wider_than_tall self p0 p1 in
  splitRack containsPoint (Some pos) (Some r) self =
    Ok tt (updatePixmap
             (with_itemsToShapes (itemsToShapes self ++ [length (heap self)])
                (with_heap
                   (<[r := set_points rk (p0 :: first_half_end wide p p1 :: rest)]> (heap self)
                    ++ [set_points rk (second_half_start wide p p0 :: p1 :: rest)])
                   self))).
Proof.
  intros HR Hpts Hpos Hav wide.
  assert (Hlt : (r < length (heap self))%nat) by (apply lookup_lt_Some in HR; exact HR).
  assert (H0 : points rk !! 0%nat = Some p0) by (rewrite Hpts; reflexivity).
  assert (H1 : points rk !! 1%nat = Some p1) by (rewrite Hpts; reflexivity).
  unfold splitRack.
  rewrite (bind_ok _ _ self self self) by reflexivity.
  rewrite (bind_ok _ _ self self (Some r)) by reflexivity.
  rewrite (bind_ok _ _ _ _ _ (copy_ok _ _ _ HR)).
  set (w1 := with_heap (heap self ++ [rk]) self).
  assert (HR1 : heap w1 !! r = Some rk) by (apply lookup_app_l_Some, HR).
  assert (Hpos1 : points_to w1 pos p) by (apply points_to_app, Hpos).
  rewrite (bind_ok _ _ _ _ _ (point_at_ok _ _ _ _ _ HR1 H0)).
  rewrite (bind_ok _ _ _ _ _ (point_at_ok _ _ _ _ _ HR1 H1)).
  rewrite (bind_ok _ _ w1 w1 w1) by reflexivity.
  match goal with
  | |- context [Rltb ?a ?b] => change (Rltb a b) with wide
  end.
  assert (Hnew : forall s', (<[r := s']> (heap w1)) !! length (heap self) = Some rk).
  { intros s'. rewrite list_lookup_insert_ne by lia.
    apply list_lookup_middle. reflexivity. }
  assert (Hfin : forall X Y : Shape,
            <[length (heap self) := X]> (<[r := Y]> (heap w1))
            = <[r := Y]> (heap self) ++ [X]).
  { intros X Y. unfold w1. cbn [heap with_heap].
    rewrite insert_app_l by exact Hlt.
    rewrite insert_app_r_alt by (rewrite length_insert; lia).
    rewrite length_insert, Nat.sub_diag. reflexivity. }
  destruct wide; unfold first_half_end, second_half_start.
  - set (v1 := QPointF.setX p1 (QPointF.x p - 0.2)).
    set (v0 := QPointF.setX p0 (QPointF.x p + 0.2)).
    set (w2 := with_heap (<[r := set_points rk (<[1%nat := v1]> (points rk))]> (heap w1)) w1).
    set (w3 := with_heap (<[length (heap self) := set_points rk (<[0%nat := v0]> (points rk))]>
                            (heap w2)) w2).
    assert (HX : (p <- deref pos ;; point_setX r 1 (QPointF.x p - 0.2)) w1 = Ok tt w2).
    { rewrite (bind_ok _ _ _ _ p (deref_ok _ _ _ Hpos1)).
      apply (point_setX_ok _ _ _ _ p1); assumption. }
    assert (HY : (p <- deref pos ;; point_setX (length (heap self)) 0 (QPointF.x p + 0.2)) w2
                 = Ok tt w3).
    { rewrite (bind_ok _ _ w2 w2 p).
      - apply (point_setX_ok _ _ _ _ p0); [apply Hnew | exact H0].
      - apply deref_ok. apply (points_to_insert w1); assumption. }
    rewrite (bind_ok _ _ w1 w3 tt).
    + unfold bind, addLabel, modify. unfold w3, w2. cbn [heap with_heap].
      rewrite Hfin, Hpts. reflexivity.
    + rewrite (bind_ok _ _ w1 w2 tt HX). exact HY.
  - set (v1 := QPointF.setY p1 (QPointF.y p - 0.2)).
    set (v0 := QPointF.setY p0 (QPointF.y p + 0.2)).
    set (w2 := with_heap (<[r := set_points rk (<[1%nat := v1]> (points rk))]> (heap w1)) w1).
    set (w3 := with_heap (<[length (heap self) := set_points rk (<[0%nat := v0]> (points rk))]>
                            (heap w2)) w2).
    assert (HX : (p <- deref pos ;; point_setY r 1 (QPointF.y p - 0.2)) w1 = Ok tt w2).
    { rewrite (bind_ok _ _ _ _ p (deref_ok _ _ _ Hpos1)).
      apply (point_setY_ok _ _ _ _ p1); assumption. }
    assert (HY : (p <- deref pos ;; point_setY (length (heap self)) 0 (QPointF.y p + 0.2)) w2
                 = Ok tt w3).
    { rewrite (bind_ok _ _ w2 w2 p).
      - apply (point_setY_ok _ _ _ _ p0); [apply Hnew | exact H0].
      - apply deref_ok. apply (points_to_insert w1); assumption. }
    rewrite (bind_ok _ _ w1 w3 tt).
    + unfold bind, addLabel, modify. unfold w3, w2. cbn [heap with_heap].
      rewrite Hfin, Hpts. reflexivity.
    + rewrite (bind_ok _ _ w1 w2 tt HX). exact HY.
Qed.

Lemma find_rack_none (containsPoint : Shape -> QPointF.t -> bool) (w : MainWindow)
    (pos : QPointF.t) (l : list nat) :
  Forall (no_rack_contains containsPoint w pos) l ->
  find_rack containsPoint pos l w = Ok None w.
Proof.
  induction 1 as [| a l (s & Hs & Hl) _ IH]; [reflexivity |].
  simpl. rewrite (bind_ok _ _ _ _ _ (shape_at_ok _ _ _ Hs)).
  rewrite Hl. exact IH.
Qed.

(** How [splitRack(p, R)] cuts.  [R] is cut along x when its extent along
    x is greater than its extent along y, and along y otherwise.  [R] keeps
    its first corner and its second corner moves to [p - 0.2] on the cut
    axis; a copy of [R] whose first corner has moved to [p + 0.2] on that
    axis joins the label list.  Both offsets are in pixel coordinates, so
    the two new corners are 0.4 pixels, that is 0.4 * scale world units,
    apart.  When no rack is given and no rack of the label list contains
    [p], nothing changes and nothing is raised. *)
Theorem splitRack_cut_in_pixels (containsPoint : Shape -> QPointF.t -> bool)
    (self : MainWindow) (pos : QPointF.t) :
  (forall (r : nat) (rk : Shape) (p0 p1 : QPointF.t) (rest : list QPointF.t),
     heap self !! r = Some rk ->
     points rk = p0 :: p1 :: rest ->
     let wx := fst (qpointToPointcloud self p0) - fst (qpointToPointcloud self p1) in
     let wy := snd (qpointToPointcloud self p0) - snd (qpointToPointcloud self p1) in
     exists (self' : MainWindow) (q1 q0 : QPointF.t),
       splitRack containsPoint (Some (Free pos)) (Some r) self = Ok tt self' /\
       heap self' = <[r := set_points rk (p0 :: q1 :: rest)]> (heap self)
                    ++ [set_points rk (q0 :: p1 :: rest)] /\
       itemsToShapes self' = itemsToShapes self ++ [length (heap self)] /\
       (forall q, qpointToPointcloud self' q = qpointToPointcloud self q) /\
       ((Rabs wy < Rabs wx /\
         q1 = QPointF.setX p1 (QPointF.x pos - 0.2) /\
         q0 = QPointF.setX p0 (QPointF.x pos + 0.2) /\
         QPointF.x q0 - QPointF.x q1 = 0.4 /\
         fst (qpointToPointcloud self' q0) - fst (qpointToPointcloud self' q1)
           = 0.4 * scale self)
        \/
        (Rabs wx <= Rabs wy /\
         q1 = QPointF.setY p1 (QPointF.y pos - 0.2) /\
         q0 = QPointF.setY p0 (QPointF.y pos + 0.2) /\
         QPointF.y q0 - QPointF.y q1 = 0.4 /\
         snd (qpointToPointcloud self' q1) - snd (qpointToPointcloud self' q0)
           = 0.4 * scale self)))
  /\
  (Forall (no_rack_contains containsPoint self pos) (itemsToShapes self) ->
   splitRack containsPoint (Some (Free pos)) None self = Ok tt self).
Proof.
  split.
  - intros r rk p0 p1 rest HR Hpts wx wy.
    pose proof (splitRack_run containsPoint self (Free pos) pos r rk p0 p1 rest
                  HR Hpts eq_refl I) as Hrun.
    cbv zeta in Hrun.
    eexists _, _, _. split; [exact Hrun |].
    split; [rewrite heap_updatePixmap; reflexivity |].
    split; [rewrite itemsToShapes_updatePixmap; reflexivity |].
    split; [intros q; rewrite qpointToPointcloud_updatePixmap; reflexivity |].
    rewrite !qpointToPointcloud_updatePixmap.
    unfold wider_than_tall. fold wx wy.
    destruct (Rlt_dec (Rabs wy) (Rabs wx)) as [Hlt | Hge].
    + left. rewrite (Rltb_true _ _ Hlt). unfold first_half_end, second_half_start.
      split; [exact Hlt |]. split; [reflexivity |]. split; [reflexivity |].
      unfold qpointToPointcloud. cbn. split; lra.
    + right. rewrite (Rltb_false _ _ Hge). unfold first_half_end, second_half_start.
      split; [lra |]. split; [reflexivity |]. split; [reflexivity |].
      unfold qpointToPointcloud. cbn. split; lra.
  - intros Hnone. unfold splitRack.
    rewrite (bind_ok _ _ self self self) by reflexivity.
    rewrite (bind_ok _ _ self self None); [reflexivity |].
    rewrite (bind_ok _ _ self self pos) by reflexivity.
    apply find_rack_none, Hnone.
Qed.

(** The scenario of the specification, with cell size 1: the rack spanning
    the world box (0,0)-(10,5), split at the world point (5, 2.5), becomes
    two racks with the x-extents [0, 4.8] and [5.2, 10]. *)
Lemma splitRack_cut_in_pixels_witness :
  exists (self' : MainWindow) (a b : Shape),
    splitRack box_contains (Some (Free (QPointF.mk 5 2.5))) (Some 0%nat) rack_unit_cells
      = Ok tt self' /\
    heap self' = [a; b] /\
    map (qpointToPointcloud self') (points a) = [(0, 0); (4.8, 5)] /\
    map (qpointToPointcloud self') (points b) = [(5.2, 0); (10, 5)].
Proof.
  destruct (proj1 (splitRack_cut_in_pixels box_contains rack_unit_cells (QPointF.mk 5 2.5))
              0%nat (rack_shape 0 5 10 0) (QPointF.mk 0 5) (QPointF.mk 10 0) []
              eq_refl eq_refl)
    as (self' & q1 & q0 & Hrun & Hheap & _ & Hw & [(_ & E1 & E0 & _) | (Hcmp & _)]).
  - exists self', (set_points (rack_shape 0 5 10 0) [QPointF.mk 0 5; q1]),
      (set_points (rack_shape 0 5 10 0) [q0; QPointF.mk 10 0]).
    split; [exact Hrun |]. split; [exact Hheap |].
    subst q1 q0. cbn [points set_points map]. rewrite !Hw.
    unfold qpointToPointcloud. cbn. split; repeat f_equal; lra.
  - exfalso. revert Hcmp. unfold qpointToPointcloud. cbn. real_cmp.
Defined.

Lemma Rleb_true (a b : R) : a <= b -> Rleb a b = true.
Proof. intros H. unfold Rleb. destruct (Rle_dec a b); [reflexivity | contradiction]. Qed.

(** With cell size 0.5 the rack spanning the world box (0,0)-(10,5), split
    at the world point (5, 2.5) that it contains, becomes two racks with the
    x-extents [0, 4.9] and [5.1, 10]: the offsets of 0.2 are pixels, and the
    gap is 0.2 world units. *)
Lemma splitRack_gap_not_world_units :
  box_contains (rack_shape 0 10 20 0) (QPointF.mk 10 5) = true /\
  map (qpointToPointcloud rack_half_cells) (points (rack_shape 0 10 20 0))
    = [(0, 0); (10, 5)] /\
  qpointToPointcloud rack_half_cells (QPointF.mk 10 5) = (5, 2.5) /\
  exists (self' : MainWindow) (a b : Shape),
    splitRack box_contains (Some (Free (QPointF.mk 10 5))) (Some 0%nat) rack_half_cells
      = Ok tt self' /\
    heap self' = [a; b] /\
    map (qpointToPointcloud self') (points a) = [(0, 0); (4.9, 5)] /\
    map (qpointToPointcloud self') (points b) = [(5.1, 0); (10, 5)] /\
    map (qpointToPointcloud self') (points a) <> [(0, 0); (4.8, 5)] /\
    map (qpointToPointcloud self') (points b) <> [(5.2, 0); (10, 5)].
Proof.
  split.
  { unfold box_contains. cbn [points rack_shape QPointF.x QPointF.y].
    rewrite !Rleb_true; [reflexivity | | | |];
      unfold Rmin, Rmax; repeat destruct (Rle_dec _ _); lra. }
  split.
  { unfold qpointToPointcloud. cbn. repeat f_equal; lra. }
  split.
  { unfold qpointToPointcloud. cbn. f_equal; lra. }
  pose proof (splitRack_run box_contains rack_half_cells (Free (QPointF.mk 10 5))
                (QPointF.mk 10 5) 0%nat (rack_shape 0 10 20 0)
                (QPointF.mk 0 10) (QPointF.mk 20 0) [] eq_refl eq_refl eq_refl I) as Hrun.
  cbv zeta in Hrun.
  assert (Hwide : wider_than_tall rack_half_cells (QPointF.mk 0 10) (QPointF.mk 20 0) = true).
  { unfold wider_than_tall, qpointToPointcloud. cbn. apply Rltb_true. real_cmp. }
  rewrite Hwide in Hrun. unfold first_half_end, second_half_start in Hrun.
  eexists _, _, _. split; [exact Hrun |].
  split; [rewrite heap_updatePixmap; reflexivity |].
  assert (Ea : map (qpointToPointcloud rack_half_cells)
                 [QPointF.mk 0 10; QPointF.setX (QPointF.mk 20 0) (10 - 0.2)]
               = [(0, 0); (4.9, 5)]).
  { unfold qpointToPointcloud. cbn. repeat f_equal; lra. }
  assert (Eb : map (qpointToPointcloud rack_half_cells)
                 [QPointF.setX (QPointF.mk 0 10) (10 + 0.2); QPointF.mk 20 0]
               = [(5.1, 0); (10, 5)]).
  { unfold qpointToPointcloud. cbn. repeat f_equal; lra. }
  cbn [points set_points QPointF.x].
  split; [exact Ea |]. split; [exact Eb |].
  split.
  - change (map (qpointToPointcloud rack_half_cells)
              [QPointF.mk 0 10; QPointF.setX (QPointF.mk 20 0) (10 - 0.2)]
            <> [(0, 0); (4.8, 5)]).
    rewrite Ea. intros E. injection E as E. lra.
  - change (map (qpointToPointcloud rack_half_cells)
              [QPointF.setX (QPointF.mk 0 10) (10 + 0.2); QPointF.mk 20 0]
            <> [(5.2, 0); (10, 5)]).
    rewrite Eb. intros E. injection E as E. lra.
Qed.

(** C3: a cut along y leaves no gap for a rack stored the way [unsplitRacks]
    and [newShape] store racks, world lower corner first.  [splitRack] takes
    0.2 off the pixel y of the second corner and adds 0.2 to the pixel y of
    the copy's first corner, and the pixel y axis points down: in world
    coordinates the first half ends 0.2 * scale above the cut and the second
    half begins 0.2 * scale below it.  For a rack that is not wider than
    tall and a cut position between its two corners, the halves keep the
    x-extent of the rack and overlap by 0.4 * scale along y, the cut
    position lying inside both. *)
Theorem splitRack_y_cut_overlaps (containsPoint : Shape -> QPointF.t -> bool)
    (self : MainWindow) (pos : QPointF.t) (r : nat) (rk : Shape)
    (p0 p1 : QPointF.t) (rest : list QPointF.t) :
  let W := qpointToPointcloud self in
  0 < scale self ->
  heap self !! r = Some rk ->
  points rk = p0 :: p1 :: rest ->
  Rabs (fst (W p0) - fst (W p1)) <= Rabs (snd (W p0) - snd (W p1)) ->
  snd (W p0) <= snd (W pos) <= snd (W p1) ->
  exists (self' : MainWindow) (q1 q0 : QPointF.t),
    splitRack containsPoint (Some (Free pos)) (Some r) self = Ok tt self' /\
    heap self' = <[r := set_points rk (p0 :: q1 :: rest)]> (heap self)
                 ++ [set_points rk (q0 :: p1 :: rest)] /\
    itemsToShapes self' = itemsToShapes self ++ [length (heap self)] /\
    (forall q, qpointToPointcloud self' q = W q) /\
    fst (W q1) = fst (W p1) /\ fst (W q0) = fst (W p0) /\
    snd (W q1) = snd (W pos) + 0.2 * scale self /\
    snd (W q0) = snd (W pos) - 0.2 * scale self /\
    snd (W p0) <= snd (W pos) < snd (W q1) /\
    snd (W q0) < snd (W pos) <= snd (W p1).
Proof.
  intros W Hscale HR Hpts Htall Hin.
  pose proof (splitRack_run containsPoint self (Free pos) pos r rk p0 p1 rest
                HR Hpts eq_refl I) as Hrun.
  cbv zeta in Hrun.
  assert (Hwide : wider_than_tall self p0 p1 = false).
  { unfold wider_than_tall. apply Rltb_false. fold W. lra. }
  rewrite Hwide in Hrun. unfold first_half_end, second_half_start in Hrun.
  eexists _, _, _. split; [exact Hrun |].
  split; [rewrite heap_updatePixmap; reflexivity |].
  split; [rewrite itemsToShapes_updatePixmap; reflexivity |].
  split; [intros q; rewrite qpointToPointcloud_updatePixmap; reflexivity |].
  revert Hin. unfold W, qpointToPointcloud. cbn [fst snd QPointF.x QPointF.y QPointF.setY].
  intros Hin. repeat split; lra.
Qed.

(** The rack spanning the world box (0,0)-(5,10), with cell size 1, split
    at the world point (2.5, 5): the halves have the y-extents [0, 5.2] and
    [4.8, 10]. *)
Lemma splitRack_y_cut_overlaps_witness :
  exists (self' : MainWindow) (a b : Shape),
    splitRack box_contains (Some (Free (QPointF.mk 2.5 5))) (Some 0%nat) tall_rack_unit_cells
      = Ok tt self' /\
    heap self' = [a; b] /\
    map (qpointToPointcloud self') (points a) = [(0, 0); (5, 5.2)] /\
    map (qpointToPointcloud self') (points b) = [(0, 4.8); (5, 10)].
Proof.
  assert (Hscale : 0 < scale tall_rack_unit_cells) by (cbn; lra).
  assert (Htall : Rabs (fst (qpointToPointcloud tall_rack_unit_cells (QPointF.mk 0 10))
                        - fst (qpointToPointcloud tall_rack_unit_cells (QPointF.mk 5 0)))
                  <= Rabs (snd (qpointToPointcloud tall_rack_unit_cells (QPointF.mk 0 10))
                           - snd (qpointToPointcloud tall_rack_unit_cells (QPointF.mk 5 0)))).
  { unfold qpointToPointcloud. cbn. real_cmp. }
  assert (Hin : snd (qpointToPointcloud tall_rack_unit_cells (QPointF.mk 0 10))
                <= snd (qpointToPointcloud tall_rack_unit_cells (QPointF.mk 2.5 5))
                <= snd (qpointToPointcloud tall_rack_unit_cells (QPointF.mk 5 0))).
  { unfold qpointToPointcloud. cbn. lra. }
  destruct (splitRack_y_cut_overlaps box_contains tall_rack_unit_cells (QPointF.mk 2.5 5)
              0%nat (rack_shape 0 10 5 0) (QPointF.mk 0 10) (QPointF.mk 5 0) []
              Hscale eq_refl eq_refl Htall Hin)
    as (self' & q1 & q0 & Hrun & Hheap & _ & Hw & Hx1 & Hx0 & Hy1 & Hy0 & _).
  exists self', (set_points (rack_shape 0 10 5 0) [QPointF.mk 0 10; q1]),
    (set_points (rack_shape 0 10 5 0) [q0; QPointF.mk 5 0]).
  split; [exact Hrun |]. split; [exact Hheap |].
  cbn [points set_points map]. rewrite !Hw.
  rewrite (surjective_pairing (qpointToPointcloud tall_rack_unit_cells q1)).
  rewrite (surjective_pairing (qpointToPointcloud tall_rack_unit_cells q0)).
  rewrite Hx1, Hx0, Hy1, Hy0.
  unfold qpointToPointcloud. cbn. split; repeat f_equal; lra.
Defined.

(** ** New shapes *)

(** Collecting the beams reads the state and leaves it as it is. *)
Lemma beam_positions_state (l : list nat) :
  forall (w w' : MainWindow) (bs : list Point2),
  beam_positions l w = Ok bs w' -> w' = w.
Proof.
  induction l as [| a l IH]; intros w w' bs H.
  - injection H as _ <-. reflexivity.
  - cbn [beam_positions] in H.
    apply bind_inv in H as (s & w1 & Hs & H).
    apply shape_at_inv in Hs as [-> _].
    destruct (String.eqb (label s) "beam").
    + apply bind_inv in H as (p & w2 & Hp & H).
      apply index_inv in Hp as [-> _].
      apply bind_inv in H as (self & w3 & Hg & H).
      injection Hg as _ <-.
      apply bind_inv in H as (rest & w4 & Hrest & H).
      apply IH in Hrest as ->.
      injection H as _ <-. reflexivity.
    + apply (IH _ _ _ H).
Qed.

(** The loop of [nearestCrosshairIntersection] over the beams. *)
Lemma crosshair_fold (pxy : Point2) (thr : R) (beams : list Point2) :
  forall acc : Point2 * bool,
  Rabs (fst (fst acc) - fst pxy) < thr ->
  Rabs (snd (fst acc) - snd pxy) < thr ->
  (snd acc = false -> fst acc = pxy) ->
  let res := crosshair_of pxy thr beams acc in
  Rabs (fst (fst res) - fst pxy) < thr /\
  Rabs (snd (fst res) - snd pxy) < thr /\
  (snd res = false -> fst res = pxy) /\
  (snd res = true <->
   snd acc = true \/
   Exists (fun b => Rabs (fst b - fst pxy) < thr \/ Rabs (snd b - snd pxy) < thr) beams).
Proof.
  induction beams as [| b beams IH]; intros acc Hx Hy Hf.
  - cbn [crosshair_of fold_left]. repeat split; auto.
    intros [H | H]; [exact H | inversion H].
  - unfold crosshair_of. cbn [fold_left]. fold (crosshair_of pxy thr beams).
    set (acc1 := if Rltb (Rabs (fst b - fst pxy)) thr
                 then ((fst b, snd (fst acc)), true) else acc).
    set (acc2 := if Rltb (Rabs (snd b - snd pxy)) thr
                 then ((fst (fst acc1), snd b), true) else acc1).
    assert (H1 : Rabs (fst (fst acc1) - fst pxy) < thr /\
                 Rabs (snd (fst acc1) - snd pxy) < thr /\
                 (snd acc1 = false -> fst acc1 = pxy) /\
                 (snd acc1 = true <-> snd acc = true \/ Rabs (fst b - fst pxy) < thr)).
    { unfold acc1. destruct (Rlt_dec (Rabs (fst b - fst pxy)) thr) as [Hb | Hb].
      - rewrite (Rltb_true _ _ Hb). cbn [fst snd].
        repeat split; auto; discriminate.
      - rewrite (Rltb_false _ _ Hb). repeat split; auto. intros [H | H]; tauto. }
    destruct H1 as (Hx1 & Hy1 & Hf1 & Hh1).
    assert (H2 : Rabs (fst (fst acc2) - fst pxy) < thr /\
                 Rabs (snd (fst acc2) - snd pxy) < thr /\
                 (snd acc2 = false -> fst acc2 = pxy) /\
                 (snd acc2 = true <-> snd acc1 = true \/ Rabs (snd b - snd pxy) < thr)).
    { unfold acc2. destruct (Rlt_dec (Rabs (snd b - snd pxy)) thr) as [Hb | Hb].
      - rewrite (Rltb_true _ _ Hb). cbn [fst snd].
        repeat split; auto; discriminate.
      - rewrite (Rltb_false _ _ Hb). repeat split; auto. intros [H | H]; tauto. }
    destruct H2 as (Hx2 & Hy2 & Hf2 & Hh2).
    destruct (IH acc2 Hx2 Hy2 Hf2) as (Rx & Ry & Rf & Rh).
    repeat split; auto.
    + intros H. apply Rh in H as [H | H].
      * apply Hh2 in H as [H | H].
        -- apply Hh1 in H as [H | H]; [left; exact H | right; left; left; exact H].
        -- right. left. right. exact H.
      * right. right. exact H.
    + intros H. apply Rh.
      destruct H as [H | H].
      * left. apply Hh2. left. apply Hh1. left. exact H.
      * inversion H as [? ? [Hb | Hb] | ? ? Hb]; subst.
        -- left. apply Hh2. left. apply Hh1. right. exact Hb.
        -- left. apply Hh2. right. exact Hb.
        -- right. exact Hb.
Qed.


Lemma rack_label_other (text : string) :
  str_in "rack" text = true ->
  String.eqb text "" = false /\ String.eqb text "beam" = false /\
  String.eqb text "pole" = false /\ String.eqb text "wall" = false /\
  String.eqb text "walls" = false.
Proof.
  intros H.
  repeat split;
    match goal with
    | |- String.eqb text ?l = false =>
        destruct (String.eqb_spec text l) as [-> |]; [discriminate H | reflexivity]
    end.
Qed.

(** The first steps of [newShape] for a non-empty label. *)
Lemma newShape_prelude (text : string) (fl : list (string * bool)) (gid : option Z)
    (self : MainWindow) (a : nat) (s : Shape) :
  String.eqb text "" = false ->
  last (canvas_shapes self) = Some a ->
  heap self !! a = Some s ->
  newShape text fl gid self =
    (go_on <- snap_new_shape text a ;;
     if go_on then addLabel a ;; modify updatePixmap else ret tt)
      (after_label text fl gid a s self).
Proof.
  intros Ht Hlast Hs. unfold newShape. rewrite Ht.
  assert (Hlt : (a < length (heap self))%nat) by (apply lookup_lt_Some in Hs; exact Hs).
  set (w0 := with_selectedItems [] self).
  set (w1 := with_heap (<[a := set_label s text fl]> (heap w0)) w0).
  rewrite (bind_ok _ _ self w0 tt) by reflexivity.
  assert (Hlab : setLastLabel text fl w0 = Ok a w1).
  { unfold setLastLabel. rewrite (bind_ok _ _ w0 w0 w0) by reflexivity.
    change (canvas_shapes w0) with (canvas_shapes self). rewrite Hlast.
    rewrite (bind_ok _ _ w0 w0 s) by (apply shape_at_ok; exact Hs).
    reflexivity. }
  rewrite (bind_ok _ _ _ _ _ Hlab).
  assert (Hs1 : heap w1 !! a = Some (set_label s text fl)).
  { apply list_lookup_insert_eq. exact Hlt. }
  rewrite (bind_ok _ _ _ _ _ (shape_at_ok _ _ _ Hs1)).
  unfold bind at 1. unfold modify at 1.
  unfold after_label, labelled, w1. cbn [heap with_heap].
  rewrite list_insert_insert_eq. reflexivity.
Qed.

Lemma heap_after_label (text : string) (fl : list (string * bool)) (gid : option Z)
    (self : MainWindow) (a : nat) (s : Shape) :
  heap self !! a = Some s ->
  heap (after_label text fl gid a s self) !! a = Some (labelled text fl gid s).
Proof.
  intros Hs. unfold after_label. cbn [heap with_heap].
  apply list_lookup_insert_eq. apply lookup_lt_Some in Hs. exact Hs.
Qed.

(** C10: when the drawn rectangle of a new rack contains no point, that is
    when [in_box_2d] answers a mask with no true entry, [newShape] returns
    right after labelling the drawn shape: no exception is raised, the box is
    neither tightened nor split, no shape is added to the label list, and
    every other shape is as it was. *)
Theorem newShape_rack_without_points (self : MainWindow) (text : string)
    (fl : list (string * bool)) (gid : option Z) (a : nat) (s : Shape)
    (p0 p1 : QPointF.t) (rest : list QPointF.t) :
  str_in "rack" text = true ->
  last (canvas_shapes self) = Some a ->
  heap self !! a = Some s ->
  points s = p0 :: p1 :: rest ->
  Forall (fun b : bool => b = false)
    (in_box_2d (pointcloud self) (qpointToPointcloud self p0, qpointToPointcloud self p1)) ->
  exists self' : MainWindow,
    newShape text fl gid self = Ok tt self' /\
    self' = after_label text fl gid a s self /\
    itemsToShapes self' = itemsToShapes self /\
    canvas_shapes self' = canvas_shapes self /\
    length (heap self') = length (heap self) /\
    (forall b, b <> a -> heap self' !! b = heap self !! b) /\
    heap self' !! a = Some (set_group_id (set_label s text fl) gid).
Proof.
  intros Hrack Hlast Hs Hpts Hmask.
  destruct (rack_label_other text Hrack) as (He & Hb & Hp & Hw & Hws).
  exists (after_label text fl gid a s self).
  split; [| split; [reflexivity | split; [reflexivity | split; [reflexivity | split; [| split]]]]].
  - rewrite (newShape_prelude text fl gid self a s He Hlast Hs).
    set (w := after_label text fl gid a s self).
    assert (Hsw : heap w !! a = Some (labelled text fl gid s))
      by (apply heap_after_label; exact Hs).
    assert (H0 : points (labelled text fl gid s) !! 0%nat = Some p0)
      by (cbn [labelled points set_group_id set_label]; rewrite Hpts; reflexivity).
    assert (H1 : points (labelled text fl gid s) !! 1%nat = Some p1)
      by (cbn [labelled points set_group_id set_label]; rewrite Hpts; reflexivity).
    assert (Hsum : np_sum (in_box_2d (pointcloud self)
                     (qpointToPointcloud self p0, qpointToPointcloud self p1)) = 0%nat).
    { unfold np_sum. induction Hmask as [| b l -> _ IH]; [reflexivity | exact IH]. }
    rewrite (bind_ok _ _ w w false); [reflexivity |].
    unfold snap_new_shape. rewrite Hb, Hp, Hw, Hws, Hrack. cbn [orb].
    rewrite (bind_ok _ _ w w tt) by reflexivity.
    rewrite (bind_ok _ _ _ _ _ (point_at_ok _ _ _ _ _ Hsw H0)).
    rewrite (bind_ok _ _ _ _ _ (point_at_ok _ _ _ _ _ Hsw H1)).
    rewrite (bind_ok _ _ w w w) by reflexivity.
    change (pointcloud w) with (pointcloud self).
    change (qpointToPointcloud w p0) with (qpointToPointcloud self p0).
    change (qpointToPointcloud w p1) with (qpointToPointcloud self p1).
    rewrite Hsum. reflexivity.
  - unfold after_label. cbn [heap with_heap]. apply length_insert.
  - intros b Hb'. unfold after_label. cbn [heap with_heap].
    apply list_lookup_insert_ne. congruence.
  - apply (heap_after_label text fl gid self a s Hs).
Qed.

Lemma newShape_rack_without_points_witness :
  exists self' : MainWindow,
    newShape "select_rack" [] None rack_drawn = Ok tt self' /\
    itemsToShapes self' = [].
Proof.
  destruct (newShape_rack_without_points rack_drawn "select_rack" [] None 0%nat
              (mkShape "" [QPointF.mk 0 10; QPointF.mk 10 5] "rectangle" None [])
              (QPointF.mk 0 10) (QPointF.mk 10 5) []
              eq_refl eq_refl eq_refl eq_refl
              ltac:(simpl; repeat constructor))
    as (self' & Hrun & _ & Hitems & _).
  exists self'. split; [exact Hrun | exact Hitems].
Defined.

Lemma newShape_finish (text : string) (a : nat) (w w' : MainWindow) :
  snap_new_shape text a w = Ok true w' ->
  (go_on <- snap_new_shape text a ;;
   if go_on then addLabel a ;; modify updatePixmap else ret tt) w
  = Ok tt (shape_listed a w').
Proof. intros H. rewrite (bind_ok _ _ _ _ _ H). reflexivity. Qed.

Lemma heap_shape_listed (a : nat) (w : MainWindow) : heap (shape_listed a w) = heap w.
Proof. unfold shape_listed. rewrite heap_updatePixmap. reflexivity. Qed.

Lemma itemsToShapes_shape_listed (a : nat) (w : MainWindow) :
  itemsToShapes (shape_listed a w) = itemsToShapes w ++ [a].
Proof. unfold shape_listed. rewrite itemsToShapes_updatePixmap. reflexivity. Qed.

(** The positions collected are those of the beams of the list, and of
    nothing else. *)
Lemma beam_positions_inv (l : list nat) :
  forall (w w' : MainWindow) (bs : list Point2),
  beam_positions l w = Ok bs w' ->
  forall c, c ∈ bs <-> listed_beam w l c.
Proof.
  induction l as [| a l IH]; intros w w' bs H c.
  - injection H as <- _. split.
    + intros Hc. inversion Hc.
    + intros (a & s & q & qs & Ha & _). inversion Ha.
  - cbn [beam_positions] in H.
    apply bind_inv in H as (s & w1 & Hs & H).
    apply shape_at_inv in Hs as [-> Hs].
    destruct (String.eqb_spec (label s) "beam") as [El | Nl].
    + apply bind_inv in H as (p & w2 & Hp & H).
      apply index_inv in Hp as [-> Hp].
      apply bind_inv in H as (self & w3 & Hg & H).
      injection Hg as <- <-.
      apply bind_inv in H as (rest & w4 & Hrest & H).
      pose proof (beam_positions_state _ _ _ _ Hrest) as ->.
      injection H as <- _.
      destruct (points s) as [| p' qs] eqn:Ep; [discriminate Hp |].
      injection Hp as ->.
      rewrite elem_of_cons, (IH _ _ _ Hrest). split.
      * intros [-> | (a' & s' & q & qs' & Ha' & Hrestc)].
        -- exists a, s, p, qs. repeat split; auto. left.
        -- exists a', s', q, qs'. split; [right; exact Ha' | exact Hrestc].
      * intros (a' & s' & q & qs' & Ha' & Hs' & Hl & Hq & ->).
        apply elem_of_cons in Ha' as [-> | Ha'].
        -- left. rewrite Hs in Hs'. injection Hs' as <-.
           rewrite Ep in Hq. injection Hq as <- _. reflexivity.
        -- right. exists a', s', q, qs'. repeat split; auto.
    + rewrite (IH _ _ _ H). split.
      * intros (a' & s' & q & qs' & Ha' & Hrestc).
        exists a', s', q, qs'. split; [right; exact Ha' | exact Hrestc].
      * intros (a' & s' & q & qs' & Ha' & Hs' & Hl & Hq & ->).
        apply elem_of_cons in Ha' as [-> | Ha'].
        -- rewrite Hs in Hs'. injection Hs' as <-. contradiction.
        -- exists a', s', q, qs'. repeat split; auto.
Qed.

(** With every listed shape in the store and a point in every listed beam,
    the beams are collected without an exception. *)
Lemma beam_positions_run (w : MainWindow) (l : list nat) :
  Forall (beam_has_point w) l -> exists bs, beam_positions l w = Ok bs w.
Proof.
  induction 1 as [| a l (s & Hs & Hp) _ (bs & IH)].
  - exists []. reflexivity.
  - cbn [beam_positions].
    rewrite (bind_ok _ _ _ _ _ (shape_at_ok _ _ _ Hs)).
    destruct (String.eqb_spec (label s) "beam") as [El | _].
    + destruct (points s) as [| p qs] eqn:Ep; [destruct (Hp El); reflexivity |].
      eexists.
      rewrite (bind_ok _ _ w w p) by reflexivity.
      rewrite (bind_ok _ _ w w w) by reflexivity.
      rewrite (bind_ok _ _ _ _ _ IH). reflexivity.
    + exists bs. exact IH.
Qed.

(** Where the loop of [nearestCrosshairIntersection] ends on each axis: on
    the coordinate of a beam that is within the threshold on that axis, and
    on the coordinate it started with when there is no such beam. *)
Lemma crosshair_of_coords (pxy : Point2) (thr : R) (beams : list Point2) :
  forall acc : Point2 * bool,
  let res := crosshair_of pxy thr beams acc in
  ((exists b, b ∈ beams /\ close_x thr pxy b /\ fst (fst res) = fst b) \/
   ((forall b, b ∈ beams -> ~ close_x thr pxy b) /\ fst (fst res) = fst (fst acc))) /\
  ((exists b, b ∈ beams /\ close_y thr pxy b /\ snd (fst res) = snd b) \/
   ((forall b, b ∈ beams -> ~ close_y thr pxy b) /\ snd (fst res) = snd (fst acc))).
Proof.
  unfold close_x, close_y.
  induction beams as [| b beams IH]; intros acc.
  - cbn [crosshair_of fold_left]. split; right; (split; [intros b Hb; inversion Hb | reflexivity]).
  - pose (acc1 := if Rltb (Rabs (fst b - fst pxy)) thr
                  then ((fst b, snd (fst acc)), true) else acc).
    pose (acc2 := if Rltb (Rabs (snd b - snd pxy)) thr
                  then ((fst (fst acc1), snd b), true) else acc1).
    cbv zeta.
    change (crosshair_of pxy thr (b :: beams) acc) with (crosshair_of pxy thr beams acc2).
    assert (Hx2 : (Rabs (fst b - fst pxy) < thr /\ fst (fst acc2) = fst b) \/
                  (~ Rabs (fst b - fst pxy) < thr /\ fst (fst acc2) = fst (fst acc))).
    { unfold acc2, acc1.
      destruct (Rlt_dec (Rabs (fst b - fst pxy)) thr) as [Hb | Hb];
        [rewrite (Rltb_true _ _ Hb) | rewrite (Rltb_false _ _ Hb)];
        destruct (Rltb (Rabs (snd b - snd pxy)) thr); cbn [fst snd]; auto. }
    assert (Hy2 : (Rabs (snd b - snd pxy) < thr /\ snd (fst acc2) = snd b) \/
                  (~ Rabs (snd b - snd pxy) < thr /\ snd (fst acc2) = snd (fst acc))).
    { unfold acc2, acc1.
      destruct (Rlt_dec (Rabs (snd b - snd pxy)) thr) as [Hb | Hb];
        [rewrite (Rltb_true _ _ Hb) | rewrite (Rltb_false _ _ Hb)];
        destruct (Rltb (Rabs (fst b - fst pxy)) thr); cbn [fst snd]; auto. }
    destruct (IH acc2) as [IHx IHy]. cbv zeta in IHx, IHy. split.
    + destruct IHx as [(b' & Hb' & Hn & E) | [Hnone E]].
      * left. exists b'. split; [right; exact Hb' | split; assumption].
      * destruct Hx2 as [[Hn E2] | [Hn E2]].
        -- left. exists b. split; [left | split; [exact Hn | rewrite E; exact E2]].
        -- right. split; [| rewrite E; exact E2].
           intros b' Hb'. apply elem_of_cons in Hb' as [-> | Hb']; [exact Hn | apply Hnone, Hb'].
    + destruct IHy as [(b' & Hb' & Hn & E) | [Hnone E]].
      * left. exists b'. split; [right; exact Hb' | split; assumption].
      * destruct Hy2 as [[Hn E2] | [Hn E2]].
        -- left. exists b. split; [left | split; [exact Hn | rewrite E; exact E2]].
        -- right. split; [| rewrite E; exact E2].
           intros b' Hb'. apply elem_of_cons in Hb' as [-> | Hb']; [exact Hn | apply Hnone, Hb'].
Qed.

(** The pole branch. *)
Lemma snap_pole (w : MainWindow) (a : nat) (s : Shape) (p : QPointF.t)
    (rest : list QPointF.t) :
  heap w !! a = Some s ->
  points s = p :: rest ->
  snap_new_shape "pole" a w =
    Ok true (with_heap (<[a := set_points s (center_snapped w p :: rest)]> (heap w)) w).
Proof.
  intros Hs Hpts.
  assert (H0 : points s !! 0%nat = Some p) by (rewrite Hpts; reflexivity).
  unfold snap_new_shape. cbn [String.eqb Ascii.eqb Bool.eqb].
  rewrite (bind_ok _ _ w w tt) by reflexivity.
  rewrite (bind_ok _ _ _ _ _ (point_at_ok _ _ _ _ _ Hs H0)).
  rewrite (bind_ok _ _ w w w) by reflexivity.
  rewrite (bind_ok _ _ _ _ _ (set_point_ok _ _ _ _ _ _ Hs H0)).
  rewrite Hpts. reflexivity.
Qed.

(** The wall branch. *)
Lemma snap_wall (w : MainWindow) (text : string) (a : nat) (s : Shape) :
  text = "wall"%string \/ text = "walls"%string ->
  heap w !! a = Some s ->
  snap_new_shape text a w =
    Ok true (with_heap (<[a := set_points s (map (corner_snapped w) (points s))]> (heap w)) w).
Proof.
  intros Ht Hs. unfold snap_new_shape.
  destruct Ht as [-> | ->]; cbn [String.eqb Ascii.eqb Bool.eqb orb];
    rewrite (bind_ok _ _ w w tt) by reflexivity;
    rewrite (bind_ok _ _ _ _ _ (shape_at_ok _ _ _ Hs));
    reflexivity.
Qed.

(** The beam branch: the crosshair of the beams already listed comes first. *)
Lemma snap_beam (w : MainWindow) (a : nat) (s : Shape) (p : QPointF.t)
    (rest : list QPointF.t) (ix : Point2) (hit : bool) :
  heap w !! a = Some s ->
  points s = p :: rest ->
  nearestCrosshairIntersection p 0.3 w = Ok (ix, hit) w ->
  snap_new_shape "beam" a w =
    Ok true
      (with_heap
         (<[a := set_points s
                   ((if hit then pointcloudToQpoint w ix else center_snapped w p) :: rest)]>
            (heap w)) w).
Proof.
  intros Hs Hpts Hnear.
  assert (H0 : points s !! 0%nat = Some p) by (rewrite Hpts; reflexivity).
  unfold snap_new_shape. cbn [String.eqb Ascii.eqb Bool.eqb].
  set (q := if hit then pointcloudToQpoint w ix else center_snapped w p).
  set (w' := with_heap (<[a := set_points s (<[0%nat := q]> (points s))]> (heap w)) w).
  rewrite (bind_ok _ _ w w' tt).
  - unfold w'. rewrite Hpts. reflexivity.
  - rewrite (bind_ok _ _ _ _ _ (point_at_ok _ _ _ _ _ Hs H0)).
    rewrite (bind_ok _ _ _ _ _ Hnear). cbn [snd fst].
    unfold w', q. destruct hit.
    + rewrite (bind_ok _ _ w w w) by reflexivity.
      apply (set_point_ok _ _ _ _ p); assumption.
    + rewrite (bind_ok _ _ _ _ _ (point_at_ok _ _ _ _ _ Hs H0)).
      rewrite (bind_ok _ _ w w w) by reflexivity.
      apply (set_point_ok _ _ _ _ p); assumption.
Qed.

(** The rack branch when the box holds points and is one rack. *)
Lemma snap_rack_single (w : MainWindow) (text : string) (a : nat) (s : Shape)
    (p0 p1 : QPointF.t) (rest : list QPointF.t) :
  str_in "rack" text = true ->
  heap w !! a = Some s ->
  points s = p0 :: p1 :: rest ->
  let pc := pointcloud w in
  let box := (qpointToPointcloud w p0, qpointToPointcloud w p1) in
  let tb := tighten_to_rack pc box in
  np_sum (in_box_2d pc box) <> 0%nat ->
  isTwoRacks text tb w = Ok false w ->
  snap_new_shape text a w =
    Ok true
      (with_heap
         (<[a := set_points s
                   (pointcloudToQpoint w (fst tb) :: pointcloudToQpoint w (snd tb) :: rest)]>
            (heap w)) w).
Proof.
  intros Hrack Hs Hpts pc box tb Hsum Htwo.
  destruct (rack_label_other text Hrack) as (He & Hb & Hp & Hw & Hws).
  assert (Hlt : (a < length (heap w))%nat) by (apply lookup_lt_Some in Hs; exact Hs).
  assert (H0 : points s !! 0%nat = Some p0) by (rewrite Hpts; reflexivity).
  assert (H1 : points s !! 1%nat = Some p1) by (rewrite Hpts; reflexivity).
  unfold snap_new_shape. rewrite Hb, Hp, Hw, Hws, Hrack. cbn [orb].
  rewrite (bind_ok _ _ w w tt) by reflexivity.
  rewrite (bind_ok _ _ _ _ _ (point_at_ok _ _ _ _ _ Hs H0)).
  rewrite (bind_ok _ _ _ _ _ (point_at_ok _ _ _ _ _ Hs H1)).
  rewrite (bind_ok _ _ w w w) by reflexivity.
  fold pc. fold box.
  destruct (Nat.eqb_spec (np_sum (in_box_2d pc box)) 0) as [E | _]; [contradiction |].
  fold tb. rewrite (bind_ok _ _ _ _ _ Htwo).
  rewrite (bind_ok _ _ w w tb) by reflexivity.
  set (q0 := pointcloudToQpoint w (fst tb)). set (q1 := pointcloudToQpoint w (snd tb)).
  set (s1 := set_points s (<[0%nat := q0]> (points s))).
  set (w1 := with_heap (<[a := s1]> (heap w)) w).
  rewrite (bind_ok _ _ w w1 tt) by (apply (set_point_ok _ _ _ _ p0); assumption).
  assert (Hs1 : heap w1 !! a = Some s1) by (apply list_lookup_insert_eq; exact Hlt).
  assert (H11 : points s1 !! 1%nat = Some p1)
    by (unfold s1; cbn [points set_points]; rewrite Hpts; reflexivity).
  rewrite (bind_ok _ _ _ _ _ (set_point_ok _ _ _ _ _ q1 Hs1 H11)).
  unfold ret, w1, s1. cbn [heap with_heap points set_points].
  rewrite list_insert_insert_eq, Hpts. reflexivity.
Qed.

(** The rack branch when the box holds points and is split in two. *)
Lemma snap_rack_double (w : MainWindow) (text : string) (a : nat) (s : Shape)
    (p0 p1 : QPointF.t) (rest : list QPointF.t) (b1 b2 : Box) :
  str_in "rack" text = true ->
  heap w !! a = Some s ->
  points s = p0 :: p1 :: rest ->
  let pc := pointcloud w in
  let box := (qpointToPointcloud w p0, qpointToPointcloud w p1) in
  let tb := tighten_to_rack pc box in
  np_sum (in_box_2d pc box) <> 0%nat ->
  isTwoRacks text tb w = Ok true w ->
  splitTwoRacks text tb w = Ok (b1, b2) w ->
  let box1 := tighten_to_rack pc b1 in
  let box2 := tighten_to_rack pc b2 in
  snap_new_shape text a w =
    Ok true
      (with_itemsToShapes (itemsToShapes w ++ [length (heap w)])
         (with_heap
            (<[a := set_points s
                      (pointcloudToQpoint w (fst box1) :: pointcloudToQpoint w (snd box1) :: rest)]>
               (heap w)
             ++ [set_points s
                   (pointcloudToQpoint w (fst box2) :: pointcloudToQpoint w (snd box2) :: rest)])
            w)).
Proof.
  intros Hrack Hs Hpts pc box tb Hsum Htwo Hsplit box1 box2.
  destruct (rack_label_other text Hrack) as (He & Hb & Hp & Hw & Hws).
  assert (Hlt : (a < length (heap w))%nat) by (apply lookup_lt_Some in Hs; exact Hs).
  assert (H0 : points s !! 0%nat = Some p0) by (rewrite Hpts; reflexivity).
  assert (H1 : points s !! 1%nat = Some p1) by (rewrite Hpts; reflexivity).
  unfold snap_new_shape. rewrite Hb, Hp, Hw, Hws, Hrack. cbn [orb].
  rewrite (bind_ok _ _ w w tt) by reflexivity.
  rewrite (bind_ok _ _ _ _ _ (point_at_ok _ _ _ _ _ Hs H0)).
  rewrite (bind_ok _ _ _ _ _ (point_at_ok _ _ _ _ _ Hs H1)).
  rewrite (bind_ok _ _ w w w) by reflexivity.
  fold pc. fold box.
  destruct (Nat.eqb_spec (np_sum (in_box_2d pc box)) 0) as [E | _]; [contradiction |].
  fold tb. rewrite (bind_ok _ _ _ _ _ Htwo).
  set (n := length (heap w)).
  set (q0 := pointcloudToQpoint w (fst box1)). set (q1 := pointcloudToQpoint w (snd box1)).
  set (r0 := pointcloudToQpoint w (fst box2)). set (r1 := pointcloudToQpoint w (snd box2)).
  (* the second rack *)
  set (w1 := with_heap (heap w ++ [s]) w).
  set (n1 := set_points s (<[0%nat := r0]> (points s))).
  set (w2 := with_heap (<[n := n1]> (heap w1)) w1).
  set (n2 := set_points n1 (<[1%nat := r1]> (points n1))).
  set (w3 := with_heap (<[n := n2]> (heap w2)) w2).
  set (w4 := with_itemsToShapes (itemsToShapes w3 ++ [n]) w3).
  assert (Hn1 : heap w1 !! n = Some s) by (apply list_lookup_middle; reflexivity).
  assert (Hn2 : heap w2 !! n = Some n1).
  { apply list_lookup_insert_eq. unfold w1. cbn [heap with_heap].
    rewrite length_app. simpl. unfold n. lia. }
  assert (Hn11 : points n1 !! 1%nat = Some p1)
    by (unfold n1; cbn [points set_points]; rewrite Hpts; reflexivity).
  assert (Hinner :
    (bb <- splitTwoRacks text tb ;;
     shape2 <- copy a ;;
     set_point shape2 0 (pointcloudToQpoint w (fst (tighten_to_rack pc (snd bb)))) ;;
     set_point shape2 1 (pointcloudToQpoint w (snd (tighten_to_rack pc (snd bb)))) ;;
     addLabel shape2 ;;
     ret (tighten_to_rack pc (fst bb))) w = Ok box1 w4).
  { rewrite (bind_ok _ _ _ _ _ Hsplit). cbn [fst snd]. fold box1 box2 r0 r1.
    rewrite (bind_ok _ _ _ _ _ (copy_ok _ _ _ Hs)). fold n w1.
    rewrite (bind_ok _ _ _ _ _ (set_point_ok _ _ _ _ _ r0 Hn1 H0)). fold n1 w2.
    rewrite (bind_ok _ _ _ _ _ (set_point_ok _ _ _ _ _ r1 Hn2 Hn11)). fold n2 w3.
    reflexivity. }
  rewrite (bind_ok _ _ _ _ _ Hinner).
  (* the first rack *)
  assert (Hne : a <> n) by (unfold n; lia).
  assert (Ha4 : heap w4 !! a = Some s).
  { unfold w4, w3, w2. cbn [heap with_heap with_itemsToShapes].
    rewrite !list_lookup_insert_ne by congruence.
    apply lookup_app_l_Some, Hs. }
  set (s1 := set_points s (<[0%nat := q0]> (points s))).
  set (w5 := with_heap (<[a := s1]> (heap w4)) w4).
  rewrite (bind_ok _ _ w4 w5 tt) by (apply (set_point_ok _ _ _ _ p0); assumption).
  assert (Hs5 : heap w5 !! a = Some s1).
  { apply list_lookup_insert_eq. apply lookup_lt_Some in Ha4. exact Ha4. }
  assert (H51 : points s1 !! 1%nat = Some p1)
    by (unfold s1; cbn [points set_points]; rewrite Hpts; reflexivity).
  rewrite (bind_ok _ _ _ _ _ (set_point_ok _ _ _ _ _ q1 Hs5 H51)).
  unfold ret. f_equal.
  unfold w5, w4, w3, w2, w1, s1, n2, n1.
  cbn [heap with_heap with_itemsToShapes itemsToShapes points set_points].
  rewrite Hpts. cbn [insert list_insert].
  rewrite !list_insert_insert_eq.
  rewrite (insert_app_r_alt _ _ n) by (unfold n; lia).
  unfold n. rewrite Nat.sub_diag. cbn [insert list_insert].
  rewrite insert_app_l by exact Hlt.
  reflexivity.
Qed.

Lemma isTwoRacks_config (w w' : MainWindow) (kind : string) (box : Box) (two : bool) :
  _config w' = _config w ->
  isTwoRacks kind box w = Ok two w -> isTwoRacks kind box w' = Ok two w'.
Proof.
  intros Hc. unfold isTwoRacks, bind, config, ret. rewrite Hc.
  destruct (_config w kind); [| discriminate].
  intros H. injection H as <-. reflexivity.
Qed.

Lemma splitTwoRacks_config (w w' : MainWindow) (kind : string) (box : Box) (bb : Box * Box) :
  _config w' = _config w ->
  splitTwoRacks kind box w = Ok bb w -> splitTwoRacks kind box w' = Ok bb w'.
Proof.
  intros Hc. unfold splitTwoRacks, bind, config, ret. rewrite Hc.
  destruct (_config w kind); [| discriminate].
  destruct (Rltb _ _); intros H; injection H as <-; reflexivity.
Qed.

Lemma beam_near_beam_crosshair :
  let w := after_label "beam" [] None 1
             (mkShape "" [QPointF.mk 1.1 5] "point" None []) beam_drawn_near_beam in
  nearestCrosshairIntersection (QPointF.mk 1.1 5) 0.3 w =
    Ok ((fst (qpointToPointcloud w (QPointF.mk 1 9)),
         snd (qpointToPointcloud w (QPointF.mk 1.1 5))), true) w.
Proof.
  intros w. unfold nearestCrosshairIntersection.
  rewrite (bind_ok _ _ w w w) by reflexivity.
  rewrite (bind_ok _ _ w w [qpointToPointcloud w (QPointF.mk 1 9)]) by reflexivity.
  rewrite (bind_ok _ _ w w w) by reflexivity.
  unfold ret. f_equal.
  cbn [fold_left fst snd].
  assert (Hx : Rltb (Rabs (fst (qpointToPointcloud w (QPointF.mk 1 9))
                           - fst (qpointToPointcloud w (QPointF.mk 1.1 5)))) 0.3 = true).
  { apply Rltb_true. unfold qpointToPointcloud. cbn. real_cmp. }
  assert (Hy : Rltb (Rabs (snd (qpointToPointcloud w (QPointF.mk 1 9))
                           - snd (qpointToPointcloud w (QPointF.mk 1.1 5)))) 0.3 = false).
  { apply Rltb_false. unfold qpointToPointcloud. cbn. real_cmp. }
  rewrite Hx. cbn [fst snd]. rewrite Hy. reflexivity.
Qed.

(** How a new shape is snapped, label by label:
    - ['pole']: the first point goes through [snap_to_center];
    - ['beam']: with the answer [(ix, hit)] of
      [nearestCrosshairIntersection], the point becomes [ix] on a hit and
      goes through [snap_to_center] otherwise;
    - ['wall'], ['walls']: every vertex goes through [snap_to_corner];
    - a label containing ['rack'] whose box holds at least one point: the
      two corners become those of [tighten_to_rack] of the box, or of its
      first half when [isTwoRacks] holds, the second half becoming a new
      rack; no vertex goes through a snapping function.
    In each case the shape then joins the label list. *)
Theorem newShape_dispatch (self : MainWindow) (fl : list (string * bool))
    (gid : option Z) (a : nat) (s : Shape) :
  last (canvas_shapes self) = Some a ->
  heap self !! a = Some s ->
  (forall p rest, points s = p :: rest ->
     exists self',
       newShape "pole" fl gid self = Ok tt self' /\
       heap self' !! a =
         Some (set_points (labelled "pole" fl gid s) (center_snapped self p :: rest)) /\
       itemsToShapes self' = itemsToShapes self ++ [a])
  /\
  (forall p rest ix hit, points s = p :: rest ->
     nearestCrosshairIntersection p 0.3 (after_label "beam" fl gid a s self)
       = Ok (ix, hit) (after_label "beam" fl gid a s self) ->
     exists self',
       newShape "beam" fl gid self = Ok tt self' /\
       heap self' !! a =
         Some (set_points (labelled "beam" fl gid s)
                 ((if hit then pointcloudToQpoint self ix else center_snapped self p) :: rest)) /\
       itemsToShapes self' = itemsToShapes self ++ [a])
  /\
  (forall text, text = "wall"%string \/ text = "walls"%string ->
     exists self',
       newShape text fl gid self = Ok tt self' /\
       heap self' !! a =
         Some (set_points (labelled text fl gid s) (map (corner_snapped self) (points s))) /\
       itemsToShapes self' = itemsToShapes self ++ [a])
  /\
  (forall text p0 p1 rest, str_in "rack" text = true -> points s = p0 :: p1 :: rest ->
     let pc := pointcloud self in
     let box := (qpointToPointcloud self p0, qpointToPointcloud self p1) in
     let tb := tighten_to_rack pc box in
     np_sum (in_box_2d pc box) <> 0%nat ->
     (isTwoRacks text tb self = Ok false self ->
      exists self',
        newShape text fl gid self = Ok tt self' /\
        heap self' !! a =
          Some (set_points (labelled text fl gid s)
                  (pointcloudToQpoint self (fst tb) :: pointcloudToQpoint self (snd tb) :: rest)) /\
        itemsToShapes self' = itemsToShapes self ++ [a])
     /\
     (forall b1 b2,
        isTwoRacks text tb self = Ok true self ->
        splitTwoRacks text tb self = Ok (b1, b2) self ->
        let box1 := tighten_to_rack pc b1 in
        let box2 := tighten_to_rack pc b2 in
        exists self',
          newShape text fl gid self = Ok tt self' /\
          heap self' !! a =
            Some (set_points (labelled text fl gid s)
                    (pointcloudToQpoint self (fst box1)
                       :: pointcloudToQpoint self (snd box1) :: rest)) /\
          heap self' !! length (heap self) =
            Some (set_points (labelled text fl gid s)
                    (pointcloudToQpoint self (fst box2)
                       :: pointcloudToQpoint self (snd box2) :: rest)) /\
          itemsToShapes self' = itemsToShapes self ++ [length (heap self); a])).
Proof.
  intros Hlast Hs.
  assert (Hlt : (a < length (heap self))%nat) by (apply lookup_lt_Some in Hs; exact Hs).
  assert (Hw : forall text, heap (after_label text fl gid a s self) !! a
                            = Some (labelled text fl gid s))
    by (intros text; apply heap_after_label; exact Hs).
  assert (Hlen : forall text, length (heap (after_label text fl gid a s self))
                              = length (heap self))
    by (intros text; unfold after_label; cbn [heap with_heap]; apply length_insert).
  split; [| split; [| split]].
  - intros p rest Hpts.
    eexists. split; [| split].
    + rewrite (newShape_prelude "pole" fl gid self a s eq_refl Hlast Hs).
      apply newShape_finish. apply (snap_pole _ _ _ p rest (Hw _) Hpts).
    + rewrite heap_shape_listed. cbn [heap with_heap].
      apply list_lookup_insert_eq. rewrite Hlen. exact Hlt.
    + rewrite itemsToShapes_shape_listed. reflexivity.
  - intros p rest ix hit Hpts Hnear.
    eexists. split; [| split].
    + rewrite (newShape_prelude "beam" fl gid self a s eq_refl Hlast Hs).
      apply newShape_finish. apply (snap_beam _ _ _ p rest ix hit (Hw _) Hpts Hnear).
    + rewrite heap_shape_listed. cbn [heap with_heap].
      apply list_lookup_insert_eq. rewrite Hlen. exact Hlt.
    + rewrite itemsToShapes_shape_listed. reflexivity.
  - intros text Ht.
    assert (He : String.eqb text "" = false) by (destruct Ht as [-> | ->]; reflexivity).
    eexists. split; [| split].
    + rewrite (newShape_prelude text fl gid self a s He Hlast Hs).
      apply newShape_finish. apply (snap_wall _ _ _ _ Ht (Hw _)).
    + rewrite heap_shape_listed. cbn [heap with_heap].
      apply list_lookup_insert_eq. rewrite Hlen. exact Hlt.
    + rewrite itemsToShapes_shape_listed. reflexivity.
  - intros text p0 p1 rest Hrack Hpts pc box tb Hsum.
    destruct (rack_label_other text Hrack) as (He & _).
    set (w := after_label text fl gid a s self).
    split.
    + intros Htwo.
      eexists. split; [| split].
      * rewrite (newShape_prelude text fl gid self a s He Hlast Hs).
        apply newShape_finish.
        apply (snap_rack_single w text a _ p0 p1 rest Hrack (Hw _) Hpts Hsum).
        apply (isTwoRacks_config self w); [reflexivity | exact Htwo].
      * rewrite heap_shape_listed. cbn [heap with_heap]. unfold w.
        apply list_lookup_insert_eq. rewrite Hlen. exact Hlt.
      * rewrite itemsToShapes_shape_listed. reflexivity.
    + intros b1 b2 Htwo Hsplit box1 box2.
      eexists. split; [| split; [| split]].
      * rewrite (newShape_prelude text fl gid self a s He Hlast Hs).
        apply newShape_finish.
        apply (snap_rack_double w text a _ p0 p1 rest b1 b2 Hrack (Hw _) Hpts Hsum).
        -- apply (isTwoRacks_config self w); [reflexivity | exact Htwo].
        -- apply (splitTwoRacks_config self w); [reflexivity | exact Hsplit].
      * rewrite heap_shape_listed. cbn [heap with_heap]. unfold w.
        apply lookup_app_l_Some.
        apply list_lookup_insert_eq. rewrite Hlen. exact Hlt.
      * rewrite heap_shape_listed. cbn [heap with_heap]. unfold w.
        rewrite <- (Hlen text).
        apply list_lookup_middle. rewrite length_insert. reflexivity.
      * rewrite itemsToShapes_shape_listed.
        cbn [itemsToShapes with_itemsToShapes with_heap]. unfold w.
        rewrite Hlen, <- app_assoc. reflexivity.
Qed.

Lemma newShape_dispatch_witness :
  exists self',
    newShape "pole" [] None beam_drawn_near_beam = Ok tt self' /\
    itemsToShapes self' = [0%nat; 1%nat].
Proof.
  destruct (newShape_dispatch beam_drawn_near_beam [] None 1%nat
              (mkShape "" [QPointF.mk 1.1 5] "point" None []) eq_refl eq_refl)
    as (Hpole & _).
  destruct (Hpole (QPointF.mk 1.1 5) [] eq_refl) as (self' & Hrun & _ & Hitems).
  exists self'. split; [exact Hrun | exact Hitems].
Defined.

(** A beam drawn at the world point (1.1, 5) while a beam stands at (1, 1)
    ends at (1, 5), on the crosshair of the listed beam, where
    [snap_to_center] of the drawn point is (1.1, 5). *)
Lemma newShape_beam_not_center_snapped :
  exists self' s',
    newShape "beam" [] None beam_drawn_near_beam = Ok tt self' /\
    heap self' !! 1%nat = Some s' /\
    map (qpointToPointcloud self') (points s') = [(1, 5)] /\
    snap_to_center (pointcloud beam_drawn_near_beam)
      (qpointToPointcloud beam_drawn_near_beam (QPointF.mk 1.1 5)) 0.5 = (1.1, 5) /\
    map (qpointToPointcloud self') (points s')
      <> [snap_to_center (pointcloud beam_drawn_near_beam)
            (qpointToPointcloud beam_drawn_near_beam (QPointF.mk 1.1 5)) 0.5].
Proof.
  set (s := mkShape "" [QPointF.mk 1.1 5] "point" None []).
  set (w := after_label "beam" [] None 1 s beam_drawn_near_beam).
  assert (Hrun : newShape "beam" [] None beam_drawn_near_beam =
                 Ok tt (shape_listed 1
                   (with_heap
                      (<[1%nat := set_points (labelled "beam" [] None s)
                          [pointcloudToQpoint w
                             (fst (qpointToPointcloud w (QPointF.mk 1 9)),
                              snd (qpointToPointcloud w (QPointF.mk 1.1 5)))]]>
                         (heap w)) w))).
  { rewrite (newShape_prelude "beam" [] None beam_drawn_near_beam 1 s eq_refl eq_refl eq_refl).
    apply newShape_finish.
    apply (snap_beam w 1 (labelled "beam" [] None s) (QPointF.mk 1.1 5) [] _ true
             eq_refl eq_refl beam_near_beam_crosshair). }
  assert (Hsnap : snap_to_center (pointcloud beam_drawn_near_beam)
            (qpointToPointcloud beam_drawn_near_beam (QPointF.mk 1.1 5)) 0.5 = (1.1, 5)).
  { unfold qpointToPointcloud. cbn. f_equal; lra. }
  eexists _, _. split; [exact Hrun |].
  split; [rewrite heap_shape_listed; reflexivity |].
  assert (Hpt : map (qpointToPointcloud beam_drawn_near_beam)
            [pointcloudToQpoint w
               (fst (qpointToPointcloud w (QPointF.mk 1 9)),
                snd (qpointToPointcloud w (QPointF.mk 1.1 5)))] = [(1, 5)]).
  { unfold qpointToPointcloud, pointcloudToQpoint. cbn. repeat f_equal; lra. }
  split; [exact Hpt |]. split; [exact Hsnap |].
  rewrite Hsnap.
  change (map (qpointToPointcloud beam_drawn_near_beam)
            [pointcloudToQpoint w
               (fst (qpointToPointcloud w (QPointF.mk 1 9)),
                snd (qpointToPointcloud w (QPointF.mk 1.1 5)))] <> [(1.1, 5)]).
  rewrite Hpt. intros E. injection E as E. lra.
Qed.

(** With every listed shape in the store and a point in every listed beam,
    [nearestCrosshairIntersection] returns what its loop computes from the
    beams of the label list. *)
Lemma nearestCrosshairIntersection_run (w : MainWindow) (point : QPointF.t) (thr : R) :
  Forall (beam_has_point w) (itemsToShapes w) ->
  exists beams : list Point2,
    (forall c, c ∈ beams <-> listed_beam w (itemsToShapes w) c) /\
    nearestCrosshairIntersection point thr w =
      Ok (crosshair_of (qpointToPointcloud w point) thr beams
            (qpointToPointcloud w point, false)) w.
Proof.
  intros Hwf. destruct (beam_positions_run w _ Hwf) as (beams & Hb).
  exists beams. split; [exact (beam_positions_inv _ _ _ _ Hb) |].
  unfold nearestCrosshairIntersection.
  rewrite (bind_ok _ _ w w w) by reflexivity.
  rewrite (bind_ok _ _ _ _ _ Hb).
  rewrite (bind_ok _ _ w w w) by reflexivity.
  reflexivity.
Qed.

(** Labelling the drawn shape, which is not in the label list yet, changes
    nothing about the listed beams. *)
Lemma listed_beam_after_label (text : string) (fl : list (string * bool)) (gid : option Z)
    (self : MainWindow) (a : nat) (s : Shape) (l : list nat) (c : Point2) :
  a ∉ l ->
  listed_beam (after_label text fl gid a s self) l c <-> listed_beam self l c.
Proof.
  intros Ha. unfold listed_beam, after_label. cbn [heap with_heap].
  split; intros (b & sb & q & qs & Hb & Hsb & Hrest);
    exists b, sb, q, qs; (split; [exact Hb |]); (split; [| exact Hrest]);
    assert (Hne : a <> b) by (intros ->; exact (Ha Hb)).
  - rewrite list_lookup_insert_ne in Hsb by exact Hne. exact Hsb.
  - rewrite list_lookup_insert_ne by exact Hne. exact Hsb.
Qed.

Lemma beam_has_point_after_label (text : string) (fl : list (string * bool))
    (gid : option Z) (self : MainWindow) (a : nat) (s : Shape) (l : list nat) :
  a ∉ l ->
  Forall (beam_has_point self) l ->
  Forall (beam_has_point (after_label text fl gid a s self)) l.
Proof.
  intros Ha Hwf. rewrite Forall_forall in Hwf |- *.
  intros b Hb. destruct (Hwf b Hb) as (sb & Hsb & Hp).
  exists sb. split; [| exact Hp].
  unfold after_label. cbn [heap with_heap].
  rewrite list_lookup_insert_ne by (intros ->; exact (Ha Hb)). exact Hsb.
Qed.

(** C7: a new ['beam'] does not go through [snap_to_center] when a beam of
    the label list stands within 0.3 world units of it on the x axis or on
    the y axis.  [newShape] then sets its point to the position [ix] that
    [nearestCrosshairIntersection] builds from the drawn point and the listed
    beams only: on each axis the coordinate of a listed beam that is within
    0.3 on that axis, and the coordinate of the drawn point itself when no
    listed beam is.  The shape joins the label list with that point. *)
Theorem newShape_beam_takes_crosshair (self : MainWindow) (fl : list (string * bool))
    (gid : option Z) (a : nat) (s : Shape) (p : QPointF.t) (rest : list QPointF.t)
    (c : Point2) :
  last (canvas_shapes self) = Some a ->
  heap self !! a = Some s ->
  points s = p :: rest ->
  a ∉ itemsToShapes self ->
  Forall (beam_has_point self) (itemsToShapes self) ->
  let l := itemsToShapes self in
  let pxy := qpointToPointcloud self p in
  listed_beam self l c ->
  close_x 0.3 pxy c \/ close_y 0.3 pxy c ->
  exists (self' : MainWindow) (ix : Point2),
    newShape "beam" fl gid self = Ok tt self' /\
    heap self' !! a =
      Some (set_points (labelled "beam" fl gid s) (pointcloudToQpoint self ix :: rest)) /\
    itemsToShapes self' = l ++ [a] /\
    ((exists b, listed_beam self l b /\ close_x 0.3 pxy b /\ fst ix = fst b) \/
     ((forall b, listed_beam self l b -> ~ close_x 0.3 pxy b) /\ fst ix = fst pxy)) /\
    ((exists b, listed_beam self l b /\ close_y 0.3 pxy b /\ snd ix = snd b) \/
     ((forall b, listed_beam self l b -> ~ close_y 0.3 pxy b) /\ snd ix = snd pxy)).
Proof.
  intros Hlast Hs Hpts Hnew Hwf l pxy Hc Hclose.
  assert (Hlt : (a < length (heap self))%nat) by (apply lookup_lt_Some in Hs; exact Hs).
  set (w := after_label "beam" fl gid a s self).
  assert (Hw : heap w !! a = Some (labelled "beam" fl gid s))
    by (apply heap_after_label; exact Hs).
  assert (Hwfw : Forall (beam_has_point w) (itemsToShapes w))
    by (apply beam_has_point_after_label; assumption).
  destruct (nearestCrosshairIntersection_run w p 0.3 Hwfw) as (beams & Hbeams & Hnear).
  change (qpointToPointcloud w p) with pxy in Hnear.
  change (itemsToShapes w) with l in Hbeams.
  assert (Hlisted : forall b, b ∈ beams <-> listed_beam self l b).
  { intros b. rewrite Hbeams. apply listed_beam_after_label. exact Hnew. }
  set (res := crosshair_of pxy 0.3 beams (pxy, false)) in *.
  assert (Hhit : snd res = true).
  { assert (Hthr : 0 < 0.3) by lra.
    destruct (crosshair_fold pxy 0.3 beams (pxy, false)) as (_ & _ & _ & Rh).
    - cbn [fst snd]. rewrite Rminus_diag, Rabs_R0. exact Hthr.
    - cbn [fst snd]. rewrite Rminus_diag, Rabs_R0. exact Hthr.
    - reflexivity.
    - apply Rh. right. apply Exists_exists. exists c.
      split; [apply Hlisted, Hc | exact Hclose]. }
  destruct (crosshair_of_coords pxy 0.3 beams (pxy, false)) as [Hx Hy].
  cbv zeta in Hx, Hy. fold res in Hx, Hy. cbn [fst snd] in Hx, Hy.
  exists (shape_listed a
            (with_heap
               (<[a := set_points (labelled "beam" fl gid s)
                         (pointcloudToQpoint w (fst res) :: rest)]> (heap w)) w)),
    (fst res).
  split; [| split; [| split; [| split]]].
  - rewrite (newShape_prelude "beam" fl gid self a s eq_refl Hlast Hs).
    apply newShape_finish. fold w.
    rewrite (snap_beam w a (labelled "beam" fl gid s) p rest (fst res) (snd res) Hw Hpts).
    + rewrite Hhit. reflexivity.
    + rewrite Hnear. destruct res; reflexivity.
  - rewrite heap_shape_listed. cbn [heap with_heap].
    apply list_lookup_insert_eq. unfold w, after_label. cbn [heap with_heap].
    rewrite length_insert. exact Hlt.
  - rewrite itemsToShapes_shape_listed. reflexivity.
  - destruct Hx as [(b & Hb & Hn & E) | [Hnone E]].
    + left. exists b. split; [apply Hlisted, Hb | split; assumption].
    + right. split; [| exact E]. intros b Hb. apply Hnone, Hlisted, Hb.
  - destruct Hy as [(b & Hb & Hn & E) | [Hnone E]].
    + left. exists b. split; [apply Hlisted, Hb | split; assumption].
    + right. split; [| exact E]. intros b Hb. apply Hnone, Hlisted, Hb.
Qed.

(** The drawn beam at the world point (1.1, 5), with a beam listed at
    (1, 1): the new beam ends at (1, 5), where [snap_to_center] of the drawn
    point is (1.1, 5). *)
Lemma newShape_beam_takes_crosshair_witness :
  exists (self' : MainWindow) (ix : Point2),
    newShape "beam" [] None beam_drawn_near_beam = Ok tt self' /\
    heap self' !! 1%nat =
      Some (set_points
              (labelled "beam" [] None (mkShape "" [QPointF.mk 1.1 5] "point" None []))
              [pointcloudToQpoint beam_drawn_near_beam ix]) /\
    ix = (1, 5) /\
    snap_to_center (pointcloud beam_drawn_near_beam)
      (qpointToPointcloud beam_drawn_near_beam (QPointF.mk 1.1 5)) 0.5 <> ix.
Proof.
  assert (Hnew : 1%nat ∉ itemsToShapes beam_drawn_near_beam).
  { intros H. apply list_elem_of_singleton in H. discriminate. }
  assert (Hwf : Forall (beam_has_point beam_drawn_near_beam)
                  (itemsToShapes beam_drawn_near_beam)).
  { repeat constructor. exists (beam_shape 1 9). split; [reflexivity |]. discriminate. }
  assert (Hc : listed_beam beam_drawn_near_beam (itemsToShapes beam_drawn_near_beam)
                 (qpointToPointcloud beam_drawn_near_beam (QPointF.mk 1 9))).
  { exists 0%nat, (beam_shape 1 9), (QPointF.mk 1 9), [].
    split; [left |]. repeat split. }
  assert (Hclose : close_x 0.3 (qpointToPointcloud beam_drawn_near_beam (QPointF.mk 1.1 5))
                     (qpointToPointcloud beam_drawn_near_beam (QPointF.mk 1 9))).
  { unfold close_x, qpointToPointcloud. cbn. real_cmp. }
  assert (Hinv : forall b,
            listed_beam beam_drawn_near_beam (itemsToShapes beam_drawn_near_beam) b ->
            b = qpointToPointcloud beam_drawn_near_beam (QPointF.mk 1 9)).
  { intros b (a' & s' & q & qs & Ha' & Hs' & _ & Hq & ->).
    apply list_elem_of_singleton in Ha'. subst a'.
    injection Hs' as <-. injection Hq as <- _. reflexivity. }
  destruct (newShape_beam_takes_crosshair beam_drawn_near_beam [] None 1%nat
              (mkShape "" [QPointF.mk 1.1 5] "point" None []) (QPointF.mk 1.1 5) [] _
              eq_refl eq_refl eq_refl Hnew Hwf Hc (or_introl Hclose))
    as (self' & ix & Hrun & Hheap & _ & Hx & Hy).
  assert (E : ix = (1, 5)).
  { destruct ix as [ix1 ix2]. cbn [fst snd] in Hx, Hy.
    destruct Hx as [(b & Hb & _ & Ex) | [Hnone _]].
    - apply Hinv in Hb. subst b.
      destruct Hy as [(b & Hb & Hn & _) | [_ Ey]].
      + apply Hinv in Hb. subst b. exfalso. revert Hn.
        unfold close_y, qpointToPointcloud. cbn. real_cmp.
      + revert Ex Ey. unfold qpointToPointcloud. cbn. intros -> ->. f_equal; lra.
    - exfalso. exact (Hnone _ Hc Hclose). }
  exists self', ix. split; [exact Hrun |]. split; [exact Hheap |]. split; [exact E |].
  rewrite E. unfold qpointToPointcloud. cbn. intros H. injection H as H _. lra.
Defined.

(** ** Splitting racks at beams *)

Lemma splitRack_run_state (containsPoint : Shape -> QPointF.t -> bool) (self : MainWindow)
    (pos : QPointRef) (p : QPointF.t) (r : nat) (rk : Shape) (p0 p1 : QPointF.t)
    (rest : list QPointF.t) :
  heap self !! r = Some rk ->
  points rk = p0 :: p1 :: rest ->
  points_to self pos p ->
  ref_avoids pos r ->
  splitRack containsPoint (Some pos) (Some r) self = Ok tt (split_state self r rk p0 p1 rest p).
Proof. intros. unfold split_state. apply splitRack_run; assumption. Qed.

(** A list entry that is not a beam is passed over. *)
Lemma splitRacks_beam_other (containsPoint : Shape -> QPointF.t -> bool) (w : MainWindow)
    (rack : nat) (x_dim y_dim x_c y_c : R) (a : nat) (s : Shape) :
  heap w !! a = Some s ->
  label s <> "beam"%string ->
  splitRacks_beam containsPoint rack x_dim y_dim x_c y_c a w = Ok tt w.
Proof.
  intros Hs Hl. unfold splitRacks_beam.
  rewrite (bind_ok _ _ _ _ _ (shape_at_ok _ _ _ Hs)).
  destruct (String.eqb_spec (label s) "beam"); [contradiction | reflexivity].
Qed.

(** The body of the inner loop on a beam. *)
Lemma splitRacks_beam_run (containsPoint : Shape -> QPointF.t -> bool) (w : MainWindow)
    (x_dim y_dim x_c y_c : R)
    (rack a : nat) (rk bm : Shape) (r0 r1 b : QPointF.t) (rs bs : list QPointF.t) :
  a <> rack ->
  heap w !! rack = Some rk -> points rk = r0 :: r1 :: rs ->
  heap w !! a = Some bm -> label bm = "beam"%string -> points bm = b :: bs ->
  splitRacks_beam containsPoint rack x_dim y_dim x_c y_c a w =
    if within_x r0 r1 b then
      if near_line y_c (QPointF.y b) y_dim then
        Ok tt (split_state (beam_moved w a bm (QPointF.setY b y_c) bs) rack rk r0 r1 rs
                 (QPointF.setY b y_c))
      else Ok tt w
    else if within_y r0 r1 b then
      if near_line x_c (QPointF.x b) x_dim then
        Ok tt (split_state (beam_moved w a bm (QPointF.setX b x_c) bs) rack rk r0 r1 rs
                 (QPointF.setX b x_c))
      else Ok tt w
    else Ok tt w.
Proof.
  intros Hne HR HRp HB HBl HBp.
  assert (Hlt : (a < length (heap w))%nat) by (apply lookup_lt_Some in HB; exact HB).
  assert (R0 : points rk !! 0%nat = Some r0) by (rewrite HRp; reflexivity).
  assert (R1 : points rk !! 1%nat = Some r1) by (rewrite HRp; reflexivity).
  assert (B0 : points bm !! 0%nat = Some b) by (rewrite HBp; reflexivity).
  assert (Hmove : forall b',
            with_heap (<[a := set_points bm (<[0%nat := b']> (points bm))]> (heap w)) w
            = beam_moved w a bm b' bs).
  { intros b'. unfold beam_moved. rewrite HBp. reflexivity. }
  assert (Hsplit : forall b',
            splitRack containsPoint (Some (Held a 0)) (Some rack) (beam_moved w a bm b' bs)
            = Ok tt (split_state (beam_moved w a bm b' bs) rack rk r0 r1 rs b')).
  { intros b'. apply splitRack_run_state.
    - unfold beam_moved. cbn [heap with_heap].
      rewrite list_lookup_insert_ne by exact Hne. exact HR.
    - exact HRp.
    - exists (set_points bm (b' :: bs)). split; [| reflexivity].
      unfold beam_moved. cbn [heap with_heap].
      apply list_lookup_insert_eq. exact Hlt.
    - exact Hne. }
  unfold splitRacks_beam.
  rewrite (bind_ok _ _ _ _ _ (shape_at_ok _ _ _ HB)).
  rewrite HBl. cbn [String.eqb Ascii.eqb Bool.eqb].
  rewrite (bind_ok _ _ _ _ _ (point_at_ok _ _ _ _ _ HR R0)).
  rewrite (bind_ok _ _ _ _ _ (point_at_ok _ _ _ _ _ HB B0)).
  rewrite (bind_ok _ _ _ _ _ (point_at_ok _ _ _ _ _ HR R1)).
  fold (within_x r0 r1 b). fold (within_y r0 r1 b).
  fold (near_line y_c (QPointF.y b) y_dim). fold (near_line x_c (QPointF.x b) x_dim).
  destruct (within_x r0 r1 b).
  - destruct (near_line y_c (QPointF.y b) y_dim); [| reflexivity].
    rewrite (bind_ok _ _ _ _ _ (point_setY_ok _ _ _ _ _ y_c HB B0)).
    rewrite Hmove. apply Hsplit.
  - destruct (within_y r0 r1 b); [| reflexivity].
    destruct (near_line x_c (QPointF.x b) x_dim); [| reflexivity].
    rewrite (bind_ok _ _ _ _ _ (point_setX_ok _ _ _ _ _ x_c HB B0)).
    rewrite Hmove. apply Hsplit.
Qed.

(** The traversal passes over a stretch of [k] entries that are not beams. *)
Lemma splitRacks_beams_skip (containsPoint : Shape -> QPointF.t -> bool)
    (rack : nat) (x_dim y_dim x_c y_c : R) (w : MainWindow) :
  forall (k fuel i : nat),
  (forall j a, (i <= j < i + k)%nat -> itemsToShapes w !! j = Some a -> not_a_beam w a) ->
  (i + k <= length (itemsToShapes w))%nat ->
  splitRacks_beams containsPoint (k + fuel) rack x_dim y_dim x_c y_c i w
  = splitRacks_beams containsPoint fuel rack x_dim y_dim x_c y_c (i + k) w.
Proof.
  induction k as [| k IH]; intros fuel i Hothers Hlen.
  - rewrite Nat.add_0_r. reflexivity.
  - cbn [Nat.add splitRacks_beams].
    rewrite (bind_ok _ _ w w w) by reflexivity.
    destruct (lookup_lt_is_Some_2 (itemsToShapes w) i) as [a Ha]; [lia |].
    rewrite Ha.
    destruct (Hothers i a) as (s & Hs & Hl); [lia | exact Ha |].
    rewrite (bind_ok _ _ _ _ _
               (splitRacks_beam_other containsPoint w rack x_dim y_dim x_c y_c a s Hs Hl)).
    rewrite IH.
    + f_equal. lia.
    + intros j a' Hj. apply Hothers. lia.
    + lia.
Qed.

(** The traversal ends when only entries that are not beams are left. *)
Lemma splitRacks_beams_tail (containsPoint : Shape -> QPointF.t -> bool)
    (rack : nat) (x_dim y_dim x_c y_c : R) (w : MainWindow) (fuel i : nat) :
  (forall j a, (i <= j)%nat -> itemsToShapes w !! j = Some a -> not_a_beam w a) ->
  (length (itemsToShapes w) - i < fuel)%nat ->
  splitRacks_beams containsPoint fuel rack x_dim y_dim x_c y_c i w = Ok tt w.
Proof.
  intros Hothers Hfuel.
  destruct (Nat.le_gt_cases (length (itemsToShapes w)) i) as [Hout | Hin].
  - destruct fuel as [| fuel]; [lia |].
    cbn [splitRacks_beams]. rewrite (bind_ok _ _ w w w) by reflexivity.
    rewrite (proj2 (lookup_ge_None _ _) Hout). reflexivity.
  - replace fuel with ((length (itemsToShapes w) - i) + (fuel - (length (itemsToShapes w) - i)))%nat
      by lia.
    rewrite splitRacks_beams_skip.
    + destruct (fuel - (length (itemsToShapes w) - i))%nat as [| f] eqn:E; [lia |].
      cbn [splitRacks_beams]. rewrite (bind_ok _ _ w w w) by reflexivity.
      rewrite (proj2 (lookup_ge_None _ _)) by lia. reflexivity.
    + intros j a Hj. apply Hothers. lia.
    + lia.
Qed.

Lemma within_x_spec (r0 r1 b : QPointF.t) :
  within_x r0 r1 b = true <-> QPointF.x r0 < QPointF.x b < QPointF.x r1.
Proof. unfold within_x. rewrite andb_true_iff, !Rltb_lt. tauto. Qed.

Lemma within_y_spec (r0 r1 b : QPointF.t) :
  within_y r0 r1 b = true <-> QPointF.y r0 < QPointF.y b < QPointF.y r1.
Proof. unfold within_y. rewrite andb_true_iff, !Rltb_lt. tauto. Qed.

Lemma near_line_spec (c v dim : R) :
  near_line c v dim = true <-> Rabs (c - v) < dim / 2 + 2.
Proof.
  unfold near_line. rewrite Rltb_lt.
  replace (dim / 2.0 + 2.0) with (dim / 2 + 2) by lra. tauto.
Qed.

Lemma Forall2_impl_elem {A B : Type} (P Q : A -> B -> Prop) (l : list A) (k : list B) :
  Forall2 P l k -> (forall x y, x ∈ l -> P x y -> Q x y) -> Forall2 Q l k.
Proof.
  induction 1 as [| x y l k Hxy _ IH]; intros Himp; constructor.
  - apply Himp; [left | exact Hxy].
  - apply IH. intros x' y' Hx'. apply Himp. right. exact Hx'.
Qed.

Lemma Forall2_elem_l {A B : Type} (P : A -> B -> Prop) (l : list A) (k : list B) (x : A) :
  Forall2 P l k -> x ∈ l -> exists y, P x y.
Proof.
  induction 1 as [| x' y l k Hxy _ IH]; intros Hx; [inversion Hx |].
  apply elem_of_cons in Hx as [-> | Hx]; [exists y; exact Hxy | apply IH, Hx].
Qed.

Lemma racks_in_state (l : list nat) :
  forall (w w' : MainWindow) (racks : list nat),
  racks_in l w = Ok racks w' -> w' = w.
Proof.
  induction l as [| a l IH]; intros w w' racks H.
  - injection H as _ <-. reflexivity.
  - cbn [racks_in] in H.
    apply bind_inv in H as (s & w1 & Hs & H).
    apply shape_at_inv in Hs as [-> _].
    apply bind_inv in H as (rest & w2 & Hrest & H).
    apply IH in Hrest as ->. injection H as _ <-. reflexivity.
Qed.

(** The racks [racks_in] returns are shapes of the store whose label
    contains ['rack']. *)
Lemma racks_in_inv (l : list nat) :
  forall (w w' : MainWindow) (racks : list nat),
  racks_in l w = Ok racks w' ->
  forall r, r ∈ racks -> exists s, heap w !! r = Some s /\ str_in "rack" (label s) = true.
Proof.
  induction l as [| a l IH]; intros w w' racks H r Hr.
  - injection H as <- _. inversion Hr.
  - cbn [racks_in] in H.
    apply bind_inv in H as (s & w1 & Hs & H).
    apply shape_at_inv in Hs as [-> Hs].
    apply bind_inv in H as (rest & w2 & Hrest & H).
    pose proof (racks_in_state _ _ _ _ Hrest) as ->.
    injection H as <- _.
    destruct (str_in "rack" (label s)) eqn:E.
    + apply elem_of_cons in Hr as [-> | Hr]; [exists s; split; assumption |].
      apply (IH _ _ _ Hrest r Hr).
    + apply (IH _ _ _ Hrest r Hr).
Qed.

Lemma splitRacks_unfold (containsPoint : Shape -> QPointF.t -> bool) (self : MainWindow)
    (fuel : nat) (selected : bool) (racks : list nat) :
  racks_in (if selected then selectedItems self else itemsToShapes self) self = Ok racks self ->
  splitRacks containsPoint fuel selected self
  = for_each racks (splitRacks_rack containsPoint fuel) self.
Proof.
  intros Hracks. unfold splitRacks.
  rewrite (bind_ok _ _ self self self) by reflexivity.
  rewrite (bind_ok _ _ _ _ _ Hracks). reflexivity.
Qed.

Lemma set_points_eta (s : Shape) : set_points s (points s) = s.
Proof. destruct s; reflexivity. Qed.

Lemma rack_is_no_beam (s : Shape) : str_in "rack" (label s) = true -> label s <> "beam"%string.
Proof. intros H E. rewrite E in H. discriminate H. Qed.

(** The beams of a list. *)
Lemma is_beam_true (w : MainWindow) (a : nat) :
  is_beam w a = true <-> exists s, heap w !! a = Some s /\ label s = "beam"%string.
Proof.
  unfold is_beam. destruct (heap w !! a) as [s |].
  - split.
    + intros H. exists s. split; [reflexivity | apply String.eqb_eq, H].
    + intros (s' & Hs & Hl). injection Hs as <-. apply String.eqb_eq, Hl.
  - split; [discriminate | intros (s & Hs & _); discriminate].
Qed.

Lemma is_beam_false (w : MainWindow) (a : nat) (s : Shape) :
  heap w !! a = Some s -> label s <> "beam"%string -> is_beam w a = false.
Proof.
  intros Hs Hl. unfold is_beam. rewrite Hs.
  destruct (String.eqb_spec (label s) "beam"); [contradiction | reflexivity].
Qed.

Lemma not_a_beam_is_beam (w : MainWindow) (a : nat) :
  not_a_beam w a <-> stored w a /\ is_beam w a = false.
Proof.
  split.
  - intros (s & Hs & Hl). split; [exists s; exact Hs | exact (is_beam_false w a s Hs Hl)].
  - intros [[s Hs] Hb]. exists s. split; [exact Hs |].
    intros E. unfold is_beam in Hb. rewrite Hs, E in Hb. discriminate Hb.
Qed.

Lemma is_beam_kept (w w' : MainWindow) (a : nat) :
  (forall a s, heap w !! a = Some s -> exists s', heap w' !! a = Some s' /\ label s' = label s) ->
  stored w a -> is_beam w' a = is_beam w a.
Proof.
  intros Hk [s Hs]. destruct (Hk _ _ Hs) as (s' & Hs' & El).
  unfold is_beam. rewrite Hs, Hs', El. reflexivity.
Qed.

Lemma beams_of_elem (w : MainWindow) (l : list nat) (b : nat) :
  b ∈ beams_of w l <-> b ∈ l /\ is_beam w b = true.
Proof.
  induction l as [| a l IH]; cbn [beams_of].
  - split; [intros H; inversion H | intros [H _]; inversion H].
  - destruct (is_beam w a) eqn:E; rewrite ?elem_of_cons, IH, ?elem_of_cons.
    + split; [intros [-> | [H1 H2]]; auto | intros [[-> | H1] H2]; auto].
    + split; [intros [H1 H2]; auto | intros [[-> | H1] H2]; [congruence | auto]].
Qed.

Lemma beams_of_ext (w w1 : MainWindow) (l : list nat) :
  (forall a, a ∈ l -> is_beam w1 a = is_beam w a) -> beams_of w1 l = beams_of w l.
Proof.
  induction l as [| a l IH]; intros H; [reflexivity |].
  cbn [beams_of]. rewrite (H a) by left.
  rewrite IH by (intros a' Ha'; apply H; right; exact Ha'). reflexivity.
Qed.

Lemma beams_of_app (w : MainWindow) (l k : list nat) :
  beams_of w (l ++ k) = beams_of w l ++ beams_of w k.
Proof.
  induction l as [| a l IH]; [reflexivity |].
  cbn [app beams_of]. destruct (is_beam w a); rewrite IH; reflexivity.
Qed.

Lemma beams_of_none (w : MainWindow) (l : list nat) :
  (forall a, a ∈ l -> is_beam w a = false) -> beams_of w l = [].
Proof.
  induction l as [| a l IH]; intros H; [reflexivity |].
  cbn [beams_of]. rewrite (H a) by left. apply IH. intros a' Ha'. apply H. right. exact Ha'.
Qed.

(** The first beam of a list, with the entries before it. *)
Lemma beams_of_cons (w : MainWindow) (l : list nat) (b : nat) (bs : list nat) :
  beams_of w l = b :: bs ->
  exists l1 l2, l = l1 ++ b :: l2 /\ (forall a, a ∈ l1 -> is_beam w a = false) /\
                is_beam w b = true /\ beams_of w l2 = bs.
Proof.
  induction l as [| a l IH]; intros H; [discriminate H |].
  cbn [beams_of] in H. destruct (is_beam w a) eqn:E.
  - injection H as -> Hbs. exists [], l. split; [reflexivity |].
    split; [intros a' Ha'; inversion Ha' |]. split; assumption.
  - destruct (IH H) as (l1 & l2 & -> & Hno & Hb & Hbs).
    exists (a :: l1), l2. split; [reflexivity |].
    split; [| split; assumption].
    intros a' Ha'. apply elem_of_cons in Ha' as [-> | Ha']; [exact E | apply Hno, Ha'].
Qed.

(** States that continue one another. *)
Lemma grown_refl (w : MainWindow) : grown w w [].
Proof.
  split; [symmetry; apply app_nil_r |]. split; [constructor |].
  split; [intros a Ha; inversion Ha |].
  split; [intros a s Hs; exists s; split; [exact Hs | reflexivity] | reflexivity].
Qed.

Lemma grown_trans (w w1 w2 : MainWindow) (e1 e2 : list nat) :
  grown w w1 e1 -> grown w1 w2 e2 -> grown w w2 (e1 ++ e2).
Proof.
  intros (Hl1 & Hn1 & He1 & Hk1 & Hw1) (Hl2 & Hn2 & He2 & Hk2 & Hw2).
  assert (Hlen : (length (heap w) <= length (heap w1))%nat).
  { destruct (Nat.le_gt_cases (length (heap w)) (length (heap w1))) as [H | H]; [exact H |].
    destruct (lookup_lt_is_Some_2 (heap w) (length (heap w1))) as [s Hs]; [exact H |].
    destruct (Hk1 _ _ Hs) as (s' & Hs' & _). apply lookup_lt_Some in Hs'. lia. }
  split; [rewrite Hl2, Hl1, app_assoc; reflexivity |].
  split.
  { apply NoDup_app. split; [exact Hn1 |]. split; [| exact Hn2].
    intros a Ha1 Ha2. destruct (He1 a Ha1) as (_ & s & Hs & _).
    apply lookup_lt_Some in Hs. destruct (He2 a Ha2) as [Hge _]. lia. }
  split.
  { intros a Ha. apply elem_of_app in Ha as [Ha | Ha].
    - destruct (He1 a Ha) as (Hge & s & Hs & Hlab). split; [exact Hge |].
      destruct (Hk2 _ _ Hs) as (s' & Hs' & El). exists s'. split; [exact Hs' |].
      rewrite El. exact Hlab.
    - destruct (He2 a Ha) as [Hge Hnb]. split; [lia | exact Hnb]. }
  split.
  { intros a s Hs. destruct (Hk1 _ _ Hs) as (s1 & Hs1 & E1).
    destruct (Hk2 _ _ Hs1) as (s2 & Hs2 & E2). exists s2. split; [exact Hs2 | congruence]. }
  intros p0 p1. rewrite Hw2. apply Hw1.
Qed.

(** The state after a cut. *)
Lemma heap_split_state (w : MainWindow) (r b : nat) (rk bm : Shape) (r0 r1 q' p : QPointF.t)
    (rs bs : list QPointF.t) :
  heap (split_state (beam_moved w b bm q' bs) r rk r0 r1 rs p) =
    <[r := set_points rk (r0 :: first_half_end (wider_than_tall w r0 r1) p r1 :: rs)]>
      (<[b := set_points bm (q' :: bs)]> (heap w))
    ++ [set_points rk (second_half_start (wider_than_tall w r0 r1) p r0 :: r1 :: rs)].
Proof. unfold split_state. rewrite heap_updatePixmap. reflexivity. Qed.

Lemma itemsToShapes_split_state (w : MainWindow) (r b : nat) (rk bm : Shape)
    (r0 r1 q' p : QPointF.t) (rs bs : list QPointF.t) :
  itemsToShapes (split_state (beam_moved w b bm q' bs) r rk r0 r1 rs p) =
    itemsToShapes w ++ [length (heap w)].
Proof.
  unfold split_state. rewrite itemsToShapes_updatePixmap.
  unfold beam_moved. cbn [itemsToShapes with_itemsToShapes with_heap heap].
  rewrite length_insert. reflexivity.
Qed.

Lemma wider_than_tall_split_state (w : MainWindow) (r b : nat) (rk bm : Shape)
    (r0 r1 q' p : QPointF.t) (rs bs : list QPointF.t) (p0 p1 : QPointF.t) :
  wider_than_tall (split_state (beam_moved w b bm q' bs) r rk r0 r1 rs p) p0 p1 =
    wider_than_tall w p0 p1.
Proof.
  unfold wider_than_tall, split_state. rewrite !qpointToPointcloud_updatePixmap. reflexivity.
Qed.

Lemma grown_split_state (w : MainWindow) (r b : nat) (rk bm : Shape) (r0 r1 q' p : QPointF.t)
    (rs bs : list QPointF.t) :
  heap w !! r = Some rk -> label rk <> "beam"%string ->
  heap w !! b = Some bm ->
  grown w (split_state (beam_moved w b bm q' bs) r rk r0 r1 rs p) [length (heap w)].
Proof.
  intros Hr Hrl Hb.
  assert (Hlr : (r < length (heap w))%nat) by (apply lookup_lt_Some in Hr; exact Hr).
  assert (Hlb : (b < length (heap w))%nat) by (apply lookup_lt_Some in Hb; exact Hb).
  split; [apply itemsToShapes_split_state |].
  split; [apply NoDup_singleton |].
  split.
  { intros a Ha. apply list_elem_of_singleton in Ha as ->. split; [lia |].
    eexists. split.
    - rewrite heap_split_state. apply list_lookup_middle. rewrite !length_insert. reflexivity.
    - exact Hrl. }
  split.
  { intros a s Hs. rewrite heap_split_state.
    assert (Hla : (a < length (heap w))%nat) by (apply lookup_lt_Some in Hs; exact Hs).
    destruct (Nat.eq_dec r a) as [<- | Hra].
    - eexists. split.
      + apply lookup_app_l_Some. apply list_lookup_insert_eq. rewrite length_insert. exact Hlr.
      + rewrite Hr in Hs. injection Hs as <-. reflexivity.
    - destruct (Nat.eq_dec b a) as [<- | Hba].
      + eexists. split.
        * apply lookup_app_l_Some. rewrite list_lookup_insert_ne by exact Hra.
          apply list_lookup_insert_eq. exact Hlb.
        * rewrite Hb in Hs. injection Hs as <-. reflexivity.
      + exists s. split; [| reflexivity].
        apply lookup_app_l_Some. rewrite !list_lookup_insert_ne by assumption. exact Hs. }
  intros p0 p1. apply wider_than_tall_split_state.
Qed.

(** A round in which no beam passes the test leaves the beams where they
    are. *)
Lemma rack_round_from_idle (wide : QPointF.t -> QPointF.t -> bool) (x_dim y_dim x_c y_c : R)
    (r0 r1 : QPointF.t) (qs : list QPointF.t) :
  Forall (fun q => proximity_test x_dim y_dim x_c y_c r0 r1 q = false) qs ->
  rack_round_from wide x_dim y_dim x_c y_c r0 r1 qs = (r1, qs).
Proof.
  induction 1 as [| q qs Hq _ IH]; [reflexivity |].
  cbn [rack_round_from].
  assert (Ev : beam_visit wide x_dim y_dim x_c y_c r0 r1 q = (r1, q)).
  { unfold beam_visit. unfold proximity_test in Hq.
    destruct (within_x r0 r1 q); [rewrite Hq; reflexivity |].
    destruct (within_y r0 r1 q); [| reflexivity].
    cbn [andb] in Hq. rewrite Hq. reflexivity. }
  rewrite Ev. cbn [fst snd]. rewrite IH. reflexivity.
Qed.

Lemma rack_round_idle (wide : QPointF.t -> QPointF.t -> bool) (c : QPointF.t * QPointF.t)
    (qs : list QPointF.t) :
  Forall (fun q => rack_takes_beam (fst c) (snd c) q = false) qs ->
  snd (rack_round wide c qs) = qs.
Proof.
  intros H. unfold rack_round. rewrite rack_round_from_idle; [reflexivity | exact H].
Qed.

(** One visit: the body of the inner loop on a beam leaves the rack and the
    beam as [beam_visit] says, adds at most one shape to the label list and
    changes no other shape. *)
Lemma splitRacks_beam_step (containsPoint : Shape -> QPointF.t -> bool) (w : MainWindow)
    (wide : QPointF.t -> QPointF.t -> bool) (x_dim y_dim x_c y_c : R)
    (r b : nat) (rk bm : Shape) (r0 r1 q : QPointF.t) (rs qt : list QPointF.t) :
  heap w !! r = Some rk -> label rk <> "beam"%string -> points rk = r0 :: r1 :: rs ->
  heap w !! b = Some bm -> label bm = "beam"%string -> points bm = q :: qt ->
  (forall p0 p1, wider_than_tall w p0 p1 = wide p0 p1) ->
  let v := beam_visit wide x_dim y_dim x_c y_c r0 r1 q in
  exists (w1 : MainWindow) (e1 : list nat),
    splitRacks_beam containsPoint r x_dim y_dim x_c y_c b w = Ok tt w1 /\
    grown w w1 e1 /\ (length e1 <= 1)%nat /\
    heap w1 !! r = Some (set_points rk (r0 :: fst v :: rs)) /\
    heap w1 !! b = Some (set_points bm (snd v :: qt)) /\
    (forall a s, a <> r -> a <> b -> heap w !! a = Some s -> heap w1 !! a = Some s) /\
    (proximity_test x_dim y_dim x_c y_c r0 r1 q = false -> w1 = w /\ fst v = r1).
Proof.
  intros Hr Hrl Hrp Hb Hbl Hbp Hwide v.
  assert (Hne : b <> r) by (intros ->; rewrite Hb in Hr; injection Hr as ->; contradiction).
  assert (Hlr : (r < length (heap w))%nat) by (apply lookup_lt_Some in Hr; exact Hr).
  assert (Hlb : (b < length (heap w))%nat) by (apply lookup_lt_Some in Hb; exact Hb).
  assert (Hidle : v = (r1, q) -> exists (w1 : MainWindow) (e1 : list nat),
            Ok tt w = Ok tt w1 /\
            grown w w1 e1 /\ (length e1 <= 1)%nat /\
            heap w1 !! r = Some (set_points rk (r0 :: fst v :: rs)) /\
            heap w1 !! b = Some (set_points bm (snd v :: qt)) /\
            (forall a s, a <> r -> a <> b -> heap w !! a = Some s -> heap w1 !! a = Some s) /\
            (proximity_test x_dim y_dim x_c y_c r0 r1 q = false -> w1 = w /\ fst v = r1)).
  { intros ->. exists w, []. split; [reflexivity |]. split; [apply grown_refl |].
    split; [cbn; lia |]. cbn [fst snd].
    split; [rewrite <- Hrp, set_points_eta; exact Hr |].
    split; [rewrite <- Hbp, set_points_eta; exact Hb |]. auto. }
  assert (Hcut : forall q', v = (first_half_end (wide r0 r1) q' r1, q') ->
            proximity_test x_dim y_dim x_c y_c r0 r1 q = true ->
            exists (w1 : MainWindow) (e1 : list nat),
            Ok tt (split_state (beam_moved w b bm q' qt) r rk r0 r1 rs q') = Ok tt w1 /\
            grown w w1 e1 /\ (length e1 <= 1)%nat /\
            heap w1 !! r = Some (set_points rk (r0 :: fst v :: rs)) /\
            heap w1 !! b = Some (set_points bm (snd v :: qt)) /\
            (forall a s, a <> r -> a <> b -> heap w !! a = Some s -> heap w1 !! a = Some s) /\
            (proximity_test x_dim y_dim x_c y_c r0 r1 q = false -> w1 = w /\ fst v = r1)).
  { intros q' -> Htest. eexists _, [length (heap w)]. split; [reflexivity |].
    split; [apply grown_split_state; assumption |].
    split; [cbn; lia |]. cbn [fst snd]. rewrite heap_split_state, Hwide.
    split; [| split; [| split]].
    - apply lookup_app_l_Some. apply list_lookup_insert_eq. rewrite length_insert. exact Hlr.
    - apply lookup_app_l_Some. rewrite list_lookup_insert_ne by congruence.
      apply list_lookup_insert_eq. exact Hlb.
    - intros a s Har Hab Hs. apply lookup_app_l_Some.
      rewrite !list_lookup_insert_ne by congruence. exact Hs.
    - rewrite Htest. discriminate. }
  rewrite (splitRacks_beam_run containsPoint w x_dim y_dim x_c y_c r b rk bm r0 r1 q rs qt
             Hne Hr Hrp Hb Hbl Hbp).
  unfold v, beam_visit, proximity_test in *.
  destruct (within_x r0 r1 q).
  - destruct (near_line y_c (QPointF.y q) y_dim); [apply Hcut | apply Hidle]; reflexivity.
  - destruct (within_y r0 r1 q); [| apply Hidle; reflexivity].
    destruct (near_line x_c (QPointF.x q) x_dim); [apply Hcut | apply Hidle]; reflexivity.
Qed.

(** One round, from any position of the label list on: the entries left
    are [rem], and the list may grow behind them while they are visited. *)
Lemma splitRacks_beams_round (containsPoint : Shape -> QPointF.t -> bool) (r : nat)
    (wide : QPointF.t -> QPointF.t -> bool) (x_dim y_dim x_c y_c : R)
    (r0 : QPointF.t) (rs : list QPointF.t) :
  forall (bs : list nat) (qs : list QPointF.t) (w : MainWindow) (fuel : nat)
         (pre rem : list nat) (rk : Shape) (r1 : QPointF.t),
  itemsToShapes w = pre ++ rem ->
  (forall a, a ∈ rem -> stored w a) ->
  NoDup rem ->
  beams_of w rem = bs ->
  Forall2 (has_first_point w) bs qs ->
  heap w !! r = Some rk -> label rk <> "beam"%string -> points rk = r0 :: r1 :: rs ->
  (forall p0 p1, wider_than_tall w p0 p1 = wide p0 p1) ->
  (length rem + length bs + 1 <= fuel)%nat ->
  exists (w' : MainWindow) (ext : list nat),
    splitRacks_beams containsPoint fuel r x_dim y_dim x_c y_c (length pre) w = Ok tt w' /\
    grown w w' ext /\ (length ext <= length bs)%nat /\
    heap w' !! r =
      Some (set_points rk (r0 :: fst (rack_round_from wide x_dim y_dim x_c y_c r0 r1 qs) :: rs)) /\
    Forall2 (first_point_moved w w') bs (snd (rack_round_from wide x_dim y_dim x_c y_c r0 r1 qs)) /\
    (forall a s, a <> r -> a ∉ bs -> heap w !! a = Some s -> heap w' !! a = Some s) /\
    (Forall (fun q => proximity_test x_dim y_dim x_c y_c r0 r1 q = false) qs -> w' = w).
Proof.
  induction bs as [| b bs IH];
    intros qs w fuel pre rem rk r1 Hl Hst Hnd Hbs Hqs Hr Hrl Hrp Hwide Hfuel.
  - inversion Hqs; subst qs.
    exists w, []. split; [| split; [apply grown_refl |]].
    + apply splitRacks_beams_tail.
      * intros j a Hj Ha. rewrite Hl, lookup_app_r in Ha by exact Hj.
        apply list_elem_of_lookup_2 in Ha.
        apply not_a_beam_is_beam. split; [apply Hst, Ha |].
        destruct (is_beam w a) eqn:E; [| reflexivity].
        assert (Hin : a ∈ beams_of w rem) by (apply beams_of_elem; split; assumption).
        rewrite Hbs in Hin. inversion Hin.
      * rewrite Hl, length_app. lia.
    + split; [cbn; lia |]. cbn [rack_round_from fst snd].
      split; [rewrite <- Hrp, set_points_eta; exact Hr |].
      split; [constructor | auto].
  - destruct qs as [| q qs']; [inversion Hqs |].
    apply Forall2_cons_1 in Hqs as [(bm & qt & Hb & Hbp) Hqs'].
    destruct (beams_of_cons w rem b bs Hbs) as (l1 & l2 & -> & Hno & Hisb & Hbs').
    apply is_beam_true in Hisb as (bm' & Hb' & Hbl).
    rewrite Hb in Hb'. injection Hb' as <-.
    apply NoDup_app in Hnd as (Hnd1 & Hdisj & Hnd2).
    apply NoDup_cons in Hnd2 as [Hb_l2 Hnd2].
    rewrite length_app in Hfuel. cbn [length] in Hfuel.
    set (v := beam_visit wide x_dim y_dim x_c y_c r0 r1 q).
    destruct (splitRacks_beam_step containsPoint w wide x_dim y_dim x_c y_c r b rk bm r0 r1 q
                rs qt Hr Hrl Hrp Hb Hbl Hbp Hwide)
      as (w1 & e1 & Hstep & Hg1 & Hle1 & Hr1 & Hb1 & Hframe1 & Hidle1).
    fold v in Hr1, Hb1, Hidle1.
    pose proof Hg1 as (Hl1 & Hn1 & He1 & Hk1 & Hw1).
    assert (Hst2 : forall a, a ∈ l2 -> stored w a).
    { intros a Ha. apply Hst. apply elem_of_app. right. right. exact Ha. }
    assert (Hbeam_in : forall a, a ∈ bs -> a ∈ l2 /\ is_beam w a = true).
    { intros a Ha. apply beams_of_elem. rewrite Hbs'. exact Ha. }
    assert (Hbeam_ne : forall a, a ∈ bs -> a <> r /\ a <> b).
    { intros a Ha. destruct (Hbeam_in a Ha) as [Hin Hisa]. split.
      - intros ->. apply is_beam_true in Hisa as (s & Hs & Hsl).
        rewrite Hr in Hs. injection Hs as <-. contradiction.
      - intros ->. contradiction. }
    destruct (IH qs' w1 (fuel - S (length l1))%nat (pre ++ l1 ++ [b]) (l2 ++ e1)
                (set_points rk (r0 :: fst v :: rs)) (fst v))
      as (w' & ext & Hrun & Hg & Hle & Hr' & Hmoved & Hframe & Hidle).
    { rewrite Hl1, Hl, <- !app_assoc. reflexivity. }
    { intros a Ha. apply elem_of_app in Ha as [Ha | Ha].
      - destruct (Hst2 a Ha) as [s Hs]. destruct (Hk1 _ _ Hs) as (s' & Hs' & _).
        exists s'. exact Hs'.
      - destruct (He1 a Ha) as (_ & s & Hs & _). exists s. exact Hs. }
    { apply NoDup_app. split; [exact Hnd2 |]. split; [| exact Hn1].
      intros a Ha2 Hae. destruct (Hst2 a Ha2) as [s Hs]. apply lookup_lt_Some in Hs.
      destruct (He1 a Hae) as [Hge _]. lia. }
    { rewrite beams_of_app.
      rewrite (beams_of_ext w w1 l2)
        by (intros a Ha; apply is_beam_kept; [exact Hk1 | apply Hst2, Ha]).
      rewrite Hbs'. rewrite (beams_of_none w1 e1); [apply app_nil_r |].
      intros a Ha. destruct (He1 a Ha) as [_ Hnb].
      apply not_a_beam_is_beam in Hnb as [_ Hnb]. exact Hnb. }
    { apply (Forall2_impl_elem _ _ _ _ Hqs').
      intros a qa Ha (s & st & Hs & Hsp). destruct (Hbeam_ne a Ha) as [Har Hab].
      exists s, st. split; [apply Hframe1; assumption | exact Hsp]. }
    { exact Hr1. }
    { exact Hrl. }
    { reflexivity. }
    { intros p0 p1. rewrite Hw1. apply Hwide. }
    { rewrite length_app. lia. }
    exists w', (e1 ++ ext).
    split; [| split; [exact (grown_trans _ _ _ _ _ Hg1 Hg) |
              split; [rewrite length_app; cbn [length]; lia | split; [| split; [| split]]]]].
    + replace fuel with (length l1 + S (fuel - S (length l1)))%nat at 1 by lia.
      rewrite splitRacks_beams_skip.
      2:{ intros j a Hj Ha. rewrite Hl, lookup_app_r in Ha by lia.
          rewrite lookup_app_l in Ha by lia. apply list_elem_of_lookup_2 in Ha.
          apply not_a_beam_is_beam. split; [| apply Hno, Ha].
          apply Hst. apply elem_of_app. left. exact Ha. }
      2:{ rewrite Hl, !length_app. cbn [length]. lia. }
      cbn [splitRacks_beams].
      rewrite (bind_ok _ _ w w w) by reflexivity.
      rewrite Hl, lookup_app_r by lia.
      replace (length pre + length l1 - length pre)%nat with (length l1) by lia.
      rewrite (list_lookup_middle l1 l2 b (length l1) eq_refl).
      rewrite (bind_ok _ _ w w1 tt Hstep).
      replace (S (length pre + length l1)) with (length (pre ++ l1 ++ [b]))
        by (rewrite !length_app; cbn [length]; lia).
      exact Hrun.
    + cbn [rack_round_from fst snd]. fold v. exact Hr'.
    + cbn [rack_round_from fst snd]. fold v. constructor.
      * exists bm. split; [exact Hb |]. rewrite Hbp. cbn [tail].
        apply Hframe; [intros ->; rewrite Hb in Hr; injection Hr as ->; contradiction | | exact Hb1].
        intros Hin. destruct (Hbeam_ne b Hin) as [_ Hbb]. apply Hbb. reflexivity.
      * apply (Forall2_impl_elem _ _ _ _ Hmoved).
        intros a qa Ha (s1 & Hs1 & Hs'). destruct (Hbeam_ne a Ha) as [Har Hab].
        destruct (Hbeam_in a Ha) as [Hin _]. destruct (Hst2 a Hin) as [s Hs].
        rewrite (Hframe1 a s Har Hab Hs) in Hs1. injection Hs1 as <-.
        exists s. split; assumption.
    + intros a s Har Hab Hs. apply Hframe; [exact Har | |].
      * intros Hin. apply Hab. right. exact Hin.
      * apply Hframe1; [exact Har | | exact Hs]. intros ->. apply Hab. left.
    + intros Hnone. apply Forall_cons in Hnone as [Hq Hnone].
      destruct (Hidle1 Hq) as [E1 Ev]. rewrite Ev in Hidle.
      rewrite (Hidle Hnone). exact E1.
Qed.

Lemma splitRacks_rack_round (containsPoint : Shape -> QPointF.t -> bool) (w : MainWindow)
    (wide : QPointF.t -> QPointF.t -> bool) (fuel : nat) (r : nat) (rk : Shape)
    (r0 r1 : QPointF.t) (rs : list QPointF.t) (qs : list QPointF.t) :
  (forall a, a ∈ itemsToShapes w -> stored w a) ->
  NoDup (itemsToShapes w) ->
  Forall2 (has_first_point w) (beams_of w (itemsToShapes w)) qs ->
  heap w !! r = Some rk -> label rk <> "beam"%string -> points rk = r0 :: r1 :: rs ->
  (forall p0 p1, wider_than_tall w p0 p1 = wide p0 p1) ->
  (length (itemsToShapes w) + length qs + 1 <= fuel)%nat ->
  exists (w' : MainWindow) (ext : list nat),
    splitRacks_rack containsPoint fuel r w = Ok tt w' /\
    grown w w' ext /\ (length ext <= length qs)%nat /\
    heap w' !! r = Some (set_points rk (r0 :: fst (rack_round wide (r0, r1) qs) :: rs)) /\
    Forall2 (first_point_moved w w') (beams_of w (itemsToShapes w))
      (snd (rack_round wide (r0, r1) qs)) /\
    (forall a s, a <> r -> a ∉ beams_of w (itemsToShapes w) ->
                 heap w !! a = Some s -> heap w' !! a = Some s) /\
    (Forall (fun q => rack_takes_beam r0 r1 q = false) qs -> w' = w).
Proof.
  intros Hst Hnd Hqs Hr Hrl Hrp Hwide Hfuel.
  assert (R0 : points rk !! 0%nat = Some r0) by (rewrite Hrp; reflexivity).
  assert (R1 : points rk !! 1%nat = Some r1) by (rewrite Hrp; reflexivity).
  pose proof (Forall2_length _ _ _ Hqs) as Hlen.
  unfold splitRacks_rack.
  rewrite (bind_ok _ _ _ _ _ (point_at_ok _ _ _ _ _ Hr R0)).
  rewrite (bind_ok _ _ _ _ _ (point_at_ok _ _ _ _ _ Hr R1)).
  rewrite <- Hlen.
  apply (splitRacks_beams_round containsPoint r wide _ _ _ _ r0 rs
           (beams_of w (itemsToShapes w)) qs w fuel [] (itemsToShapes w) rk r1);
    try assumption; try reflexivity.
  rewrite Hlen. exact Hfuel.
Qed.

(** The rounds of the outer loop, one rack after the other. *)
Lemma splitRacks_rounds (containsPoint : Shape -> QPointF.t -> bool) (fuel : nat)
    (wide : QPointF.t -> QPointF.t -> bool) (bs : list nat) :
  forall (racks : list nat) (cs : list (QPointF.t * QPointF.t)) (w : MainWindow)
         (qs : list QPointF.t),
  (forall a, a ∈ itemsToShapes w -> stored w a) ->
  NoDup (itemsToShapes w) ->
  beams_of w (itemsToShapes w) = bs ->
  Forall2 (has_first_point w) bs qs ->
  NoDup racks ->
  Forall2 (fun r c => exists rk rs,
             heap w !! r = Some rk /\ label rk <> "beam"%string /\
             points rk = fst c :: snd c :: rs) racks cs ->
  (forall p0 p1, wider_than_tall w p0 p1 = wide p0 p1) ->
  (length (itemsToShapes w) + length racks * length bs + 1 <= fuel)%nat ->
  exists (w' : MainWindow) (ext : list nat),
    for_each racks (splitRacks_rack containsPoint fuel) w = Ok tt w' /\
    grown w w' ext /\ (length ext <= length racks * length bs)%nat /\
    Forall2 (second_corner_moved w w') racks (fst (rack_rounds wide cs qs)) /\
    Forall2 (first_point_moved w w') bs (snd (rack_rounds wide cs qs)) /\
    (forall a s, a ∉ racks -> a ∉ bs -> heap w !! a = Some s -> heap w' !! a = Some s) /\
    (Forall (fun c => Forall (fun q => rack_takes_beam (fst c) (snd c) q = false) qs) cs ->
     w' = w).
Proof.
  induction racks as [| r rest IH]; intros cs w qs Hst Hnd Hbs Hqs Hndr Hcs Hwide Hfuel.
  - inversion Hcs; subst cs. exists w, []. cbn [for_each rack_rounds fst snd].
    split; [reflexivity |]. split; [apply grown_refl |]. split; [cbn; lia |].
    split; [constructor |]. split; [| auto].
    apply (Forall2_impl_elem _ _ _ _ Hqs).
    intros b q _ (bm & qt & Hb & Hbp). exists bm. split; [exact Hb |].
    rewrite Hbp. cbn [tail]. rewrite <- Hbp, set_points_eta. exact Hb.
  - destruct cs as [| [r0 r1] cs']; [inversion Hcs |].
    apply Forall2_cons_1 in Hcs as [(rk & rs & Hr & Hrl & Hrp) Hcs'].
    cbn [fst snd] in Hrp.
    apply NoDup_cons in Hndr as [Hr_rest Hndr'].
    pose proof (Forall2_length _ _ _ Hqs) as Hlen.
    cbn [length] in Hfuel.
    assert (Hbeam : forall b, b ∈ bs -> b ∈ itemsToShapes w /\ is_beam w b = true).
    { intros b Hb. apply beams_of_elem. rewrite Hbs. exact Hb. }
    assert (Hrack_nb : forall a rka, heap w !! a = Some rka -> label rka <> "beam"%string ->
                                     a ∉ bs).
    { intros a rka Ha Hla Hin. destruct (Hbeam a Hin) as [_ Hisb].
      apply is_beam_true in Hisb as (s & Hs & Hsl).
      rewrite Ha in Hs. injection Hs as <-. contradiction. }
    subst bs.
    destruct (splitRacks_rack_round containsPoint w wide fuel r rk r0 r1 rs qs
                Hst Hnd Hqs Hr Hrl Hrp Hwide ltac:(nia))
      as (w1 & e1 & Hrun1 & Hg1 & Hle1 & Hr1 & Hmoved1 & Hframe1 & Hidle1).
    set (bs := beams_of w (itemsToShapes w)) in *.
    set (res := rack_round wide (r0, r1) qs) in *.
    pose proof Hg1 as (Hl1 & Hn1 & He1 & Hk1 & Hw1).
    assert (Hlen1 : length (snd res) = length qs).
    { symmetry. rewrite <- Hlen. apply (Forall2_length _ _ _ Hmoved1). }
    destruct (IH cs' w1 (snd res))
      as (w' & ext & Hrun & Hg & Hle & Hcorner & Hmoved & Hframe & Hidle).
    { intros a Ha. rewrite Hl1 in Ha. apply elem_of_app in Ha as [Ha | Ha].
      - destruct (Hst a Ha) as [s Hs]. destruct (Hk1 _ _ Hs) as (s' & Hs' & _).
        exists s'. exact Hs'.
      - destruct (He1 a Ha) as (_ & s & Hs & _). exists s. exact Hs. }
    { rewrite Hl1. apply NoDup_app. split; [exact Hnd |]. split; [| exact Hn1].
      intros a Ha Hae. destruct (Hst a Ha) as [s Hs]. apply lookup_lt_Some in Hs.
      destruct (He1 a Hae) as [Hge _]. lia. }
    { rewrite Hl1, beams_of_app.
      rewrite (beams_of_ext w w1 (itemsToShapes w))
        by (intros a Ha; apply is_beam_kept; [exact Hk1 | apply Hst, Ha]).
      rewrite (beams_of_none w1 e1); [apply app_nil_r |].
      intros a Ha. destruct (He1 a Ha) as [_ Hnb].
      apply not_a_beam_is_beam in Hnb as [_ Hnb]. exact Hnb. }
    { apply (Forall2_impl_elem _ _ _ _ Hmoved1).
      intros b q _ (bm & _ & Hb1). eexists _, _. split; [exact Hb1 | reflexivity]. }
    { exact Hndr'. }
    { apply (Forall2_impl_elem _ _ _ _ Hcs').
      intros a c Ha (rka & rsa & Ha1 & Ha2 & Ha3).
      exists rka, rsa. split; [| split; assumption].
      apply Hframe1; [intros ->; contradiction | exact (Hrack_nb a rka Ha1 Ha2) | exact Ha1]. }
    { intros p0 p1. rewrite Hw1. apply Hwide. }
    { rewrite Hl1, length_app. fold bs in Hlen. nia. }
    exists w', (e1 ++ ext).
    split; [| split; [exact (grown_trans _ _ _ _ _ Hg1 Hg) |
              split; [rewrite length_app; cbn [length]; fold bs in Hlen; nia |
                      split; [| split; [| split]]]]].
    + cbn [for_each]. rewrite (bind_ok _ _ w w1 tt Hrun1). exact Hrun.
    + cbn [rack_rounds fst snd]. fold res. constructor.
      * exists rk, r0, r1, rs. split; [exact Hr |]. split; [exact Hrp |].
        apply Hframe; [exact Hr_rest | exact (Hrack_nb r rk Hr Hrl) | exact Hr1].
      * apply (Forall2_impl_elem _ _ _ _ Hcorner).
        intros a c' Ha (rka & p0 & p1 & rsa & Ha1 & Hap & Ha').
        destruct (Forall2_elem_l _ _ _ a Hcs' Ha) as (c0 & rk0 & rs0 & Ha0 & Hl0 & _).
        assert (Ha01 : heap w1 !! a = Some rk0).
        { apply Hframe1; [intros ->; contradiction | exact (Hrack_nb a rk0 Ha0 Hl0) | exact Ha0]. }
        rewrite Ha01 in Ha1. injection Ha1 as <-.
        exists rk0, p0, p1, rsa. split; [exact Ha0 |]. split; assumption.
    + cbn [rack_rounds fst snd]. fold res.
      apply (Forall2_impl_elem _ _ _ _ Hmoved).
      intros b q' Hb (bm1 & Hb1 & Hb').
      destruct (Forall2_elem_l _ _ _ b Hmoved1 Hb) as (q1 & bm & Hb0 & Hb01).
      rewrite Hb01 in Hb1. injection Hb1 as <-.
      exists bm. split; [exact Hb0 | exact Hb'].
    + intros a s Har Hab Hs. apply Hframe; [| exact Hab |].
      * intros Hin. apply Har. right. exact Hin.
      * apply Hframe1; [| exact Hab | exact Hs]. intros ->. apply Har. left.
    + intros Hnone. apply Forall_cons in Hnone as [Hc Hnone]. cbn [fst snd] in Hc.
      assert (Eres : snd res = qs) by apply (rack_round_idle wide (r0, r1) qs Hc).
      rewrite Eres in Hidle. rewrite (Hidle Hnone). apply Hidle1, Hc.
Qed.

(** C9: [splitRacks] moves the matched beams themselves.  The racks are
    taken in order; the round of a rack computes the span and the centre
    lines of the rack once and then visits the beams of the label list in
    order.  A visit whose test the beam passes, where the beam then stands
    and against the rack as the cuts before have left it, overwrites the
    transverse coordinate of the beam's own point with the centre line and
    cuts the rack at the moved point; a visit whose test fails changes
    nothing.  With a loop budget that covers the label list and one new
    entry for every pair, [splitRacks] returns, and then
    - every beam has its first point where these visits, one after the
      other, have put it, and is otherwise as it was;
    - every rack has its second corner where the cuts have left it;
    - no shape other than the racks and the beams is changed;
    - when no beam passes the test of any rack, nothing has changed at
      all. *)
Theorem splitRacks_moves_beam (containsPoint : Shape -> QPointF.t -> bool)
    (self : MainWindow) (fuel : nat) (selected : bool)
    (racks : list nat) (cs : list (QPointF.t * QPointF.t)) (qs : list QPointF.t) :
  NoDup (itemsToShapes self) ->
  (forall a, a ∈ itemsToShapes self -> stored self a) ->
  Forall2 (has_first_point self) (beams_of self (itemsToShapes self)) qs ->
  racks_in (if selected then selectedItems self else itemsToShapes self) self
    = Ok racks self ->
  NoDup racks ->
  Forall2 (has_corners self) racks cs ->
  (length (itemsToShapes self) + length racks * length qs + 1 <= fuel)%nat ->
  exists self' : MainWindow,
    splitRacks containsPoint fuel selected self = Ok tt self' /\
    Forall2 (first_point_moved self self') (beams_of self (itemsToShapes self))
      (snd (rack_rounds (wider_than_tall self) cs qs)) /\
    Forall2 (second_corner_moved self self') racks
      (fst (rack_rounds (wider_than_tall self) cs qs)) /\
    (forall a s, a ∉ racks -> a ∉ beams_of self (itemsToShapes self) ->
                 heap self !! a = Some s -> heap self' !! a = Some s) /\
    (Forall (fun c => Forall (fun q => rack_takes_beam (fst c) (snd c) q = false) qs) cs ->
     self' = self).
Proof.
  intros Hnd Hst Hqs Hracks Hndr Hcs Hfuel.
  rewrite (splitRacks_unfold containsPoint self fuel selected racks Hracks).
  destruct (splitRacks_rounds containsPoint fuel (wider_than_tall self)
              (beams_of self (itemsToShapes self)) racks cs self qs)
    as (self' & ext & Hrun & _ & _ & Hcorner & Hmoved & Hframe & Hidle); try assumption;
    try reflexivity.
  - apply (Forall2_impl_elem _ _ _ _ Hcs).
    intros r c Hr (rk & rs & Hrk & Hp).
    exists rk, rs. split; [exact Hrk |]. split; [| exact Hp].
    destruct (racks_in_inv _ _ _ _ Hracks r Hr) as (s & Hs & Hrack).
    rewrite Hrk in Hs. injection Hs as <-. apply rack_is_no_beam, Hrack.
  - rewrite (Forall2_length _ _ _ Hqs). exact Hfuel.
  - exists self'. repeat split; assumption.
Qed.

(** One rack and one beam: the rack at the pixels (0,0)-(10,4) takes the
    beam at (5, 1), which ends on the centre line y = 2. *)
Lemma splitRacks_moves_beam_witness :
  exists self' : MainWindow,
    splitRacks box_contains 6 false rack_and_beam = Ok tt self' /\
    heap self' !! 1%nat = Some (set_points (beam_shape 5 1) [QPointF.mk 5 2]) /\
    heap rack_and_beam !! 1%nat = Some (beam_shape 5 1).
Proof.
  assert (Hst : forall a, a ∈ itemsToShapes rack_and_beam -> stored rack_and_beam a).
  { intros a Ha. change (itemsToShapes rack_and_beam) with [0%nat; 1%nat; 2%nat] in Ha.
    rewrite !elem_of_cons, elem_of_nil in Ha.
    destruct Ha as [-> | [-> | [-> | []]]]; eexists; reflexivity. }
  assert (Hqs : Forall2 (has_first_point rack_and_beam)
                  (beams_of rack_and_beam (itemsToShapes rack_and_beam)) [QPointF.mk 5 1]).
  { change (beams_of rack_and_beam (itemsToShapes rack_and_beam)) with [1%nat].
    repeat constructor. exists (beam_shape 5 1), []. split; reflexivity. }
  assert (Hndr : NoDup [0%nat]) by apply NoDup_singleton.
  assert (Hcs : Forall2 (has_corners rack_and_beam) [0%nat] [(QPointF.mk 0 0, QPointF.mk 10 4)]).
  { repeat constructor. exists (rack_shape 0 0 10 4), []. split; reflexivity. }
  assert (Hfuel : (length (itemsToShapes rack_and_beam) + length [0%nat]
                   * length [QPointF.mk 5 1] + 1 <= 6)%nat) by (cbn; lia).
  destruct (splitRacks_moves_beam box_contains rack_and_beam 6 false [0%nat]
              [(QPointF.mk 0 0, QPointF.mk 10 4)] [QPointF.mk 5 1]
              (NoDup_seq 0 3) Hst Hqs eq_refl Hndr Hcs Hfuel)
    as (self' & Hrun & Hmoved & _).
  assert (Hvisit : snd (rack_rounds (wider_than_tall rack_and_beam)
                          [(QPointF.mk 0 0, QPointF.mk 10 4)] [QPointF.mk 5 1])
                   = [QPointF.mk 5 2]).
  { cbn [rack_rounds rack_round rack_round_from fst snd]. unfold beam_visit.
    rewrite (proj2 (within_x_spec _ _ _)) by (cbn; lra).
    rewrite (proj2 (near_line_spec _ _ _))
      by (cbn; unfold Rabs; repeat destruct (Rcase_abs _); lra).
    unfold QPointF.setY. cbn. repeat f_equal. lra. }
  rewrite Hvisit in Hmoved.
  change (beams_of rack_and_beam (itemsToShapes rack_and_beam)) with [1%nat] in Hmoved.
  apply Forall2_cons_1 in Hmoved as [(bm & Hb & Hb') _].
  injection Hb as <-.
  exists self'. split; [exact Hrun |]. split; [exact Hb' | reflexivity].
Defined.

(** C9, as the claim words it, fails with two racks.  The beam at the pixel
    (5, 1) passes the test of the rack (0,0)-(10,3), whose centre line is
    y = 1.5, and then, from there, the test of the rack (0,3.2)-(10,6.2):
    after [splitRacks] has returned it stands at y = 4.7, off the centre
    line of the first rack. *)
Lemma splitRacks_beam_leaves_first_rack :
  rack_takes_beam (QPointF.mk 0 0) (QPointF.mk 10 3) (QPointF.mk 5 1) = true /\
  exists (self' : MainWindow) (s' : Shape),
    splitRacks box_contains 7 false two_racks_one_beam = Ok tt self' /\
    heap self' !! 2%nat = Some s' /\
    points s' = [QPointF.mk 5 4.7] /\
    4.7 <> (0 + 3) / 2.
Proof.
  assert (H1 : within_x (QPointF.mk 0 0) (QPointF.mk 10 3) (QPointF.mk 5 1) = true)
    by (apply within_x_spec; cbn; lra).
  assert (H2 : forall y, near_line ((0 + 3) / 2.0) y (Rabs (0 - 3)) = true <->
                         Rabs ((0 + 3) / 2.0 - y) < Rabs (0 - 3) / 2 + 2)
    by (intros y; apply near_line_spec).
  split.
  { unfold rack_takes_beam, proximity_test. rewrite H1. cbn [QPointF.x QPointF.y].
    apply H2. unfold Rabs. repeat destruct (Rcase_abs _); lra. }
  assert (Hst : forall a, a ∈ itemsToShapes two_racks_one_beam -> stored two_racks_one_beam a).
  { intros a Ha. change (itemsToShapes two_racks_one_beam) with [0%nat; 1%nat; 2%nat] in Ha.
    rewrite !elem_of_cons, elem_of_nil in Ha.
    destruct Ha as [-> | [-> | [-> | []]]]; eexists; reflexivity. }
  assert (Hqs : Forall2 (has_first_point two_racks_one_beam) [2%nat] [QPointF.mk 5 1]).
  { repeat constructor. exists (beam_shape 5 1), []. split; reflexivity. }
  assert (Hndr : NoDup [0%nat; 1%nat]).
  { apply NoDup_cons. split; [| apply NoDup_singleton].
    intros H. apply list_elem_of_singleton in H. discriminate. }
  assert (Hcs : Forall2 (fun r c => exists rk rs,
                           heap two_racks_one_beam !! r = Some rk /\
                           label rk <> "beam"%string /\
                           points rk = fst c :: snd c :: rs)
                  [0%nat; 1%nat]
                  [(QPointF.mk 0 0, QPointF.mk 10 3); (QPointF.mk 0 3.2, QPointF.mk 10 6.2)]).
  { repeat constructor; eexists _, []; (split; [reflexivity |]);
      (split; [discriminate | reflexivity]). }
  destruct (splitRacks_rounds box_contains 7 (wider_than_tall two_racks_one_beam)
              [2%nat] [0%nat; 1%nat] _ two_racks_one_beam [QPointF.mk 5 1]
              Hst (NoDup_seq 0 3) eq_refl Hqs Hndr Hcs ltac:(reflexivity) ltac:(cbn; lia))
    as (self' & ext & Hrun & _ & _ & _ & Hmoved & _).
  assert (Hvisit : snd (rack_rounds (wider_than_tall two_racks_one_beam)
                          [(QPointF.mk 0 0, QPointF.mk 10 3);
                           (QPointF.mk 0 3.2, QPointF.mk 10 6.2)] [QPointF.mk 5 1])
                   = [QPointF.mk 5 4.7]).
  { cbn [rack_rounds rack_round rack_round_from fst snd]. unfold beam_visit at 2.
    rewrite H1. cbn [QPointF.x QPointF.y].
    rewrite (proj2 (H2 1)) by (unfold Rabs; repeat destruct (Rcase_abs _); lra).
    cbn [fst snd]. unfold beam_visit.
    rewrite (proj2 (within_x_spec _ _ _)) by (cbn; lra).
    rewrite (proj2 (near_line_spec _ _ _))
      by (cbn; unfold Rabs; repeat destruct (Rcase_abs _); lra).
    unfold QPointF.setY. cbn. repeat f_equal. lra. }
  rewrite Hvisit in Hmoved.
  apply Forall2_cons_1 in Hmoved as [(bm & Hb & Hb') _].
  injection Hb as <-.
  exists self', (set_points (beam_shape 5 1) [QPointF.mk 5 4.7]).
  split; [| split; [exact Hb' | split; [reflexivity | lra]]].
  rewrite (splitRacks_unfold box_contains two_racks_one_beam 7 false [0%nat; 1%nat] eq_refl).
  exact Hrun.
Qed.

(** * Further properties *)

(** ** Slice paging *)

(** What [updatePixmap] leaves in [sliceIdx] and [imageData] when there
    are slices. *)
Lemma updatePixmap_slices (w : MainWindow) (imgs : list (list Byte.byte)) :
  imageData w = Some imgs ->
  (0 < length imgs)%nat ->
  let n := Z.of_nat (length imgs) in
  imageData (updatePixmap w) = Some imgs /\
  sliceIdx (updatePixmap w) =
    (if (sliceIdx w >=? n)%Z then 0 else if (sliceIdx w <? 0)%Z then n - 1 else sliceIdx w)%Z.
Proof.
  intros Hd Hn n. unfold updatePixmap. rewrite Hd.
  destruct imgs as [| i0 imgs']; [simpl in Hn; lia |].
  fold n.
  destruct (Z.geb_spec (sliceIdx w) n) as [Hge | Hlt]; cbn [sliceIdx with_sliceIdx].
  - destruct (Z.ltb_spec 0 0); [lia |]. split; [exact Hd | reflexivity].
  - destruct (Z.ltb_spec (sliceIdx w) 0); split; try exact Hd; reflexivity.
Qed.

Lemma showNextSlice_slices (w : MainWindow) (imgs : list (list Byte.byte)) :
  imageData w = Some imgs ->
  (0 < length imgs)%nat ->
  let n := Z.of_nat (length imgs) in
  (0 <= sliceIdx w < n)%Z ->
  imageData (showNextSlice w) = Some imgs /\
  sliceIdx (showNextSlice w) = ((sliceIdx w + 1) mod n)%Z.
Proof.
  intros Hd Hn n Hr. unfold showNextSlice.
  destruct (updatePixmap_slices (with_sliceIdx (sliceIdx w + 1) w) imgs Hd Hn) as [Hd' Hi].
  split; [exact Hd' |]. rewrite Hi. cbn [sliceIdx with_sliceIdx]. fold n.
  destruct (Z.geb_spec (sliceIdx w + 1) n) as [Hge | Hlt].
  - replace (sliceIdx w + 1)%Z with n by lia. rewrite Z.mod_same by lia. reflexivity.
  - destruct (Z.ltb_spec (sliceIdx w + 1) 0); [lia |].
    rewrite Z.mod_small by lia. reflexivity.
Qed.

Lemma showLastSlice_slices (w : MainWindow) (imgs : list (list Byte.byte)) :
  imageData w = Some imgs ->
  (0 < length imgs)%nat ->
  let n := Z.of_nat (length imgs) in
  (0 <= sliceIdx w < n)%Z ->
  imageData (showLastSlice w) = Some imgs /\
  sliceIdx (showLastSlice w) = ((sliceIdx w - 1) mod n)%Z.
Proof.
  intros Hd Hn n Hr. unfold showLastSlice.
  destruct (updatePixmap_slices (with_sliceIdx (sliceIdx w - 1) w) imgs Hd Hn) as [Hd' Hi].
  split; [exact Hd' |]. rewrite Hi. cbn [sliceIdx with_sliceIdx]. fold n.
  destruct (Z.geb_spec (sliceIdx w - 1) n) as [Hge | Hlt]; [lia |].
  destruct (Z.ltb_spec (sliceIdx w - 1) 0) as [Hneg | Hpos].
  - replace (sliceIdx w - 1)%Z with (-1 + 1 * n - n + 0)%Z by lia.
    replace (-1 + 1 * n - n + 0)%Z with ((n - 1) + (-1) * n)%Z by lia.
    rewrite Z.mod_add by lia. rewrite Z.mod_small by lia. reflexivity.
  - rewrite Z.mod_small by lia. reflexivity.
Qed.

(** X1: with at least one slice and the index in range, paging forward and
    then backward shows the slice one started from, and so does paging
    backward and then forward. *)
Theorem next_and_last_slice_cancel (w : MainWindow) (imgs : list (list Byte.byte)) :
  imageData w = Some imgs ->
  (0 < length imgs)%nat ->
  (0 <= sliceIdx w < Z.of_nat (length imgs))%Z ->
  sliceIdx (showLastSlice (showNextSlice w)) = sliceIdx w /\
  sliceIdx (showNextSlice (showLastSlice w)) = sliceIdx w.
Proof.
  intros Hd Hn Hr. set (n := Z.of_nat (length imgs)) in *.
  assert (Hn0 : (0 < n)%Z) by (unfold n; lia).
  destruct (showNextSlice_slices w imgs Hd Hn Hr) as [Hd1 H1]. fold n in H1.
  destruct (showLastSlice_slices w imgs Hd Hn Hr) as [Hd2 H2]. fold n in H2.
  assert (R1 : (0 <= sliceIdx (showNextSlice w) < n)%Z)
    by (rewrite H1; apply Z.mod_pos_bound; exact Hn0).
  assert (R2 : (0 <= sliceIdx (showLastSlice w) < n)%Z)
    by (rewrite H2; apply Z.mod_pos_bound; exact Hn0).
  destruct (showLastSlice_slices _ imgs Hd1 Hn R1) as [_ H3]. fold n in H3.
  destruct (showNextSlice_slices _ imgs Hd2 Hn R2) as [_ H4]. fold n in H4.
  split.
  - rewrite H3, H1. rewrite Zminus_mod_idemp_l.
    replace (sliceIdx w + 1 - 1)%Z with (sliceIdx w) by lia.
    apply Z.mod_small. exact Hr.
  - rewrite H4, H2. rewrite Zplus_mod_idemp_l.
    replace (sliceIdx w - 1 + 1)%Z with (sliceIdx w) by lia.
    apply Z.mod_small. exact Hr.
Qed.

Lemma next_and_last_slice_cancel_witness :
  sliceIdx (showLastSlice (showNextSlice three_slices)) = 2%Z /\
  sliceIdx (showNextSlice (showLastSlice three_slices)) = 2%Z.
Proof.
  apply (next_and_last_slice_cancel three_slices [[]; []; []]).
  - reflexivity.
  - simpl. lia.
  - simpl. lia.
Defined.

(** X2: paging forward [k] times from a slice in range shows the slice
    [(index + k) mod n]; in particular as many presses as there are slices
    lead back to the start. *)
Theorem next_slice_cycles (w : MainWindow) (imgs : list (list Byte.byte)) (k : nat) :
  imageData w = Some imgs ->
  (0 < length imgs)%nat ->
  let n := Z.of_nat (length imgs) in
  (0 <= sliceIdx w < n)%Z ->
  sliceIdx (Nat.iter k showNextSlice w) = ((sliceIdx w + Z.of_nat k) mod n)%Z /\
  sliceIdx (Nat.iter (length imgs) showNextSlice w) = sliceIdx w.
Proof.
  intros Hd Hn n Hr.
  assert (Hn0 : (0 < n)%Z) by (unfold n; lia).
  assert (Hk : forall j, imageData (Nat.iter j showNextSlice w) = Some imgs /\
                         sliceIdx (Nat.iter j showNextSlice w)
                         = ((sliceIdx w + Z.of_nat j) mod n)%Z).
  { induction j as [| j [IHd IHi]].
    - split; [exact Hd |]. simpl. rewrite Z.add_0_r. symmetry. apply Z.mod_small. exact Hr.
    - change (Nat.iter (S j) showNextSlice w)
        with (showNextSlice (Nat.iter j showNextSlice w)).
      assert (Rj : (0 <= sliceIdx (Nat.iter j showNextSlice w) < n)%Z)
        by (rewrite IHi; apply Z.mod_pos_bound; exact Hn0).
      destruct (showNextSlice_slices _ imgs IHd Hn Rj) as [Hd' Hi']. fold n in Hi'.
      split; [exact Hd' |]. rewrite Hi', IHi.
      rewrite Zplus_mod_idemp_l. f_equal. lia. }
  split; [apply Hk |].
  rewrite (proj2 (Hk (length imgs))). fold n.
  replace (sliceIdx w + n)%Z with (sliceIdx w + 1 * n)%Z by lia.
  rewrite Z.mod_add by lia. apply Z.mod_small. exact Hr.
Qed.

Lemma next_slice_cycles_witness :
  sliceIdx (Nat.iter 3 showNextSlice three_slices) = sliceIdx three_slices.
Proof.
  refine (proj2 (next_slice_cycles three_slices [[]; []; []] 0 eq_refl _ _)).
  - simpl. lia.
  - simpl. lia.
Defined.

(** ** The crosshair of the listed beams *)

(** X3: for a positive threshold, [nearestCrosshairIntersection] reads the
    state without changing it and never moves the point by the threshold or
    more on either axis; when it reports no intersection, the position it
    returns is the point itself, in world coordinates. *)
Theorem crosshair_stays_within_threshold (w w' : MainWindow) (point : QPointF.t)
    (thr : R) (ixy : Point2) (hit : bool) :
  0 < thr ->
  nearestCrosshairIntersection point thr w = Ok (ixy, hit) w' ->
  w' = w /\
  Rabs (fst ixy - fst (qpointToPointcloud w point)) < thr /\
  Rabs (snd ixy - snd (qpointToPointcloud w point)) < thr /\
  (hit = false -> ixy = qpointToPointcloud w point).
Proof.
  intros Hthr H. unfold nearestCrosshairIntersection in H.
  apply bind_inv in H as (w0 & w1 & Hg & H). injection Hg as <- <-.
  apply bind_inv in H as (beams & w2 & Hb & H).
  apply beam_positions_state in Hb as ->.
  apply bind_inv in H as (self & w3 & Hg & H). injection Hg as <- <-.
  change (Ok (crosshair_of (qpointToPointcloud w point) thr beams
                (qpointToPointcloud w point, false)) w = Ok (ixy, hit) w') in H.
  injection H as Hres <-.
  split; [reflexivity |].
  destruct (crosshair_fold (qpointToPointcloud w point) thr beams
              (qpointToPointcloud w point, false)) as (Rx & Ry & Rf & _).
  - cbn [fst snd]. rewrite Rminus_diag, Rabs_R0. exact Hthr.
  - cbn [fst snd]. rewrite Rminus_diag, Rabs_R0. exact Hthr.
  - reflexivity.
  - rewrite Hres in Rx, Ry, Rf. cbn [fst snd] in Rx, Ry, Rf. auto.
Qed.

Lemma crosshair_stays_within_threshold_witness :
  let w := after_label "beam" [] None 1
             (mkShape "" [QPointF.mk 1.1 5] "point" None []) beam_drawn_near_beam in
  exists ixy : Point2,
    nearestCrosshairIntersection (QPointF.mk 1.1 5) 0.3 w = Ok (ixy, true) w /\
    Rabs (fst ixy - fst (qpointToPointcloud w (QPointF.mk 1.1 5))) < 0.3.
Proof.
  intros w.
  assert (Hthr : 0 < 0.3) by lra.
  destruct (crosshair_stays_within_threshold _ _ _ _ _ _ Hthr beam_near_beam_crosshair)
    as (_ & Hx & _).
  eexists. split; [exact beam_near_beam_crosshair | exact Hx].
Defined.

(** X4: [nearestCrosshairIntersection] reports an intersection exactly when
    the label list holds a shape labelled ['beam'] whose first point lies
    within the threshold of the point, in world coordinates, on the x axis or
    on the y axis.  Shapes with another label do not count, however near. *)
Theorem crosshair_hit_iff_beam_near (w w' : MainWindow) (point : QPointF.t)
    (thr : R) (ixy : Point2) (hit : bool) :
  nearestCrosshairIntersection point thr w = Ok (ixy, hit) w' ->
  (hit = true <->
   exists c : Point2,
     listed_beam w (itemsToShapes w) c /\
     (close_x thr (qpointToPointcloud w point) c \/
      close_y thr (qpointToPointcloud w point) c)).
Proof.
  intros H. unfold nearestCrosshairIntersection in H.
  apply bind_inv in H as (w0 & w1 & Hg & H). injection Hg as <- <-.
  apply bind_inv in H as (beams & w2 & Hb & H).
  pose proof (beam_positions_state _ _ _ _ Hb) as ->.
  pose proof (beam_positions_inv _ _ _ _ Hb) as Hlisted.
  apply bind_inv in H as (self & w3 & Hg & H). injection Hg as <- <-.
  change (Ok (crosshair_of (qpointToPointcloud w point) thr beams
                (qpointToPointcloud w point, false)) w = Ok (ixy, hit) w') in H.
  injection H as Hres <-.
  assert (Hex : Exists (fun b => Rabs (fst b - fst (qpointToPointcloud w point)) < thr \/
                                 Rabs (snd b - snd (qpointToPointcloud w point)) < thr) beams
                <-> exists c, listed_beam w (itemsToShapes w) c /\
                      (close_x thr (qpointToPointcloud w point) c \/
                       close_y thr (qpointToPointcloud w point) c)).
  { rewrite Exists_exists. unfold close_x, close_y.
    split; intros (c & Hc & Hn); exists c; (split; [apply Hlisted, Hc | exact Hn]). }
  rewrite <- Hex. clear Hex Hlisted.
  destruct (Rlt_dec 0 thr) as [Hthr | Hthr].
  - destruct (crosshair_fold (qpointToPointcloud w point) thr beams
                (qpointToPointcloud w point, false)) as (_ & _ & _ & Rh).
    + cbn [fst snd]. rewrite Rminus_diag, Rabs_R0. exact Hthr.
    + cbn [fst snd]. rewrite Rminus_diag, Rabs_R0. exact Hthr.
    + reflexivity.
    + rewrite Hres in Rh. cbn [fst snd] in Rh. rewrite Rh.
      split; [intros [Hf | He]; [discriminate | exact He] | intros He; right; exact He].
  - (* a threshold that is not positive is met by no beam *)
    assert (Hno : forall v, ~ Rabs v < thr).
    { intros v Hv. pose proof (Rabs_pos v). lra. }
    assert (Hfold : forall (bs : list Point2) (acc : Point2 * bool),
              crosshair_of (qpointToPointcloud w point) thr bs acc = acc).
    { induction bs as [| b bs IH]; intros acc; [reflexivity |].
      unfold crosshair_of. cbn [fold_left].
      rewrite !(Rltb_false _ _ (Hno _)). apply IH. }
    rewrite Hfold in Hres. injection Hres as _ <-.
    split; [discriminate |].
    intros He. exfalso. clear - He Hno.
    induction He as [b l [Hb | Hb] | b l _ IH]; [apply (Hno _ Hb) | apply (Hno _ Hb) | exact IH].
Qed.

(** The drawn beam at the world point (1.1, 5) is within 0.3 of the beam
    listed at (1, 1) on the x axis. *)
Lemma crosshair_hit_iff_beam_near_witness :
  let w := after_label "beam" [] None 1
             (mkShape "" [QPointF.mk 1.1 5] "point" None []) beam_drawn_near_beam in
  exists c : Point2,
    listed_beam w (itemsToShapes w) c /\
    (close_x 0.3 (qpointToPointcloud w (QPointF.mk 1.1 5)) c \/
     close_y 0.3 (qpointToPointcloud w (QPointF.mk 1.1 5)) c).
Proof.
  intros w.
  apply (proj1 (crosshair_hit_iff_beam_near _ _ _ _ _ _ beam_near_beam_crosshair)).
  reflexivity.
Defined.

(** ** Aligning the room *)

Lemma substring_prefix_length (m : nat) :
  forall s : string, (String.length (substring 0 m s) <= m)%nat.
Proof.
  induction m as [| m IH]; intros s; [destruct s; simpl; lia |].
  destruct s as [| c s]; [simpl; lia |].
  simpl. specialize (IH s). lia.
Qed.

Lemma label_slice_never_walls (s : string) :
  String.eqb (substring 0 4 s) "walls" = false.
Proof.
  destruct (String.eqb_spec (substring 0 4 s) "walls") as [E | _]; [| reflexivity].
  pose proof (substring_prefix_length 4 s) as H. rewrite E in H. simpl in H. lia.
Qed.

Lemma walls_angle_none (align : list (R * R) -> R) (w : MainWindow) (l : list nat) :
  (forall a, a ∈ l -> is_Some (heap w !! a)) ->
  walls_angle align l w = Ok None w.
Proof.
  induction l as [| a l IH]; intros Hv; [reflexivity |].
  cbn [walls_angle].
  destruct (Hv a) as [s Hs]; [left |].
  rewrite (bind_ok _ _ _ _ _ (shape_at_ok _ _ _ Hs)).
  rewrite label_slice_never_walls. cbn [andb].
  apply IH. intros b Hb. apply Hv. right. exact Hb.
Qed.

(** X5: [alignRoom] never rotates anything.  The loop looks for a shape
    with [s.label[:4] == 'walls'], and a slice of at most four characters is
    never the five-character ['walls']: for every annotation, whatever the
    estimator and the user's answer, the call returns with the window as it
    was ([True] when nothing is unsaved, [None] otherwise). *)
Theorem alignRoom_never_rotates (align : list (R * R) -> R)
    (rotate_and_write : R -> M unit) (save_and_reload : M unit)
    (self : MainWindow) (dirty apply : bool) :
  (forall a, a ∈ itemsToShapes self -> is_Some (heap self !! a)) ->
  alignRoom align rotate_and_write save_and_reload dirty apply self
  = Ok (if dirty then None else Some true) self.
Proof.
  intros Hv. unfold alignRoom.
  destruct dirty; cbn [negb]; [| reflexivity].
  destruct apply; cbn [negb]; [| reflexivity].
  rewrite (bind_ok _ _ self self self) by reflexivity.
  rewrite (bind_ok _ _ _ _ _ (walls_angle_none align self _ Hv)).
  reflexivity.
Qed.

Lemma alignRoom_never_rotates_witness :
  label (mkShape "walls" [QPointF.mk 1 0] "polygon" None []) = "walls"%string /\
  alignRoom (fun _ => 90) (fun _ => modify (with_heap [])) (modify (with_heap []))
    true true one_vertex = Ok None one_vertex.
Proof.
  split; [reflexivity |].
  apply (alignRoom_never_rotates (fun _ => 90) (fun _ => modify (with_heap []))
           (modify (with_heap [])) one_vertex true true).
  intros a Ha. simpl in Ha. apply list_elem_of_singleton in Ha as ->.
  eexists. reflexivity.
Defined.

(** ** Merging racks: the bounding box *)

Lemma np_min_fold (ps : list Point2) :
  forall acc : Point2,
  let res := fold_left (fun a q => (Rmin (fst a) (fst q), Rmin (snd a) (snd q))) ps acc in
  (fst res <= fst acc /\ snd res <= snd acc) /\
  (forall c, c ∈ ps -> fst res <= fst c /\ snd res <= snd c) /\
  (fst res = fst acc \/ exists c, c ∈ ps /\ fst res = fst c) /\
  (snd res = snd acc \/ exists c, c ∈ ps /\ snd res = snd c).
Proof.
  induction ps as [| q ps IH]; intros acc; cbn [fold_left].
  - split; [split; lra |]. split; [intros c Hc; inversion Hc |]. split; left; reflexivity.
  - destruct (IH (Rmin (fst acc) (fst q), Rmin (snd acc) (snd q)))
      as ((Hx & Hy) & Hall & Hfx & Hfy).
    cbn [fst snd] in Hx, Hy, Hfx, Hfy.
    match type of Hx with (fst ?t <= _) => set (res := t) in * end.
    pose proof (Rmin_l (fst acc) (fst q)). pose proof (Rmin_r (fst acc) (fst q)).
    pose proof (Rmin_l (snd acc) (snd q)). pose proof (Rmin_r (snd acc) (snd q)).
    split; [split; lra |]. split; [| split].
    + intros c Hc. apply elem_of_cons in Hc as [-> | Hc]; [split; lra | apply Hall, Hc].
    + destruct Hfx as [E | (c & Hc & E)].
      * unfold Rmin in E. destruct (Rle_dec (fst acc) (fst q)).
        -- left. exact E.
        -- right. exists q. split; [left | exact E].
      * right. exists c. split; [right; exact Hc | exact E].
    + destruct Hfy as [E | (c & Hc & E)].
      * unfold Rmin in E. destruct (Rle_dec (snd acc) (snd q)).
        -- left. exact E.
        -- right. exists q. split; [left | exact E].
      * right. exists c. split; [right; exact Hc | exact E].
Qed.

Lemma np_max_fold (ps : list Point2) :
  forall acc : Point2,
  let res := fold_left (fun a q => (Rmax (fst a) (fst q), Rmax (snd a) (snd q))) ps acc in
  (fst acc <= fst res /\ snd acc <= snd res) /\
  (forall c, c ∈ ps -> fst c <= fst res /\ snd c <= snd res) /\
  (fst res = fst acc \/ exists c, c ∈ ps /\ fst res = fst c) /\
  (snd res = snd acc \/ exists c, c ∈ ps /\ snd res = snd c).
Proof.
  induction ps as [| q ps IH]; intros acc; cbn [fold_left].
  - split; [split; lra |]. split; [intros c Hc; inversion Hc |]. split; left; reflexivity.
  - destruct (IH (Rmax (fst acc) (fst q), Rmax (snd acc) (snd q)))
      as ((Hx & Hy) & Hall & Hfx & Hfy).
    cbn [fst snd] in Hx, Hy, Hfx, Hfy.
    match type of Hx with (_ <= fst ?t) => set (res := t) in * end.
    pose proof (Rmax_l (fst acc) (fst q)). pose proof (Rmax_r (fst acc) (fst q)).
    pose proof (Rmax_l (snd acc) (snd q)). pose proof (Rmax_r (snd acc) (snd q)).
    split; [split; lra |]. split; [| split].
    + intros c Hc. apply elem_of_cons in Hc as [-> | Hc]; [split; lra | apply Hall, Hc].
    + destruct Hfx as [E | (c & Hc & E)].
      * unfold Rmax in E. destruct (Rle_dec (fst acc) (fst q)).
        -- right. exists q. split; [left | exact E].
        -- left. exact E.
      * right. exists c. split; [right; exact Hc | exact E].
    + destruct Hfy as [E | (c & Hc & E)].
      * unfold Rmax in E. destruct (Rle_dec (snd acc) (snd q)).
        -- right. exists q. split; [left | exact E].
        -- left. exact E.
      * right. exists c. split; [right; exact Hc | exact E].
Qed.

(** [np.min] and [np.max] along axis 0 of a list that is not empty. *)
Lemma np_min_spec (cs : list Point2) (w : MainWindow) :
  cs <> [] ->
  exists lo : Point2,
    np_min cs w = Ok lo w /\
    (forall c, c ∈ cs -> fst lo <= fst c /\ snd lo <= snd c) /\
    (exists c, c ∈ cs /\ fst lo = fst c) /\
    (exists c, c ∈ cs /\ snd lo = snd c).
Proof.
  destruct cs as [| p ps]; [congruence |]. intros _.
  destruct (np_min_fold ps p) as ((Hx & Hy) & Hall & Hfx & Hfy).
  eexists. split; [reflexivity |]. split; [| split].
  - intros c Hc. apply elem_of_cons in Hc as [-> | Hc]; [split; assumption | apply Hall, Hc].
  - destruct Hfx as [E | (c & Hc & E)].
    + exists p. split; [left | exact E].
    + exists c. split; [right; exact Hc | exact E].
  - destruct Hfy as [E | (c & Hc & E)].
    + exists p. split; [left | exact E].
    + exists c. split; [right; exact Hc | exact E].
Qed.

Lemma np_max_spec (cs : list Point2) (w : MainWindow) :
  cs <> [] ->
  exists hi : Point2,
    np_max cs w = Ok hi w /\
    (forall c, c ∈ cs -> fst c <= fst hi /\ snd c <= snd hi) /\
    (exists c, c ∈ cs /\ fst hi = fst c) /\
    (exists c, c ∈ cs /\ snd hi = snd c).
Proof.
  destruct cs as [| p ps]; [congruence |]. intros _.
  destruct (np_max_fold ps p) as ((Hx & Hy) & Hall & Hfx & Hfy).
  eexists. split; [reflexivity |]. split; [| split].
  - intros c Hc. apply elem_of_cons in Hc as [-> | Hc]; [split; assumption | apply Hall, Hc].
  - destruct Hfx as [E | (c & Hc & E)].
    + exists p. split; [left | exact E].
    + exists c. split; [right; exact Hc | exact E].
  - destruct Hfy as [E | (c & Hc & E)].
    + exists p. split; [left | exact E].
    + exists c. split; [right; exact Hc | exact E].
Qed.

(** The corners collected from racks that all have two points. *)
Lemma rack_corners_spec (w : MainWindow) (racks : list nat) :
  Forall (has_two_corners w) racks ->
  exists cs : list Point2,
    rack_corners racks w = Ok cs w /\
    (forall c, c ∈ cs <-> rack_corner w racks c).
Proof.
  induction 1 as [| a racks (s & p0 & p1 & rest & Hs & Hp) _ (cs & Hrun & Hcs)].
  - exists []. split; [reflexivity |]. intros c. split.
    + intros Hc. inversion Hc.
    + intros (a & s & p0 & p1 & rest & Ha & _). inversion Ha.
  - assert (H0 : points s !! 0%nat = Some p0) by (rewrite Hp; reflexivity).
    assert (H1 : points s !! 1%nat = Some p1) by (rewrite Hp; reflexivity).
    exists (qpointToPointcloud w p0 :: qpointToPointcloud w p1 :: cs).
    split.
    + cbn [rack_corners].
      rewrite (bind_ok _ _ _ _ _ (point_at_ok _ _ _ _ _ Hs H0)).
      rewrite (bind_ok _ _ _ _ _ (point_at_ok _ _ _ _ _ Hs H1)).
      rewrite (bind_ok _ _ w w w) by reflexivity.
      rewrite (bind_ok _ _ _ _ _ Hrun). reflexivity.
    + intros c. rewrite !elem_of_cons, Hcs. split.
      * intros [-> | [-> | (b & sb & q0 & q1 & qs & Hb & Hsb & Hq & Hc)]].
        -- exists a, s, p0, p1, rest. repeat split; auto. left.
        -- exists a, s, p0, p1, rest. repeat split; auto. left.
        -- exists b, sb, q0, q1, qs. repeat split; auto. right. exact Hb.
      * intros (b & sb & q0 & q1 & qs & Hb & Hsb & Hq & Hc).
        apply elem_of_cons in Hb as [-> | Hb].
        -- rewrite Hs in Hsb. injection Hsb as <-. rewrite Hp in Hq.
           injection Hq as <- <- _. destruct Hc as [-> | ->]; auto.
        -- right. right. exists b, sb, q0, q1, qs. repeat split; auto.
Qed.

(** X9: when the selection holds at least one rack and every selected rack
    has two corners, [unsplitRacks] returns, changes the first selected rack
    only, and makes it the world bounding box of the selected racks: both
    corners of every selected rack lie in the new box, and each side of the
    box goes through a corner of a selected rack. *)
Theorem unsplitRacks_bounding_box (self : MainWindow) (r : nat) (rs : list nat)
    (rk : Shape) (p0 p1 : QPointF.t) (rest : list QPointF.t) :
  racks_in (selectedItems self) self = Ok (r :: rs) self ->
  Forall (has_two_corners self) (r :: rs) ->
  heap self !! r = Some rk ->
  points rk = p0 :: p1 :: rest ->
  exists (self' : MainWindow) (lo hi : Point2),
    unsplitRacks self = Ok tt self' /\
    heap self' =
      <[r := set_points rk (pointcloudToQpoint self lo :: pointcloudToQpoint self hi :: rest)]>
        (heap self) /\
    (forall c, rack_corner self (r :: rs) c -> in_world_box lo hi c) /\
    (exists c, rack_corner self (r :: rs) c /\ fst lo = fst c) /\
    (exists c, rack_corner self (r :: rs) c /\ snd lo = snd c) /\
    (exists c, rack_corner self (r :: rs) c /\ fst hi = fst c) /\
    (exists c, rack_corner self (r :: rs) c /\ snd hi = snd c).
Proof.
  intros Hracks Htwo Hr Hpts.
  assert (Hlt : (r < length (heap self))%nat) by (apply lookup_lt_Some in Hr; exact Hr).
  assert (H0 : points rk !! 0%nat = Some p0) by (rewrite Hpts; reflexivity).
  destruct (rack_corners_spec self (r :: rs) Htwo) as (cs & Hcs & Hin).
  assert (Hne : cs <> []).
  { intros ->. assert (Hc : rack_corner self (r :: rs) (qpointToPointcloud self p0)).
    { exists r, rk, p0, p1, rest. repeat split; auto. left. }
    apply Hin in Hc. inversion Hc. }
  destruct (np_min_spec cs self Hne) as (lo & Hlo & Hlo_le & Hlo_x & Hlo_y).
  set (s1 := set_points rk (<[0%nat := pointcloudToQpoint self lo]> (points rk))).
  set (w1 := with_heap (<[r := s1]> (heap self)) self).
  destruct (np_max_spec cs w1 Hne) as (hi & Hhi & Hhi_le & Hhi_x & Hhi_y).
  assert (Hs1 : heap w1 !! r = Some s1) by (apply list_lookup_insert_eq; exact Hlt).
  assert (H11 : points s1 !! 1%nat = Some p1)
    by (unfold s1; cbn [points set_points]; rewrite Hpts; reflexivity).
  exists (updatePixmap
            (with_heap (<[r := set_points s1 (<[1%nat := pointcloudToQpoint w1 hi]> (points s1))]>
                          (heap w1)) w1)), lo, hi.
  split; [| split; [| split; [| split; [| split; [| split]]]]].
  - unfold unsplitRacks.
    rewrite (bind_ok _ _ self self self) by reflexivity.
    rewrite (bind_ok _ _ _ _ _ Hracks).
    rewrite (bind_ok _ _ _ _ _ Hcs).
    rewrite (bind_ok _ _ _ _ _ Hlo).
    rewrite (bind_ok _ _ self self r) by reflexivity.
    rewrite (bind_ok _ _ self self self) by reflexivity.
    rewrite (bind_ok _ _ self w1 tt) by (apply (set_point_ok _ _ _ _ p0); assumption).
    rewrite (bind_ok _ _ _ _ _ Hhi).
    rewrite (bind_ok _ _ w1 w1 r) by reflexivity.
    rewrite (bind_ok _ _ w1 w1 w1) by reflexivity.
    rewrite (bind_ok _ _ _ _ _ (set_point_ok _ _ _ _ _ (pointcloudToQpoint w1 hi) Hs1 H11)).
    reflexivity.
  - rewrite heap_updatePixmap. unfold w1, s1.
    cbn [heap with_heap points set_points].
    rewrite list_insert_insert_eq, Hpts. reflexivity.
  - intros c Hc. apply Hin in Hc.
    destruct (Hlo_le c Hc), (Hhi_le c Hc). unfold in_world_box. lra.
  - destruct Hlo_x as (c & Hc & E). exists c. split; [apply Hin, Hc | exact E].
  - destruct Hlo_y as (c & Hc & E). exists c. split; [apply Hin, Hc | exact E].
  - destruct Hhi_x as (c & Hc & E). exists c. split; [apply Hin, Hc | exact E].
  - destruct Hhi_y as (c & Hc & E). exists c. split; [apply Hin, Hc | exact E].
Qed.

Lemma unsplitRacks_bounding_box_witness :
  exists (self' : MainWindow) (lo hi : Point2),
    unsplitRacks two_racks_selected = Ok tt self' /\
    in_world_box lo hi (10, 4) /\ in_world_box lo hi (0, 0).
Proof.
  assert (Htwo : Forall (has_two_corners two_racks_selected) [0%nat; 1%nat]).
  { repeat constructor; eexists _, _, _, _; split; reflexivity. }
  destruct (unsplitRacks_bounding_box two_racks_selected 0%nat [1%nat]
              (rack_shape 0 5 4 0) (QPointF.mk 0 5) (QPointF.mk 4 0) []
              eq_refl Htwo eq_refl eq_refl)
    as (self' & lo & hi & Hrun & _ & Hbox & _).
  exists self', lo, hi. split; [exact Hrun |]. split.
  - replace (10, 4) with (qpointToPointcloud two_racks_selected (QPointF.mk 10 1))
      by (unfold qpointToPointcloud; cbn; f_equal; lra).
    apply Hbox. exists 1%nat, (rack_shape 6 4 10 1), (QPointF.mk 6 4), (QPointF.mk 10 1), [].
    split; [right; left |]. split; [reflexivity |]. split; [reflexivity |]. right. reflexivity.
  - replace (0, 0) with (qpointToPointcloud two_racks_selected (QPointF.mk 0 5))
      by (unfold qpointToPointcloud; cbn; f_equal; lra).
    apply Hbox. exists 0%nat, (rack_shape 0 5 4 0), (QPointF.mk 0 5), (QPointF.mk 4 0), [].
    split; [left |]. split; [reflexivity |]. split; [reflexivity |]. left. reflexivity.
Defined.

(** ** Cutting a double rack keeps the outline *)

(** X10: for a box given corner-first ([x0 <= x1], [y0 <= y1]) that spans at
    least 0.1 on both axes, the two halves returned by [splitTwoRacks] have
    the original box as the bounding box of their four corners: [np.min] of
    the corners is the lower corner and [np.max] the upper one, so merging
    the halves the way [unsplitRacks] does gives the box back. *)
Theorem splitTwoRacks_halves_span_box (self : MainWindow) (kind : string) (c x0 y0 x1 y1 : R) :
  _config self kind = Some c ->
  x0 + 0.1 <= x1 ->
  y0 + 0.1 <= y1 ->
  exists b1 b2 : Box,
    splitTwoRacks kind ((x0, y0), (x1, y1)) self = Ok (b1, b2) self /\
    np_min [fst b1; snd b1; fst b2; snd b2] self = Ok (x0, y0) self /\
    np_max [fst b1; snd b1; fst b2; snd b2] self = Ok (x1, y1) self.
Proof.
  intros Hc Hx Hy.
  unfold splitTwoRacks, bind, config, ret. rewrite Hc.
  destruct (Rltb _ _); eexists _, _; (split; [reflexivity |]);
    unfold np_min, np_max, ret; cbn [fold_left fst snd]; split; f_equal; f_equal;
    unfold Rmin, Rmax; repeat destruct (Rle_dec _ _); lra.
Qed.

Lemma splitTwoRacks_halves_span_box_witness :
  exists b1 b2 : Box,
    splitTwoRacks "select_rack" ((0, 0), (4, 2)) (blank_window 1 5) = Ok (b1, b2) (blank_window 1 5) /\
    np_min [fst b1; snd b1; fst b2; snd b2] (blank_window 1 5) = Ok (0, 0) (blank_window 1 5) /\
    np_max [fst b1; snd b1; fst b2; snd b2] (blank_window 1 5) = Ok (4, 2) (blank_window 1 5).
Proof.
  apply (splitTwoRacks_halves_span_box (blank_window 1 5) "select_rack" 5.0 0 0 4 2);
    [reflexivity | lra | lra].
Defined.

(** ** Racks that the beam pass leaves alone *)

Lemma racks_in_spec (w : MainWindow) (l : list nat) :
  Forall (fun a => is_Some (heap w !! a)) l ->
  exists rs : list nat,
    racks_in l w = Ok rs w /\
    forall a, a ∈ rs ->
      a ∈ l /\ exists s, heap w !! a = Some s /\ str_in "rack" (label s) = true.
Proof.
  induction 1 as [| a l [s Hs] _ (rs & Hrun & Hrs)].
  - exists []. split; [reflexivity |]. intros a Ha. inversion Ha.
  - exists (if str_in "rack" (label s) then a :: rs else rs). split.
    + cbn [racks_in].
      rewrite (bind_ok _ _ _ _ _ (shape_at_ok _ _ _ Hs)).
      rewrite (bind_ok _ _ _ _ _ Hrun). reflexivity.
    + intros b Hb. destruct (str_in "rack" (label s)) eqn:E.
      * apply elem_of_cons in Hb as [-> | Hb].
        -- split; [left | exists s; split; assumption].
        -- destruct (Hrs b Hb) as [Hl Hx]. split; [right; exact Hl | exact Hx].
      * destruct (Hrs b Hb) as [Hl Hx]. split; [right; exact Hl | exact Hx].
Qed.

Lemma for_each_idle {A : Type} (l : list A) (body : A -> M unit) (w : MainWindow) :
  (forall v, v ∈ l -> body v w = Ok tt w) -> for_each l body w = Ok tt w.
Proof.
  induction l as [| v l IH]; intros H; [reflexivity |].
  cbn [for_each]. rewrite (bind_ok _ _ w w tt) by (apply H; left).
  apply IH. intros v' Hv'. apply H. right. exact Hv'.
Qed.

Lemma splitRacks_beams_idle (containsPoint : Shape -> QPointF.t -> bool)
    (rack : nat) (x_dim y_dim x_c y_c : R) (w : MainWindow) :
  (forall a, a ∈ itemsToShapes w ->
     splitRacks_beam containsPoint rack x_dim y_dim x_c y_c a w = Ok tt w) ->
  forall fuel i : nat,
  (length (itemsToShapes w) - i < fuel)%nat ->
  splitRacks_beams containsPoint fuel rack x_dim y_dim x_c y_c i w = Ok tt w.
Proof.
  intros Hidle. induction fuel as [| fuel IH]; intros i Hfuel; [lia |].
  cbn [splitRacks_beams]. rewrite (bind_ok _ _ w w w) by reflexivity.
  destruct (itemsToShapes w !! i) as [a |] eqn:Ha; [| reflexivity].
  rewrite (bind_ok _ _ w w tt) by (apply Hidle; eapply list_elem_of_lookup_2; exact Ha).
  apply IH. apply lookup_lt_Some in Ha. lia.
Qed.

(** A beam is never within the x-range or the y-range of a rack whose
    first corner is not left of and above the second one. *)
Lemma splitRacks_beam_reversed (containsPoint : Shape -> QPointF.t -> bool) (w : MainWindow)
    (x_dim y_dim x_c y_c : R) (rack a : nat) :
  reversed_rack w rack ->
  beam_has_point w a ->
  splitRacks_beam containsPoint rack x_dim y_dim x_c y_c a w = Ok tt w.
Proof.
  intros (rk & r0 & r1 & rs & Hrk & Hpts & Hx & Hy) (s & Hs & Hb).
  unfold splitRacks_beam.
  rewrite (bind_ok _ _ _ _ _ (shape_at_ok _ _ _ Hs)).
  destruct (String.eqb_spec (label s) "beam") as [El | _]; [| reflexivity].
  destruct (points s) as [| b bs] eqn:Eb; [destruct (Hb El); reflexivity |].
  assert (H0 : points rk !! 0%nat = Some r0) by (rewrite Hpts; reflexivity).
  assert (H1 : points rk !! 1%nat = Some r1) by (rewrite Hpts; reflexivity).
  assert (Hb0 : points s !! 0%nat = Some b) by (rewrite Eb; reflexivity).
  rewrite (bind_ok _ _ _ _ _ (point_at_ok _ _ _ _ _ Hrk H0)).
  rewrite (bind_ok _ _ _ _ _ (point_at_ok _ _ _ _ _ Hs Hb0)).
  rewrite (bind_ok _ _ _ _ _ (point_at_ok _ _ _ _ _ Hrk H1)).
  assert (Ex : Rltb (QPointF.x r0) (QPointF.x b) && Rltb (QPointF.x b) (QPointF.x r1) = false).
  { apply andb_false_iff.
    destruct (Rlt_dec (QPointF.x r0) (QPointF.x b)).
    - right. apply Rltb_false. lra.
    - left. apply Rltb_false. assumption. }
  assert (Ey : Rltb (QPointF.y r0) (QPointF.y b) && Rltb (QPointF.y b) (QPointF.y r1) = false).
  { apply andb_false_iff.
    destruct (Rlt_dec (QPointF.y r0) (QPointF.y b)).
    - right. apply Rltb_false. lra.
    - left. apply Rltb_false. assumption. }
  rewrite Ex, Ey. reflexivity.
Qed.

(** X11: [splitRacks] tests a beam against [points[0] < beam < points[1]] on
    each axis, so a rack whose first corner is right of and below its second
    corner on the screen is never split: when every rack of the list taken
    (the selection or the whole label list) is such a rectangle,
    [splitRacks] returns and leaves the window as it was, whatever beams
    there are. *)
Theorem splitRacks_skips_reversed_racks (containsPoint : Shape -> QPointF.t -> bool)
    (self : MainWindow) (fuel : nat) (selected : bool) :
  Forall (beam_has_point self) (itemsToShapes self) ->
  Forall (fun a => not_a_rack self a \/ reversed_rack self a)
         (if selected then selectedItems self else itemsToShapes self) ->
  (length (itemsToShapes self) < fuel)%nat ->
  splitRacks containsPoint fuel selected self = Ok tt self.
Proof.
  intros Hitems Hracks Hfuel.
  assert (Hvalid : Forall (fun a => is_Some (heap self !! a))
                          (if selected then selectedItems self else itemsToShapes self)).
  { eapply Forall_impl; [exact Hracks |]. cbn beta.
    intros a [(s & Hs & _) | (s & ? & ? & ? & Hs & _)]; exists s; exact Hs. }
  destruct (racks_in_spec self _ Hvalid) as (rs & Hrun & Hrs).
  unfold splitRacks.
  rewrite (bind_ok _ _ self self self) by reflexivity.
  rewrite (bind_ok _ _ _ _ _ Hrun).
  apply for_each_idle. intros r Hr.
  destruct (Hrs r Hr) as (Hin & s & Hs & Hlabel).
  assert (Hrev : reversed_rack self r).
  { rewrite Forall_forall in Hracks. destruct (Hracks r Hin) as [(s' & Hs' & Hl') | H]; [| exact H].
    rewrite Hs in Hs'. injection Hs' as <-. congruence. }
  pose proof Hrev as (rk & r0 & r1 & rest & Hrk & Hpts & _).
  assert (H0 : points rk !! 0%nat = Some r0) by (rewrite Hpts; reflexivity).
  assert (H1 : points rk !! 1%nat = Some r1) by (rewrite Hpts; reflexivity).
  unfold splitRacks_rack.
  rewrite (bind_ok _ _ _ _ _ (point_at_ok _ _ _ _ _ Hrk H0)).
  rewrite (bind_ok _ _ _ _ _ (point_at_ok _ _ _ _ _ Hrk H1)).
  apply splitRacks_beams_idle; [| lia].
  intros a Ha. apply splitRacks_beam_reversed; [exact Hrev |].
  rewrite Forall_forall in Hitems. apply Hitems, Ha.
Qed.

Lemma splitRacks_skips_reversed_racks_witness :
  splitRacks box_contains 3 false reversed_rack_and_beam = Ok tt reversed_rack_and_beam.
Proof.
  apply (splitRacks_skips_reversed_racks box_contains reversed_rack_and_beam 3 false).
  - repeat constructor; eexists; (split; [reflexivity |]); cbn; intros _; discriminate.
  - constructor; [| constructor; [| constructor]].
    + right. exists (rack_shape 10 4 0 0), (QPointF.mk 10 4), (QPointF.mk 0 0), [].
      split; [reflexivity |]. split; [reflexivity |]. cbn. split; lra.
    + left. exists (beam_shape 5 2). split; reflexivity.
  - cbn. lia.
Defined.

(** ** A rack label without a configured size *)

(** X12: [newShape] looks the label of a new rack up in [self._config]
    ([isTwoRacks]) as soon as the drawn rectangle holds a point.  For a rack
    label that has no entry there it raises [KeyError]; the drawn shape has
    its label and group by then, and is not added to the label list. *)
Theorem newShape_rack_unknown_kind (self : MainWindow) (text : string)
    (fl : list (string * bool)) (gid : option Z) (a : nat) (s : Shape)
    (p0 p1 : QPointF.t) (rest : list QPointF.t) :
  str_in "rack" text = true ->
  _config self text = None ->
  last (canvas_shapes self) = Some a ->
  heap self !! a = Some s ->
  points s = p0 :: p1 :: rest ->
  np_sum (in_box_2d (pointcloud self) (qpointToPointcloud self p0, qpointToPointcloud self p1))
    <> 0%nat ->
  exists self' : MainWindow,
    newShape text fl gid self = Raise KeyError self' /\
    heap self' !! a = Some (labelled text fl gid s) /\
    itemsToShapes self' = itemsToShapes self.
Proof.
  intros Hrack Hcfg Hlast Hs Hpts Hsum.
  destruct (rack_label_other text Hrack) as (He & Hb & Hp & Hw & Hws).
  exists (after_label text fl gid a s self).
  split; [| split; [apply heap_after_label; exact Hs | reflexivity]].
  rewrite (newShape_prelude text fl gid self a s He Hlast Hs).
  set (w := after_label text fl gid a s self).
  assert (Hsw : heap w !! a = Some (labelled text fl gid s)) by (apply heap_after_label; exact Hs).
  assert (H0 : points (labelled text fl gid s) !! 0%nat = Some p0)
    by (cbn [labelled points set_group_id set_label]; rewrite Hpts; reflexivity).
  assert (H1 : points (labelled text fl gid s) !! 1%nat = Some p1)
    by (cbn [labelled points set_group_id set_label]; rewrite Hpts; reflexivity).
  apply bind_raise.
  unfold snap_new_shape. rewrite Hb, Hp, Hw, Hws, Hrack. cbn [orb].
  rewrite (bind_ok _ _ w w tt) by reflexivity.
  rewrite (bind_ok _ _ _ _ _ (point_at_ok _ _ _ _ _ Hsw H0)).
  rewrite (bind_ok _ _ _ _ _ (point_at_ok _ _ _ _ _ Hsw H1)).
  rewrite (bind_ok _ _ w w w) by reflexivity.
  change (np_sum (in_box_2d (pointcloud w) (qpointToPointcloud w p0, qpointToPointcloud w p1)))
    with (np_sum (in_box_2d (pointcloud self)
                    (qpointToPointcloud self p0, qpointToPointcloud self p1))).
  destruct (Nat.eqb_spec
              (np_sum (in_box_2d (pointcloud self)
                         (qpointToPointcloud self p0, qpointToPointcloud self p1))) 0)
    as [E | _]; [contradiction |].
  apply bind_raise.
  unfold isTwoRacks. apply bind_raise.
  unfold config. change (_config w) with (_config self). rewrite Hcfg. reflexivity.
Qed.

Lemma newShape_rack_unknown_kind_witness :
  exists self' : MainWindow,
    newShape "rack" [] None rack_drawn_on_points = Raise KeyError self' /\
    heap self' !! 0%nat =
      Some (labelled "rack" [] None
              (mkShape "" [QPointF.mk 0 10; QPointF.mk 10 5] "rectangle" None [])) /\
    itemsToShapes self' = itemsToShapes rack_drawn_on_points.
Proof.
  apply (newShape_rack_unknown_kind rack_drawn_on_points "rack" [] None 0%nat
           (mkShape "" [QPointF.mk 0 10; QPointF.mk 10 5] "rectangle" None [])
           (QPointF.mk 0 10) (QPointF.mk 10 5) []);
    try reflexivity.
  cbn. discriminate.
Defined.

(** ** Saving and loading shapes *)

Lemma load_each_run (re_match : string -> string -> bool)
    (label_flags : option (list (string * list string)))
    (addPoint : list QPointF.t -> QPointF.t -> list QPointF.t) (ds : list ShapeDict) :
  forall w : MainWindow,
  load_each re_match label_flags addPoint ds w =
    Ok (seq (length (heap w)) (length ds))
       (with_heap (heap w ++ map (shape_of_dict re_match label_flags addPoint w) ds) w).
Proof.
  induction ds as [| d ds IH]; intros w.
  - cbn [load_each map length seq]. rewrite app_nil_r, with_heap_eta. reflexivity.
  - cbn [load_each].
    rewrite (bind_ok _ _ w w w) by reflexivity.
    set (s := shape_of_dict re_match label_flags addPoint w d).
    rewrite (bind_ok _ _ w (with_heap (heap w ++ [s]) w) (length (heap w))) by reflexivity.
    rewrite (bind_ok _ _ _ _ _ (IH _)).
    unfold ret. cbn [heap with_heap length map seq].
    rewrite length_app, Nat.add_1_r, <- app_assoc. reflexivity.
Qed.

Lemma for_each_addLabel (l : list nat) :
  forall w : MainWindow,
  for_each l addLabel w = Ok tt (with_itemsToShapes (itemsToShapes w ++ l) w).
Proof.
  induction l as [| a l IH]; intros w.
  - cbn [for_each]. rewrite app_nil_r. destruct w; reflexivity.
  - cbn [for_each].
    rewrite (bind_ok _ _ w (with_itemsToShapes (itemsToShapes w ++ [a]) w) tt) by reflexivity.
    rewrite IH. cbn [itemsToShapes with_itemsToShapes]. rewrite <- app_assoc. reflexivity.
Qed.

(** [loadLabels] never fails and touches no shape that exists: the new
    shapes join the store and the label list, and replace the canvas. *)
Lemma loadLabels_run (re_match : string -> string -> bool)
    (label_flags : option (list (string * list string)))
    (addPoint : list QPointF.t -> QPointF.t -> list QPointF.t)
    (ds : list ShapeDict) (w : MainWindow) :
  exists w' : MainWindow,
    loadLabels re_match label_flags addPoint ds w = Ok tt w' /\
    heap w' = heap w ++ map (shape_of_dict re_match label_flags addPoint w) ds /\
    itemsToShapes w' = itemsToShapes w ++ seq (length (heap w)) (length ds) /\
    canvas_shapes w' = seq (length (heap w)) (length ds) /\
    selectedItems w' = [].
Proof.
  eexists. split.
  - unfold loadLabels.
    rewrite (bind_ok _ _ _ _ _ (load_each_run _ _ _ _ _)).
    unfold loadShapes.
    rewrite (bind_ok _ _ _ _ _ (for_each_addLabel _ _)).
    reflexivity.
  - repeat split.
Qed.

Lemma saved_shapes_run (l : list nat) (vs : list Shape) (w : MainWindow) :
  Forall2 (fun a s => heap w !! a = Some s) l vs ->
  saved_shapes l w = Ok (map (format_shape w) vs) w.
Proof.
  induction 1 as [| a s l vs Hs _ IH]; [reflexivity |].
  cbn [saved_shapes].
  rewrite (bind_ok _ _ _ _ _ (shape_at_ok _ _ _ Hs)).
  rewrite (bind_ok _ _ w w w) by reflexivity.
  rewrite (bind_ok _ _ _ _ _ IH). reflexivity.
Qed.

(** Assignments to a dictionary. *)
Lemma dict_get_set (k k0 : string) (v : bool) (d : list (string * bool)) :
  dict_get k (dict_set k0 v d) = if String.eqb k0 k then Some v else dict_get k d.
Proof.
  induction d as [| [k' v'] d IH]; cbn [dict_set dict_get].
  - reflexivity.
  - destruct (String.eqb_spec k' k0) as [-> | Hne]; cbn [dict_get].
    + destruct (String.eqb k0 k); reflexivity.
    + rewrite IH. destruct (String.eqb_spec k' k) as [-> | Hne'].
      * destruct (String.eqb_spec k0 k) as [-> | _]; [contradiction | reflexivity].
      * reflexivity.
Qed.

Lemma dict_get_absent (k : string) (d : list (string * bool)) :
  k ∉ map fst d -> dict_get k d = None.
Proof.
  induction d as [| [k' v'] d IH]; intros Hk; cbn [dict_get]; [reflexivity |].
  cbn [map fst] in Hk. apply not_elem_of_cons in Hk as [Hne Hk].
  destruct (String.eqb_spec k' k) as [-> | _]; [contradiction | apply IH, Hk].
Qed.

Lemma dict_get_update (k : string) (other : list (string * bool)) :
  NoDup (map fst other) ->
  forall d : list (string * bool),
  dict_get k (dict_update d other) =
    match dict_get k other with Some v => Some v | None => dict_get k d end.
Proof.
  unfold dict_update.
  induction other as [| [k0 v0] other IH]; intros Hnd d; [reflexivity |].
  cbn [map fst] in Hnd. apply NoDup_cons in Hnd as [Hfresh Hnd].
  cbn [fold_left fst snd dict_get].
  rewrite (IH Hnd), dict_get_set.
  destruct (String.eqb_spec k0 k) as [<- | _]; [| reflexivity].
  rewrite (dict_get_absent k0 other Hfresh). reflexivity.
Qed.

Lemma dict_set_fresh (k : string) (v : bool) (d : list (string * bool)) :
  k ∉ map fst d -> dict_set k v d = d ++ [(k, v)].
Proof.
  induction d as [| [k' v'] d IH]; intros Hk; cbn [dict_set]; [reflexivity |].
  cbn [map fst] in Hk. apply not_elem_of_cons in Hk as [Hne Hk].
  destruct (String.eqb_spec k' k) as [-> | _]; [contradiction |].
  rewrite (IH Hk). reflexivity.
Qed.

Lemma dict_update_fresh (other : list (string * bool)) :
  forall d : list (string * bool),
  NoDup (map fst (d ++ other)) -> dict_update d other = d ++ other.
Proof.
  unfold dict_update.
  induction other as [| [k v] other IH]; intros d Hnd; cbn [fold_left fst snd].
  - rewrite app_nil_r. reflexivity.
  - assert (Hk : k ∉ map fst d).
    { rewrite map_app in Hnd. cbn [map fst] in Hnd.
      apply NoDup_app in Hnd as (_ & Hdis & _).
      intros Hin. apply (Hdis k Hin). left. }
    rewrite (dict_set_fresh k v d Hk).
    rewrite IH; rewrite <- app_assoc; [reflexivity | exact Hnd].
Qed.

(** What was saved from a shape is loaded as that shape, its points taken
    to world coordinates and back. *)
Lemma shape_of_dict_format_shape (re_match : string -> string -> bool)
    (addPoint : list QPointF.t -> QPointF.t -> list QPointF.t)
    (self w1 : MainWindow) (s : Shape) :
  NoDup (map fst (flags s)) ->
  fold_left addPoint (points (reloaded self w1 s)) [] = points (reloaded self w1 s) ->
  shape_of_dict re_match None addPoint w1 (format_shape self s) = reloaded self w1 s.
Proof.
  intros Hnd Hadd. unfold shape_of_dict, format_shape.
  cbn [d_label d_points d_shape_type d_group_id d_flags default_flags].
  rewrite (dict_update_fresh (flags s) []) by exact Hnd. cbn [app].
  rewrite map_map.
  unfold reloaded in Hadd |- *. cbn [points set_points] in Hadd.
  rewrite Hadd. reflexivity.
Qed.

(** X13: what [saveLabels] writes for the shapes of the label list,
    [loadLabels] reads back shape by shape, in order.  Each loaded shape has
    the label, the shape type, the group id and the flags of the saved
    shape, and as many points: each point is the saved one taken to world
    coordinates by [qpointToPointcloud] and back by [pointcloudToQpoint].
    This holds when no flags are preset, the flags of a shape have distinct
    keys, and [Shape.addPoint] keeps every one of those points.  The loaded
    shapes are new objects next to those of the window; they join its label
    list and replace its canvas. *)
Theorem save_then_load_restores_shapes (re_match : string -> string -> bool)
    (addPoint : list QPointF.t -> QPointF.t -> list QPointF.t)
    (self w1 : MainWindow) (vs : list Shape) :
  Forall2 (fun a s => heap self !! a = Some s) (itemsToShapes self) vs ->
  Forall (fun s => NoDup (map fst (flags s)) /\
                   fold_left addPoint (points (reloaded self w1 s)) []
                   = points (reloaded self w1 s)) vs ->
  exists (ds : list ShapeDict) (self' : MainWindow),
    saved_shapes (itemsToShapes self) self = Ok ds self /\
    loadLabels re_match None addPoint ds w1 = Ok tt self' /\
    heap self' = heap w1 ++ map (reloaded self w1) vs /\
    itemsToShapes self' = itemsToShapes w1 ++ seq (length (heap w1)) (length vs) /\
    canvas_shapes self' = seq (length (heap w1)) (length vs).
Proof.
  intros Hvs Hok.
  destruct (loadLabels_run re_match None addPoint (map (format_shape self) vs) w1)
    as (self' & Hrun & Hheap & Hitems & Hcanvas & _).
  exists (map (format_shape self) vs), self'.
  split; [apply saved_shapes_run, Hvs |]. split; [exact Hrun |].
  rewrite length_map in Hitems, Hcanvas.
  split; [| split; assumption].
  rewrite Hheap. f_equal. rewrite map_map.
  clear Hvs Hrun Hheap Hitems Hcanvas.
  induction Hok as [| s vs [Hnd Hadd] _ IH]; [reflexivity |].
  cbn [map]. rewrite IH. f_equal.
  apply shape_of_dict_format_shape; assumption.
Qed.

Lemma save_then_load_restores_shapes_witness :
  exists (ds : list ShapeDict) (self' : MainWindow),
    saved_shapes (itemsToShapes rack_and_beam) rack_and_beam = Ok ds rack_and_beam /\
    loadLabels (fun _ _ => false) None (fun ps p => ps ++ [p]) ds (blank_window 1 4)
      = Ok tt self' /\
    heap self' = heap (blank_window 1 4)
                 ++ map (reloaded rack_and_beam (blank_window 1 4)) (heap rack_and_beam) /\
    itemsToShapes self' = itemsToShapes (blank_window 1 4) ++ seq (length (heap (blank_window 1 4))) 3 /\
    canvas_shapes self' = seq (length (heap (blank_window 1 4))) 3.
Proof.
  apply (save_then_load_restores_shapes (fun _ _ => false) (fun ps p => ps ++ [p])
           rack_and_beam (blank_window 1 4) (heap rack_and_beam)).
  - repeat constructor.
  - repeat constructor.
Defined.

(** The presets of [loadLabels] are all [False]. *)
Lemma default_flags_false (re_match : string -> string -> bool)
    (label_flags : option (list (string * list string))) (lbl k : string) (v : bool) :
  dict_get k (default_flags re_match label_flags lbl) = Some v -> v = false.
Proof.
  unfold default_flags.
  assert (Hkeys : forall keys d,
            (forall v', dict_get k d = Some v' -> v' = false) ->
            forall v', dict_get k (fold_left (fun d key => dict_set key false d) keys d) = Some v' ->
                       v' = false).
  { induction keys as [| key keys IH]; intros d Hd v'; cbn [fold_left]; [apply Hd |].
    apply IH. intros v''. rewrite dict_get_set.
    destruct (String.eqb key k); [congruence | apply Hd]. }
  assert (Hpats : forall (pats : list (string * list string)) d,
            (forall v', dict_get k d = Some v' -> v' = false) ->
            forall v',
              dict_get k
                (fold_left
                   (fun d (pk : string * list string) =>
                      if re_match (fst pk) lbl
                      then fold_left (fun d key => dict_set key false d) (snd pk) d
                      else d) pats d) = Some v' ->
              v' = false).
  { induction pats as [| pk pats IH]; intros d Hd v'; cbn [fold_left]; [apply Hd |].
    apply IH. destruct (re_match (fst pk) lbl); [apply Hkeys, Hd | exact Hd]. }
  destruct label_flags as [[| pk pats] |]; cbn [dict_get]; try discriminate.
  apply Hpats. cbn [dict_get]. discriminate.
Qed.

(** X14: the flags of a loaded shape.  A key that was saved has its saved
    value, whatever [label_flags] presets for the label; any other key is
    there only when a pattern that matches the label presets it, and is
    [False]. *)
Theorem loaded_flags_saved_over_preset (re_match : string -> string -> bool)
    (label_flags : option (list (string * list string)))
    (addPoint : list QPointF.t -> QPointF.t -> list QPointF.t)
    (self : MainWindow) (d : ShapeDict) (k : string) :
  NoDup (map fst (d_flags d)) ->
  let loaded := flags (shape_of_dict re_match label_flags addPoint self d) in
  (forall v, dict_get k (d_flags d) = Some v -> dict_get k loaded = Some v) /\
  (dict_get k (d_flags d) = None ->
   dict_get k loaded = dict_get k (default_flags re_match label_flags (d_label d)) /\
   dict_get k loaded <> Some true).
Proof.
  intros Hnd loaded. unfold loaded, shape_of_dict. cbn [flags].
  rewrite (dict_get_update k (d_flags d) Hnd). split.
  - intros v ->. reflexivity.
  - intros ->. split; [reflexivity |].
    intros Htrue. apply default_flags_false in Htrue. discriminate.
Qed.

Lemma loaded_flags_saved_over_preset_witness :
  let d := mkShapeDict "beam" [] None "point" [("checked"%string, true)] in
  let presets := Some [("beam"%string, ["checked"%string; "occluded"%string])] in
  let loaded := flags (shape_of_dict String.eqb presets (fun ps p => ps ++ [p])
                         (blank_window 1 4) d) in
  dict_get "checked" loaded = Some true /\ dict_get "occluded" loaded <> Some true.
Proof.
  intros d presets loaded. split.
  - apply (loaded_flags_saved_over_preset String.eqb presets
             (fun ps p => ps ++ [p]) (blank_window 1 4) d "checked").
    + cbn. apply NoDup_singleton.
    + reflexivity.
  - apply (loaded_flags_saved_over_preset String.eqb presets
             (fun ps p => ps ++ [p]) (blank_window 1 4) d "occluded").
    + cbn. apply NoDup_singleton.
    + reflexivity.
Defined.

(** ** The list of recent files *)

Lemma existsb_eqb_elem (x : string) (l : list string) :
  existsb (String.eqb x) l = true <-> x ∈ l.
Proof.
  induction l as [| y l IH]; cbn [existsb].
  - split; [discriminate | intros H; inversion H].
  - rewrite orb_true_iff, IH, elem_of_cons.
    destruct (String.eqb_spec x y); split; intros [H | H]; auto; discriminate.
Qed.

Lemma list_remove_elem (x f : string) (l : list string) :
  f ∈ list_remove x l -> f ∈ l.
Proof.
  induction l as [| y l IH]; cbn [list_remove]; [auto |].
  destruct (String.eqb y x).
  - intros H. right. exact H.
  - intros H. apply elem_of_cons in H as [-> | H]; [left | right; apply IH, H].
Qed.

Lemma list_remove_NoDup (x : string) (l : list string) :
  NoDup l -> NoDup (list_remove x l) /\ x ∉ list_remove x l.
Proof.
  induction l as [| y l IH]; intros Hnd; cbn [list_remove].
  - split; [constructor | intros H; inversion H].
  - apply NoDup_cons in Hnd as [Hy Hnd].
    destruct (String.eqb_spec y x) as [-> | Hne].
    + split; assumption.
    + destruct (IH Hnd) as [Hnd' Hx]. split.
      * apply NoDup_cons. split; [| exact Hnd'].
        intros H. apply Hy. eapply list_remove_elem, H.
      * intros H. apply elem_of_cons in H as [-> | H]; [apply Hne; reflexivity | exact (Hx H)].
Qed.

Lemma list_remove_length (x : string) (l : list string) :
  x ∈ l -> S (length (list_remove x l)) = length l.
Proof.
  induction l as [| y l IH]; intros Hx; [inversion Hx |].
  cbn [list_remove]. destruct (String.eqb_spec y x) as [-> | Hne]; [reflexivity |].
  cbn [length]. f_equal. apply IH.
  apply elem_of_cons in Hx as [-> | Hx]; [contradiction Hne; reflexivity | exact Hx].
Qed.

Lemma removelast_elem (f : string) (l : list string) : f ∈ removelast l -> f ∈ l.
Proof.
  induction l as [| y l IH]; cbn [removelast]; [auto |].
  destruct l as [| z l]; [intros H; inversion H |].
  intros H. apply elem_of_cons in H as [-> | H]; [left | right; apply IH, H].
Qed.

Lemma removelast_NoDup (l : list string) : NoDup l -> NoDup (removelast l).
Proof.
  induction l as [| y l IH]; intros Hnd; cbn [removelast]; [constructor |].
  apply NoDup_cons in Hnd as [Hy Hnd].
  destruct l as [| z l]; [constructor |].
  apply NoDup_cons. split; [| apply IH, Hnd].
  intros H. apply Hy. apply removelast_elem, H.
Qed.

Lemma removelast_length (l : list string) :
  l <> [] -> S (length (removelast l)) = length l.
Proof.
  induction l as [| y l IH]; intros Hne; [congruence |].
  cbn [removelast]. destruct l as [| z l]; [reflexivity |].
  cbn [length]. f_equal. apply IH. discriminate.
Qed.

(** X15: [addRecentFile] keeps the list of recent files in order.  When
    the list has no duplicate and at most [maxRecent] entries, with
    [maxRecent] at least 1, the call does not raise; the file named comes
    first, the list still has no duplicate and at most [maxRecent] entries,
    and every other entry was in the list before. *)
Theorem addRecentFile_keeps_list_bounded (maxRecent : nat) (recentFiles : list string)
    (filename : string) :
  (1 <= maxRecent)%nat ->
  NoDup recentFiles ->
  (length recentFiles <= maxRecent)%nat ->
  exists l : list string,
    addRecentFile maxRecent recentFiles filename = Return (filename :: l) /\
    NoDup (filename :: l) /\
    (length (filename :: l) <= maxRecent)%nat /\
    (forall f, f ∈ l -> f ∈ recentFiles).
Proof.
  intros Hmax Hnd Hlen. unfold addRecentFile.
  destruct (existsb (String.eqb filename) recentFiles) eqn:Ein.
  - apply existsb_eqb_elem in Ein.
    destruct (list_remove_NoDup filename recentFiles Hnd) as [Hnd' Hout].
    exists (list_remove filename recentFiles).
    split; [reflexivity |]. split; [apply NoDup_cons; split; assumption |].
    split; [cbn [length]; rewrite (list_remove_length _ _ Ein); exact Hlen |].
    intros f. apply list_remove_elem.
  - assert (Hout : filename ∉ recentFiles).
    { intros H. apply existsb_eqb_elem in H. congruence. }
    destruct (Nat.leb_spec maxRecent (length recentFiles)) as [Hfull | Hroom].
    + destruct recentFiles as [| y l] eqn:E; [cbn [length] in Hfull; lia |].
      rewrite <- E in *. exists (removelast recentFiles).
      split; [reflexivity |].
      split; [apply NoDup_cons; split;
              [intros H; apply Hout, removelast_elem, H | apply removelast_NoDup, Hnd] |].
      split; [cbn [length]; rewrite removelast_length; [exact Hlen | rewrite E; discriminate] |].
      intros f. apply removelast_elem.
    + exists recentFiles. split; [reflexivity |].
      split; [apply NoDup_cons; split; assumption |].
      split; [cbn [length]; lia | auto].
Qed.

Lemma addRecentFile_keeps_list_bounded_witness :
  exists l : list string,
    addRecentFile 2 ["a.pcd"%string; "b.pcd"%string] "c.pcd" = Return ("c.pcd"%string :: l) /\
    NoDup ("c.pcd"%string :: l) /\
    (length ("c.pcd"%string :: l) <= 2)%nat /\
    (forall f, f ∈ l -> f ∈ ["a.pcd"%string; "b.pcd"%string]).
Proof.
  apply (addRecentFile_keeps_list_bounded 2 ["a.pcd"%string; "b.pcd"%string] "c.pcd").
  - lia.
  - apply NoDup_cons. split; [| apply NoDup_singleton].
    intros H. apply list_elem_of_singleton in H. discriminate.
  - cbn. lia.
Defined.

(** ** Label validation *)

(** X16: [validateLabel] accepts a label exactly when validation is off
    ([validate_label] is [None]), or the mode is ['exact'] and the label is
    one of the list of known labels.  Under any other mode it rejects every
    label, known or not. *)
Theorem validateLabel_accepts_iff (validate_label : option string) (uniq : list string)
    (lbl : string) :
  validateLabel validate_label uniq lbl = true <->
  validate_label = None \/ (validate_label = Some "exact"%string /\ lbl ∈ uniq).
Proof.
  unfold validateLabel. destruct validate_label as [mode |].
  - split.
    + intros H. right. apply existsb_exists in H as (y & Hy & Hb).
      apply andb_true_iff in Hb as [Hm Hl].
      apply String.eqb_eq in Hm, Hl. subst.
      split; [reflexivity | apply list_elem_of_In; exact Hy].
    + intros [H | [H Hin]]; [discriminate |]. injection H as ->.
      apply existsb_exists. exists lbl.
      split; [apply list_elem_of_In; exact Hin |].
      cbn [String.eqb andb]. rewrite String.eqb_refl. reflexivity.
  - split; [left; reflexivity | reflexivity].
Qed.

(** ** Refreshing the canvas *)

Lemma updatePixmap_fixed (w : MainWindow) (img : list Byte.byte)
    (imgs : list (list Byte.byte)) :
  imageData w = Some (img :: imgs) ->
  (0 <= sliceIdx w < Z.of_nat (length (img :: imgs)))%Z ->
  image w = (img :: imgs) !! Z.to_nat (sliceIdx w) ->
  canvas_shapes w = itemsToShapes w ->
  updatePixmap w = w.
Proof.
  intros Himg Hrange Himage Hcanvas. unfold updatePixmap. rewrite Himg.
  destruct (Z.geb_spec (sliceIdx w) (Z.of_nat (length (img :: imgs)))); [lia |].
  destruct (Z.ltb_spec (sliceIdx w) 0); [lia |].
  destruct w. cbn in *. subst. reflexivity.
Qed.

(** X18: [updatePixmap] is idempotent: a second refresh right after a
    first one changes nothing. *)
Theorem updatePixmap_idempotent (self : MainWindow) :
  updatePixmap (updatePixmap self) = updatePixmap self.
Proof.
  destruct (imageData self) as [[| img imgs] |] eqn:E.
  - unfold updatePixmap at 2. rewrite E. unfold updatePixmap. rewrite E. reflexivity.
  - apply (updatePixmap_fixed _ img imgs); unfold updatePixmap; rewrite E;
      repeat match goal with
             | |- context [(?a >=? ?b)%Z] => destruct (Z.geb_spec a b)
             | |- context [(?a <? ?b)%Z] => destruct (Z.ltb_spec a b)
             end;
      cbn [imageData image sliceIdx canvas_shapes itemsToShapes
           with_canvas_shapes with_image with_sliceIdx length] in *;
      try assumption; try reflexivity; lia.
  - unfold updatePixmap at 2. rewrite E. unfold updatePixmap. rewrite E. reflexivity.
Qed.
